(** * noti-ot-education: the page watcher [check_pages.py] and its variant

    A shallow embedding of the two source files of the repository,
    - [src/check_pages.py]     (module [Primary] below), and
    - [src/check_pages.py.py]  (module [Variant] below),
    followed by the properties of the specification that were settled
    against them and by further properties of the code.

    Python values are embedded as follows.
    - [str] is a list of Unicode code points ([N]); comparison of two
      strings is the lexicographic comparison of their code points.
    - [set] of strings is a [gset]; a [dict] is an insertion-ordered
      association list ([PyDict]), since the order of [dict.values()]
      is observable through the stable sort that follows it.
    - Set objects live in a heap ([list (gset str)]) and are reached
      through references, because [run_target] mutates a set that may
      or may not be shared with the state mapping.
    - Effects (HTTP, Telegram, printing, sleeping, writing the state
      file) are recorded in a trace; exceptions are the left summand
      of the result. *)

From Stdlib Require Import ZArith NArith Lia Bool.
From Stdlib Require Import Sorting.Sorted.
From stdpp Require Import base option list sorting gmap sets strings.

Open Scope N_scope.
Open Scope list_scope.

(** ** Strings *)

(** A character is a Unicode code point. *)
Definition char : Type := N.
Abbreviation str := (list N).

(** An ASCII literal of the source, as code points. *)
Definition lit (s : string) : str :=
  (λ a, Ascii.N_of_ascii a) <$> String.list_ascii_of_string s.

(** [a < b] on [str]: lexicographic on code points. *)
Fixpoint str_lt (a b : str) : bool :=
  match a, b with
  | _, [] => false
  | [], _ :: _ => true
  | x :: a', y :: b' => (x <? y) || ((x =? y) && str_lt a' b')
  end.

(** Membership in a table of inclusive code point ranges. *)
Definition in_ranges (tbl : list (N * N)) (c : char) : bool :=
  existsb (λ r, (fst r <=? c) && (c <=? snd r)) tbl.

(** *** The Unicode character database (version 14.0, the one of CPython 3.11)

    Only three properties of a code point are used by the program:
    whether it is white space ([str.isspace], used by [str.strip]),
    its decimal digit value ([str.isdecimal], the regular expression
    class [\d], and the digits accepted by [int]), and whether it
    is a digit in the wider sense of [str.isdigit]. *)

Definition space_ranges : list (N * N) :=
  [ (0x9, 0xd); (0x1c, 0x20); (0x85, 0x85); (0xa0, 0xa0); (0x1680, 0x1680);
    (0x2000, 0x200a); (0x2028, 0x2029); (0x202f, 0x202f); (0x205f, 0x205f);
    (0x3000, 0x3000) ].

Definition isspace_char (c : char) : bool := in_ranges space_ranges c.

(** The code points of the digit zero of every decimal number system
    (general category Nd); the other nine digits follow each of them. *)
Definition decimal_zeros : list N :=
  [ 0x30; 0x660; 0x6f0; 0x7c0; 0x966; 0x9e6; 0xa66; 0xae6; 0xb66; 0xbe6;
    0xc66; 0xce6; 0xd66; 0xde6; 0xe50; 0xed0; 0xf20; 0x1040; 0x1090; 0x17e0;
    0x1810; 0x1946; 0x19d0; 0x1a80; 0x1a90; 0x1b50; 0x1bb0; 0x1c40; 0x1c50;
    0xa620; 0xa8d0; 0xa900; 0xa9d0; 0xa9f0; 0xaa50; 0xabf0; 0xff10; 0x104a0;
    0x10d30; 0x11066; 0x110f0; 0x11136; 0x111d0; 0x112f0; 0x11450; 0x114d0;
    0x11650; 0x116c0; 0x11730; 0x118e0; 0x11950; 0x11c50; 0x11d50; 0x11da0;
    0x16a60; 0x16ac0; 0x16b50; 0x1d7ce; 0x1d7d8; 0x1d7e2; 0x1d7ec; 0x1d7f6;
    0x1e140; 0x1e2f0; 0x1e950; 0x1fbf0 ].

Definition decimal_value (c : char) : option N :=
  (λ z, c - z) <$> List.find (λ z, (z <=? c) && (c <? z + 10)) decimal_zeros.

Definition isdecimal_char (c : char) : bool :=
  match decimal_value c with Some _ => true | None => false end.

(** Code points with Numeric_Type=Digit that are not decimal digits
    (superscripts, subscripts, circled digits and the like). *)
Definition digit_only_ranges : list (N * N) :=
  [ (0xb2, 0xb3); (0xb9, 0xb9); (0x1369, 0x1371); (0x19da, 0x19da);
    (0x2070, 0x2070); (0x2074, 0x2079); (0x2080, 0x2089); (0x2460, 0x2468);
    (0x2474, 0x247c); (0x2488, 0x2490); (0x24ea, 0x24ea); (0x24f5, 0x24fd);
    (0x24ff, 0x24ff); (0x2776, 0x277e); (0x2780, 0x2788); (0x278a, 0x2792);
    (0x10a40, 0x10a43); (0x10e60, 0x10e68); (0x11052, 0x1105a);
    (0x1f100, 0x1f10a) ].

Definition isdigit_char (c : char) : bool :=
  isdecimal_char c || in_ranges digit_only_ranges c.

(** [s.isdigit()]: at least one character, and all of them digits. *)
Definition isdigit (s : str) : bool :=
  match s with [] => false | _ => forallb isdigit_char s end.

(** The suffix that starts at the first character not satisfying [p]. *)
Fixpoint drop_while (p : char → bool) (s : str) : str :=
  match s with
  | c :: s' => if p c then drop_while p s' else s
  | [] => []
  end.

(** [s.strip()] *)
Definition lstrip (s : str) : str := drop_while isspace_char s.

Definition rstrip (s : str) : str := reverse (lstrip (reverse s)).

Definition strip (s : str) : str := rstrip (lstrip s).

(** [s.rstrip('/')] *)
Definition rstrip_char (x : char) (s : str) : str :=
  reverse (drop_while (λ c, c =? x) (reverse s)).

(** The longest prefix whose characters all satisfy [p], and what follows. *)
Fixpoint span (p : char → bool) (s : str) : str * str :=
  match s with
  | c :: s' => if p c then let '(r, t) := span p s' in (c :: r, t) else ([], s)
  | [] => ([], [])
  end.

(** *** [int(s)] on a string

    CPython first maps every non-ASCII white space to a blank and every
    decimal digit to its ASCII digit, then reads: blanks, an optional
    sign, digits in which single underscores may separate digits,
    blanks, end of string.  Of the ASCII characters only 9..13 and 32
    are blanks at this stage.  When a limit on the number of digits is
    set ([sys.get_int_max_str_digits()], 4300 by default since 3.11,
    0 for none) a longer numeral is a [ValueError] as well.  [None]
    stands for that [ValueError]. *)

Definition int_blank (c : char) : bool :=
  if c <? 128 then ((9 <=? c) && (c <=? 13)) || (c =? 32) else isspace_char c.

Definition underscore : char := 95.

(** The value of a digit string with underscores; [prev] tells whether
    the previous character was a digit (an underscore is only allowed
    after a digit and before a digit).  Returns the value and the
    number of digits. *)
Fixpoint int_digits (prev : bool) (acc : Z) (n : N) (s : str) : option (Z * N) :=
  match s with
  | [] => if prev then Some (acc, n) else None
  | c :: s' =>
      if c =? underscore then
        if prev then int_digits false acc n s' else None
      else
        match decimal_value c with
        | Some d => int_digits true (10 * acc + Z.of_N d)%Z (n + 1) s'
        | None => None
        end
  end.

Definition int_of_str (max_str_digits : N) (s : str) : option Z :=
  let s1 := drop_while int_blank s in
  let '(neg, s2) :=
    match s1 with
    | c :: r => if c =? 45 then (true, r) else if c =? 43 then (false, r) else (false, s1)
    | [] => (false, [])
    end in
  let '(body, rest) := span (λ c, (c =? underscore) || isdecimal_char c) s2 in
  match drop_while int_blank rest, int_digits false 0 0 body with
  | [], Some (v, n) =>
      if (0 <? max_str_digits) && (max_str_digits <? n) then None
      else Some (if neg then - v else v)%Z
  | _, _ => None
  end.

(** ** [sorted] and [list.sort]

    Python's sort is stable and compares with [<] only.  [lt a b]
    tells that [a] has to come before [b]; for [reverse=True] it is
    [key a > key b], and elements with equal keys keep their
    original order in both directions. *)

Section sort.
Context {A : Type} (lt : A → A → bool).

(** [x] comes from before everything in [l]: it goes in front of the
    first element that does not have to precede it. *)
Fixpoint insert_sorted (x : A) (l : list A) : list A :=
  match l with
  | [] => [x]
  | y :: l' => if lt y x then y :: insert_sorted x l' else x :: l
  end.

Definition stable_sort (l : list A) : list A := foldr insert_sorted [] l.
End sort.

(** [l[:n]] for a Python integer [n]: a negative [n] counts from the end. *)
Definition slice_to {A} (n : Z) (l : list A) : list A :=
  if (0 <=? n)%Z then take (Z.to_nat n) l
  else take (Z.to_nat (Z.of_nat (length l) + n)) l.

(** ** [dict]: an insertion-ordered association list

    [d[k] = v] replaces the value of an existing key in place and
    appends a new key at the end, as CPython's dict does, so that
    [values] lists the values in the order of first insertion. *)

Module PyDict.
Section dict.
Context {V : Type}.

Fixpoint get (k : str) (d : list (str * V)) : option V :=
  match d with
  | [] => None
  | (k', v) :: d' => if decide (k' = k) then Some v else get k d'
  end.

Fixpoint set (k : str) (v : V) (d : list (str * V)) : list (str * V) :=
  match d with
  | [] => [(k, v)]
  | (k', v') :: d' =>
      if decide (k' = k) then (k, v) :: d' else (k', v') :: set k v d'
  end.

Definition keys (d : list (str * V)) : list str := d.*1.
Definition values (d : list (str * V)) : list V := d.*2.
End dict.
End PyDict.

(** ** The parse tree handed out by BeautifulSoup

    Elements with their attributes and children, and text.  What
    carries neither a tag name nor text that [get_text] returns
    (comments, doctypes, the contents of script and style elements)
    is left out. *)

#[warnings="-register-all"]
Inductive node : Type :=
| Text (s : str)
| Elem (tag : str) (attrs : list (str * str)) (children : list node).

(** [n.descendants]: every node below [n], in document order. *)
Fixpoint descendants (n : node) : list node :=
  match n with
  | Text _ => []
  | Elem _ _ kids =>
      (fix go (ks : list node) : list node :=
         match ks with
         | [] => []
         | k :: ks' => k :: descendants k ++ go ks'
         end) kids
  end.

(** The names of the tags and attributes the parsers look for. *)
Definition tr : str := Eval cbv in lit "tr".
Definition td : str := Eval cbv in lit "td".
Definition a_tag : str := Eval cbv in lit "a".
Definition href_attr : str := Eval cbv in lit "href".
Definition onclick_attr : str := Eval cbv in lit "onclick".

Definition is_tag (name : str) (n : node) : bool :=
  match n with
  | Elem t _ _ => bool_decide (t = name)
  | Text _ => false
  end.

(** Every node below [n] with its nearest enclosing [tr] element
    ([find_parent("tr")]), [row] being the one that encloses [n] itself. *)
Fixpoint with_parent_row (row : option node) (n : node) : list (node * option node) :=
  match n with
  | Text _ => []
  | Elem t _ kids =>
      let row' := if bool_decide (t = tr) then Some n else row in
      (fix go (ks : list node) : list (node * option node) :=
         match ks with
         | [] => []
         | k :: ks' => (k, row') :: with_parent_row row' k ++ go ks'
         end) kids
  end.

(** [n.find_all(name)] and [n.find(name)] *)
Definition find_all (name : str) (n : node) : list node :=
  filter (λ k, is_tag name k = true) (descendants n).

Definition find (name : str) (n : node) : option node := head (find_all name n).

(** [n.get(attr)] *)
Definition get_attr (attr : str) (n : node) : option str :=
  match n with
  | Elem _ attrs _ => PyDict.get attr attrs
  | Text _ => None
  end.

(** [soup.find_all("a", href=True)] *)
Definition find_all_links (n : node) : list node :=
  filter (λ k, is_Some (get_attr href_attr k)) (find_all a_tag n).

(** [soup.find_all("a")] with [a.find_parent("tr")] for each. *)
Definition find_all_links_with_row (n : node) : list (node * option node) :=
  filter (λ p, is_tag a_tag p.1 = true) (with_parent_row None n).

(** [n.get_text(strip=True)]: the text pieces below [n], each
    stripped, the empty ones dropped, joined without a separator. *)
Definition text_of (n : node) : option str :=
  match n with Text s => Some s | Elem _ _ _ => None end.

Definition get_text_strip (n : node) : str :=
  concat (filter (λ s, s ≠ []) (strip <$> omap text_of (descendants n))).

(** ** The regular expressions of the source *)

(** The search of the pattern QUOTE ([^QUOTE]+) QUOTE in the onclick
    attribute, QUOTE being either of the two quote characters: the
    first quote that is followed by at least one character other
    than a quote and then by a quote; the group is what stands
    between the two. *)
Definition is_quote (c : char) : bool := (c =? 39) || (c =? 34).

Fixpoint search_quoted (s : str) : option str :=
  match s with
  | [] => None
  | c :: s' =>
      if is_quote c then
        match span (λ x, negb (is_quote x)) s' with
        | (x :: run, _ :: _) => Some (x :: run)
        | _ => search_quoted s'
        end
      else search_quoted s'
  end.

(** A pattern made of one character class per position followed by a
    group [(body+)]: the match at the start of [s], and the leftmost
    match anywhere in [s] ([re.search]); the result is the group. *)
Fixpoint match_classes (cls : list (char → bool)) (s : str) : option str :=
  match cls, s with
  | [], _ => Some s
  | p :: cls', c :: s' => if p c then match_classes cls' s' else None
  | _ :: _, [] => None
  end.

Definition match_here (cls : list (char → bool)) (body : char → bool) (s : str)
  : option str :=
  match match_classes cls s with
  | Some rest =>
      match (span body rest).1 with
      | [] => None
      | run => Some run
      end
  | None => None
  end.

Fixpoint re_search (cls : list (char → bool)) (body : char → bool) (s : str)
  : option str :=
  match match_here cls body s with
  | Some g => Some g
  | None =>
      match s with
      | [] => None
      | _ :: s' => re_search cls body s'
      end
  end.

(** A lower case ASCII letter under [re.IGNORECASE]. *)
Definition ascii_ci (l : char) (c : char) : bool := (c =? l) || (c =? l - 32).

Definition query_sep (c : char) : bool := (c =? 63) || (c =? 38).

(** [r'[?&]Key=(\d+)'] with [re.IGNORECASE]; besides [K] and [k] the
    Kelvin sign U+212A matches the letter k. *)
Definition re_key : list (char → bool) :=
  [ query_sep; (λ c, ascii_ci 107 c || (c =? 0x212a)); ascii_ci 101;
    ascii_ci 121; N.eqb 61 ].

(** [r'[?&]num=(\d+)'] with [re.IGNORECASE] *)
Definition re_num : list (char → bool) :=
  [ query_sep; ascii_ci 110; ascii_ci 117; ascii_ci 109; N.eqb 61 ].

(** [rf'{re.escape(path_prefix)}/(\d+)'] *)
Definition re_path (path_prefix : str) : list (char → bool) :=
  N.eqb <$> (path_prefix ++ [47]).

(** [href.lower().startswith("javascript:")]: [str.lower] sends only
    the ASCII letters of either case to the letters of this prefix. *)
Definition javascript : str := Eval cbv in lit "javascript:".

Fixpoint lower_startswith (prefix s : str) : bool :=
  match prefix, s with
  | [], _ => true
  | l :: prefix', c :: s' =>
      (if (97 <=? l) && (l <=? 122) then ascii_ci l c else c =? l)
      && lower_startswith prefix' s'
  | _ :: _, [] => false
  end.

(** ** Exceptions, messages and effects *)

Inductive exn : Type :=
| KeyError (key : str)
| ValueError_int (s : str)         (* int(s) refused the string *)
| ValueError_type (ttype : str)    (* "Unsupported target type" *)
| TypeError_lt                     (* '<' between an int and a str *)
| RuntimeError_targets             (* the list of targets is empty *)
| RuntimeError_env                 (* BOT_TOKEN / CHAT_ID empty *)
| RequestError (info : str).       (* raised by requests *)

(** The three messages handed to [telegram_send], each an f-string of
    the source kept as its fields:
    - [msg], which starts with the sign for new and the title of its
      kind, then [({name})], the title and the URL of the item;
    - [warn_msg], which starts with the warning sign and the words
      for a parse warning, then [({name})] and the URL of the listing;
    - [err_msg], which starts with the warning sign and the words for
      a crawler error, then the name and [{type(e).__name__}: {e}]. *)
Inductive text : Type :=
| NewItemText (name title url : str)
| ParseWarnText (name url : str)
| CrawlerErrText (name : str) (e : exn).

(** The lines given to [print]:
    - the notice that a message was only printed, followed by the message;
    - [[{name}] fetched={len(items)} first5=...];
    - a message itself ([print(warn_msg)], [print(err_msg)]);
    - [[{name}] No new items.];
    - [[{name}] Sent: {it.item_id} {it.title}]. *)
Inductive line : Type :=
| LSkipped (t : text)
| LFetched (name : str) (n : nat) (first5 : list (str * str))
| LText (t : text)
| LNoNew (name : str)
| LSent (name id title : str).

(** What the program does to the world, in the order it does it: a
    GET of a page, a line printed, a POST to the Telegram API with
    its outcome, a pause, and the write of the state file. *)
Inductive event : Type :=
| EvGet (url : str)
| EvPrint (l : line)
| EvPost (t : text) (delivered : bool)
| EvSleep
| EvSave (compact : list (str * list str)).

(** [STATE_FILE] as [load_state] meets it: absent, not usable as a
    mapping of lists (any exception while reading it), or the mapping. *)
Inductive state_file : Type :=
| FileAbsent
| FileCorrupt
| FileJson (raw : list (str * list str)).

(** What lies outside the program: the web, the libraries that are
    taken as given, the environment and the Telegram API. *)
Record World : Type := {
  (** [requests.get] with [raise_for_status], the decoding, and the
      parse by [BeautifulSoup(html, "lxml")]: final URL and tree. *)
  http_get : str → exn + (str * node);
  urljoin : str → str → str;
  (** [urlparse(url).path] *)
  urlparse_path : str → str;
  (** [base] of the variant: [f"{u.scheme}://{u.netloc}"] *)
  urlparse_origin : str → str;
  (** equality of two characters under [re.IGNORECASE] *)
  re_ignorecase : char → char → bool;
  (** both [BOT_TOKEN] and [CHAT_ID] are non-empty *)
  configured : bool;
  (** the outcome of the k-th POST to the Telegram API *)
  telegram_post : nat → text → option exn;
  int_max_str_digits : N;
  state_json : state_file;
}.

(** The mutable objects: the state mapping (source name to a
    reference), the set objects, what happened so far, and the
    number of POSTs made. *)
Record mem : Type := Mem {
  state : list (str * nat);
  heap : list (gset str);
  trace : list event;
  posts : nat;
}.

Definition M (A : Type) : Type := mem → (exn + A) * mem.

Definition ret {A} (x : A) : M A := λ m, (inr x, m).
Definition raise {A} (e : exn) : M A := λ m, (inl e, m).
Definition bind {A B} (c : M A) (k : A → M B) : M B :=
  λ m, match c m with
       | (inr x, m') => k x m'
       | (inl e, m') => (inl e, m')
       end.
Definition try_except {A} (c : M A) (handler : exn → M A) : M A :=
  λ m, match c m with
       | (inr x, m') => (inr x, m')
       | (inl e, m') => handler e m'
       end.
Definition lift {A} (r : exn + A) : M A := λ m, (r, m).

Notation "'let*' x := c 'in' k" := (bind c (λ x, k))
  (at level 10, x pattern, c at level 100, k at level 200).
Notation "c ;; k" := (bind c (λ _, k))
  (at level 100, k at level 200, right associativity).

(** The memory after one more event. *)
Definition log (e : event) (m : mem) : mem :=
  Mem (state m) (heap m) (trace m ++ [e]) (posts m).

Definition emit (e : event) : M unit := λ m, (inr tt, log e m).

Definition print (l : line) : M unit := emit (EvPrint l).

(** [time.sleep(0.7)] *)
Definition sleep : M unit := emit EvSleep.

(** A new set object with the elements [s]; [set()] is the empty one. *)
Definition alloc (s : gset str) : M nat :=
  λ m, (inr (length (heap m)), Mem (state m) (heap m ++ [s]) (trace m) (posts m)).

Definition new_set : M nat := alloc ∅.

(** The set a reference points to. *)
Definition deref (r : nat) (m : mem) : gset str := default ∅ (heap m !! r).

Definition read_set (r : nat) : M (gset str) := λ m, (inr (deref r m), m).

(** [seen.add(x)] *)
Definition set_add (r : nat) (x : str) : M unit :=
  λ m, (inr tt, Mem (state m) (<[r := {[x]} ∪ deref r m]> (heap m)) (trace m) (posts m)).

(** [state.get(name, set())]: the default is built before the lookup. *)
Definition state_get_or_new (name : str) : M nat :=
  let* fresh := new_set in
  λ m, (inr (default fresh (PyDict.get name (state m))), m).

(** [state[name] = seen] *)
Definition state_set (name : str) (r : nat) : M unit :=
  λ m, (inr tt, Mem (PyDict.set name r (state m)) (heap m) (trace m) (posts m)).

(** The known ids of a source, as [save_state] will find them. *)
Definition known (name : str) (m : mem) : option (gset str) :=
  (λ r, deref r m) <$> PyDict.get name (state m).

(** ** Items *)

Record Item : Type := { item_id : str; title : str; url : str }.

(** [items_by_id[it.item_id] = it] for each candidate in turn. *)
Definition items_by_id_of (candidates : list Item) : list (str * Item) :=
  foldl (λ d it, PyDict.set (item_id it) it d) [] candidates.

(** The sort key of the variant: a number for an id that [isdigit],
    the id itself otherwise. *)
Inductive sort_key_t : Type :=
| KInt (z : Z)
| KStr (s : str).

(** [a < b] on two keys; [None] is the [TypeError] of Python 3 for an
    [int] against a [str]. *)
Definition key_lt (a b : sort_key_t) : option bool :=
  match a, b with
  | KInt x, KInt y => Some (x <? y)%Z
  | KStr x, KStr y => Some (str_lt x y)
  | _, _ => None
  end.

(** The key of an id. *)
Definition id_key (max_str_digits : N) (id : str) : exn + sort_key_t :=
  if isdigit id then
    match int_of_str max_str_digits id with
    | Some z => inr (KInt z)
    | None => inl (ValueError_int id)
    end
  else inr (KStr id).

(** Each element with its key, as [sorted] computes them before it
    compares anything; the first key that raises ends the sort. *)
Fixpoint with_keys {A K} (key : A → exn + K) (l : list A) : exn + list (K * A) :=
  match l with
  | [] => inr []
  | x :: l' =>
      match key x with
      | inl e => inl e
      | inr k =>
          match with_keys key l' with
          | inl e => inl e
          | inr kl => inr ((k, x) :: kl)
          end
      end
  end.

(** [sorted(l, key=lambda it: int(it.item_id), reverse=...)] *)
Definition int_key (w : World) (it : Item) : exn + Z :=
  match int_of_str (int_max_str_digits w) (item_id it) with
  | Some z => inr z
  | None => inl (ValueError_int (item_id it))
  end.

Definition sorted_by_int (w : World) (reverse : bool) (l : list Item) : exn + list Item :=
  match with_keys (int_key w) l with
  | inl e => inl e
  | inr kl =>
      inr (stable_sort (λ a b, if reverse then (b.1 <? a.1)%Z else (a.1 <? b.1)%Z) kl).*2
  end.

(** [requests.get(url, ...)] and the parse of the answer. *)
Definition fetch_html (w : World) (url : str) : M (str * node) :=
  emit (EvGet url) ;; lift (http_get w url).

Definition unknown : str := Eval cbv in lit "unknown".

(** One entry of [targets] in [targets.json]. *)
Record Target : Type := {
  t_name : option str;
  t_url : option str;
  t_type : option str;
  t_latest_n : option Z;
  t_key_pattern : option str;
}.

(** ** The state file

    [load_state] and [save_state] are the same in both files. *)

(** [{k: set(map(str, v)) for k, v in raw.items()}] *)
Fixpoint load_entries (raw : list (str * list str)) : M unit :=
  match raw with
  | [] => ret tt
  | (k, v) :: raw' =>
      let* r := alloc (list_to_set v) in
      state_set k r ;;
      load_entries raw'
  end.

(** [state = load_state()]: the mapping starts empty. *)
Definition load_state (w : World) : M unit :=
  match state_json w with
  | FileAbsent | FileCorrupt => ret tt
  | FileJson raw => load_entries raw
  end.

(** [list(sorted(v, reverse=True))[:3000]] for one set of ids. *)
Definition compact_ids (v : gset str) : list str :=
  take 3000 (stable_sort (λ a b, str_lt b a) (elements v)).

(** The mapping that [save_state] dumps into [STATE_FILE]. *)
Definition compact (m : mem) : list (str * list str) :=
  (λ kr, (kr.1, compact_ids (deref kr.2 m))) <$> state m.

Definition save_state : M unit :=
  λ m, emit (EvSave (compact m)) m.

(** The memory [main] starts from. *)
Definition boot : mem := Mem [] [] [] 0.

(** * [src/check_pages.py] *)

Module Primary.

Definition html_list_number_id : str := Eval cbv in lit "html_list_number_id".
Definition html_link_with_key : str := Eval cbv in lit "html_link_with_key".
Definition html_link_with_path_number : str :=
  Eval cbv in lit "html_link_with_path_number".
Definition html_link_with_num_param : str :=
  Eval cbv in lit "html_link_with_num_param".

Definition telegram_send (w : World) (t : text) : M unit :=
  if negb (configured w) then print (LSkipped t)
  else
    λ m,
      let m' := Mem (state m) (heap m) (trace m) (S (posts m)) in
      match telegram_post w (posts m) t with
      | None => emit (EvPost t true) m'
      | Some e => (emit (EvPost t false) ;; raise e) m'
      end.

(** The placeholders that are not taken as a link. *)
Definition placeholders : list str :=
  Eval cbv in [lit "#"; lit "javascript:void(0);"; lit "javascript:void(0)"].

(** The URL of the link [a] of a row (first pass). *)
Definition row_url (w : World) (target_url final_url : str) (a : node) : str :=
  let href := strip (default [] (get_attr href_attr a)) in
  let onclick := strip (default [] (get_attr onclick_attr a)) in
  if bool_decide (href ≠ []) && bool_decide (href ∉ placeholders)
     && negb (lower_startswith javascript href)
  then urljoin w final_url href
  else
    match search_quoted onclick with
    | Some u => urljoin w final_url u
    | None => target_url
    end.

(** The body of the first loop for one [tr]; [None] is [continue]. *)
Definition row_item (w : World) (target_url final_url : str) (row : node)
  : option Item :=
  match find_all td row with
  | [] => None
  | td0 :: _ =>
      let no := get_text_strip td0 in
      if negb (isdigit no) then None
      else
        match find a_tag row with
        | None => None
        | Some a =>
            let title := get_text_strip a in
            if bool_decide (title = []) then None
            else Some {| item_id := no; title := title;
                         url := row_url w target_url final_url a |}
        end
  end.

(** The body of the second loop for one [a] and its enclosing row. *)
Definition link_row_item (w : World) (target_url final_url : str)
    (p : node * option node) : option Item :=
  let a := p.1 in
  let title := get_text_strip a in
  if bool_decide (title = []) then None
  else
    match p.2 with
    | None => None
    | Some row =>
        match find_all td row with
        | [] => None
        | td0 :: _ =>
            let no := get_text_strip td0 in
            if negb (isdigit no) then None
            else
              let href := strip (default [] (get_attr href_attr a)) in
              let full_url :=
                if bool_decide (href ≠ []) && negb (lower_startswith javascript href)
                then urljoin w final_url href else target_url in
              Some {| item_id := no; title := title; url := full_url |}
        end
    end.

(** The candidates of the two passes, in the order the loops meet them. *)
Definition rows_pass (w : World) (target_url final_url : str) (soup : node)
  : list Item :=
  omap (row_item w target_url final_url) (find_all tr soup).

Definition links_pass (w : World) (target_url final_url : str) (soup : node)
  : list Item :=
  omap (link_row_item w target_url final_url) (find_all_links_with_row soup).

Definition list_number_id_candidates (w : World) (target_url final_url : str)
    (soup : node) : list Item :=
  match rows_pass w target_url final_url soup with
  | [] => links_pass w target_url final_url soup
  | rows => rows
  end.

(** The last two lines of every strategy. *)
Definition newest_first (w : World) (latest_n : Z) (items_by_id : list (str * Item))
  : exn + list Item :=
  match sorted_by_int w true (PyDict.values items_by_id) with
  | inl e => inl e
  | inr items => inr (slice_to latest_n items)
  end.

Definition parse_html_list_number_id (w : World) (target_url : str) (latest_n : Z)
  : M (list Item) :=
  let* (final_url, soup) := fetch_html w target_url in
  lift (newest_first w latest_n
          (items_by_id_of (list_number_id_candidates w target_url final_url soup))).

(** The body of the loop of the three link strategies for one [a]. *)
Definition link_item (w : World) (final_url : str) (cls : list (char → bool))
    (a : node) : option Item :=
  let href := strip (default [] (get_attr href_attr a)) in
  let title := get_text_strip a in
  if bool_decide (title = []) || (length title <? 3)%nat then None
  else
    match re_search cls isdecimal_char href with
    | Some id => Some {| item_id := id; title := title;
                         url := urljoin w final_url href |}
    | None => None
    end.

Definition link_candidates (w : World) (final_url : str) (cls : list (char → bool))
    (soup : node) : list Item :=
  omap (link_item w final_url cls) (find_all_links soup).

Definition parse_html_link_with_key (w : World) (target_url : str) (latest_n : Z)
  : M (list Item) :=
  let* (final_url, soup) := fetch_html w target_url in
  lift (newest_first w latest_n
          (items_by_id_of (link_candidates w final_url re_key soup))).

Definition parse_html_link_with_path_number (w : World) (target_url : str)
    (latest_n : Z) : M (list Item) :=
  let* (final_url, soup) := fetch_html w target_url in
  let path_prefix := rstrip_char 47 (urlparse_path w target_url) in
  lift (newest_first w latest_n
          (items_by_id_of (link_candidates w final_url (re_path path_prefix) soup))).

Definition parse_html_link_with_num_param (w : World) (target_url : str)
    (latest_n : Z) : M (list Item) :=
  let* (final_url, soup) := fetch_html w target_url in
  lift (newest_first w latest_n
          (items_by_id_of (link_candidates w final_url re_num soup))).

(** The items whose id is not in [seen]. *)
Definition new_items_of (seen : gset str) (items : list Item) : list Item :=
  filter (λ it, item_id it ∉ seen) items.

(** The loop that sends the new items. *)
Fixpoint notify (w : World) (name : str) (seen : nat) (new_items : list Item)
  : M unit :=
  match new_items with
  | [] => ret tt
  | it :: rest =>
      telegram_send w (NewItemText name (title it) (url it)) ;;
      print (LSent name (item_id it) (title it)) ;;
      set_add seen (item_id it) ;;
      sleep ;;
      notify w name seen rest
  end.

Definition url_key : str := Eval cbv in lit "url".

(** The choice of the parser by the type of the target. *)
Definition select_parser (w : World) (ttype url : str) (latest_n : Z)
  : M (list Item) :=
  if bool_decide (ttype = html_list_number_id) then
    parse_html_list_number_id w url latest_n
  else if bool_decide (ttype = html_link_with_key) then
    parse_html_link_with_key w url latest_n
  else if bool_decide (ttype = html_link_with_path_number) then
    parse_html_link_with_path_number w url latest_n
  else if bool_decide (ttype = html_link_with_num_param) then
    parse_html_link_with_num_param w url latest_n
  else raise (ValueError_type ttype).

Definition run_target (w : World) (target : Target) : M unit :=
  let name := default unknown (t_name target) in
  let* url := match t_url target with
              | Some u => ret u
              | None => raise (KeyError url_key)
              end in
  let ttype := default html_list_number_id (t_type target) in
  let latest_n := default 30%Z (t_latest_n target) in
  let* seen := state_get_or_new name in
  let* items := select_parser w ttype url latest_n in
  print (LFetched name (length items)
           ((λ it, (item_id it, title it)) <$> take 5 items)) ;;
  match items with
  | [] =>
      print (LText (ParseWarnText name url)) ;;
      telegram_send w (ParseWarnText name url)
  | _ =>
      let* known_ids := read_set seen in
      match new_items_of known_ids items with
      | [] => print (LNoNew name)
      | new_items =>
          let* new_items := lift (sorted_by_int w false new_items) in
          notify w name seen new_items ;;
          state_set name seen
      end
  end.

(** The loop of [main] over the targets. *)
Fixpoint run_targets (w : World) (targets : list Target) : M unit :=
  match targets with
  | [] => ret tt
  | target :: rest =>
      try_except (run_target w target)
        (λ e,
           let err_msg := CrawlerErrText (default unknown (t_name target)) e in
           print (LText err_msg) ;;
           telegram_send w err_msg) ;;
      run_targets w rest
  end.

(** [main], from the targets of [targets.json] ([None] when the key
    is absent). *)
Definition main (w : World) (config : option (list Target)) : M unit :=
  match default [] config with
  | [] => raise RuntimeError_targets
  | targets =>
      load_state w ;;
      run_targets w targets ;;
      save_state
  end.

(** *** The parser seen as a function of the page

    What [select_parser] computes, apart from the request it logs:
    the candidates that the loops of the chosen strategy meet, in
    order, and the list made of them. *)

Definition supported (ttype : str) : bool :=
  bool_decide (ttype = html_list_number_id)
  || bool_decide (ttype = html_link_with_key)
  || bool_decide (ttype = html_link_with_path_number)
  || bool_decide (ttype = html_link_with_num_param).

Definition candidates (w : World) (ttype target_url final_url : str) (soup : node)
  : list Item :=
  if bool_decide (ttype = html_list_number_id) then
    list_number_id_candidates w target_url final_url soup
  else if bool_decide (ttype = html_link_with_key) then
    link_candidates w final_url re_key soup
  else if bool_decide (ttype = html_link_with_path_number) then
    link_candidates w final_url
      (re_path (rstrip_char 47 (urlparse_path w target_url))) soup
  else link_candidates w final_url re_num soup.

Definition extracted (w : World) (ttype url : str) (latest_n : Z) : exn + list Item :=
  if supported ttype then
    match http_get w url with
    | inl e => inl e
    | inr (final_url, soup) =>
        newest_first w latest_n (items_by_id_of (candidates w ttype url final_url soup))
    end
  else inl (ValueError_type ttype).

Definition fetched (ttype url : str) (m : mem) : mem :=
  if supported ttype then log (EvGet url) m else m.

End Primary.


(** * [src/check_pages.py.py] *)

Module Variant.

Definition html_key_list : str := Eval cbv in lit "html_key_list".
Definition default_key_pattern : str := Eval cbv in lit "view.asp?Key=".
Definition name_key : str := Eval cbv in lit "name".
Definition url_key : str := Eval cbv in lit "url".
Definition http_scheme : str := Eval cbv in lit "http://".
Definition https_scheme : str := Eval cbv in lit "https://".

Definition telegram_send (w : World) (t : text) : M unit :=
  if negb (configured w) then raise RuntimeError_env
  else
    λ m,
      let m' := Mem (state m) (heap m) (trace m) (S (posts m)) in
      match telegram_post w (posts m) t with
      | None => emit (EvPost t true) m'
      | Some e => (emit (EvPost t false) ;; raise e) m'
      end.

(** [s.startswith(prefix)] *)
Fixpoint startswith (prefix s : str) : bool :=
  match prefix, s with
  | [], _ => true
  | p :: prefix', c :: s' => (c =? p) && startswith prefix' s'
  | _ :: _, [] => false
  end.

Definition normalize_url (w : World) (href base : str) : str :=
  if startswith http_scheme href || startswith https_scheme href then href
  else if startswith [47] href then urljoin w base href
  else urljoin w (base ++ [47]) href.

(** [re.escape(key_pattern) + r"([^&#]+)"] with [re.IGNORECASE] *)
Definition key_re (w : World) (key_pattern : str) : list (char → bool) :=
  re_ignorecase w <$> key_pattern.

Definition id_char (c : char) : bool := negb ((c =? 38) || (c =? 35)).

(** The body of the loop for one [a]. *)
Definition key_item (w : World) (base key_pattern : str) (a : node) : option Item :=
  let href := default [] (get_attr href_attr a) in
  match re_search (key_re w key_pattern) id_char href with
  | None => None
  | Some g =>
      let title := get_text_strip a in
      if bool_decide (title = []) then None
      else Some {| item_id := strip g; title := title;
                   url := normalize_url w href base |}
  end.

Definition key_candidates (w : World) (base key_pattern : str) (soup : node)
  : list Item :=
  omap (key_item w base key_pattern) (find_all_links soup).

(** [int(it.item_id) if it.item_id.isdigit() else it.item_id] *)
Definition sort_key (w : World) (it : Item) : exn + sort_key_t :=
  id_key (int_max_str_digits w) (item_id it).

Definition is_int_key (k : sort_key_t) : bool :=
  match k with KInt _ => true | KStr _ => false end.

(** All keys are numbers, or all are strings. *)
Definition same_kind (ks : list sort_key_t) : bool :=
  forallb is_int_key ks || forallb (λ k, negb (is_int_key k)) ks.

(** [sorted(l, key=sort_key, reverse=...)].  With two elements or more
    the sort has to compare across any split of the list, so a list
    that mixes numbers and strings raises [TypeError]. *)
Definition sorted_by_key (w : World) (reverse : bool) (l : list Item)
  : exn + list Item :=
  match with_keys (sort_key w) l with
  | inl e => inl e
  | inr kl =>
      if (2 <=? length kl)%nat && negb (same_kind kl.*1) then inl TypeError_lt
      else
        inr (stable_sort
               (λ a b, default false
                         (if reverse then key_lt b.1 a.1 else key_lt a.1 b.1)) kl).*2
  end.

Definition newest_first (w : World) (latest_n : Z) (items_by_id : list (str * Item))
  : exn + list Item :=
  match sorted_by_key w true (PyDict.values items_by_id) with
  | inl e => inl e
  | inr items => inr (slice_to latest_n items)
  end.

Definition parse_html_key_list (w : World) (target_url key_pattern : str)
    (latest_n : Z) : M (list Item) :=
  let* (_, soup) := fetch_html w target_url in
  let base := urlparse_origin w target_url in
  let items_by_id := items_by_id_of (key_candidates w base key_pattern soup) in
  lift (newest_first w latest_n items_by_id).

Definition new_items_of (seen : gset str) (items : list Item) : list Item :=
  filter (λ it, item_id it ∉ seen) items.

Fixpoint notify (w : World) (name : str) (seen : nat) (new_items : list Item)
  : M unit :=
  match new_items with
  | [] => ret tt
  | it :: rest =>
      telegram_send w (NewItemText name (title it) (url it)) ;;
      print (LSent name (item_id it) (title it)) ;;
      set_add seen (item_id it) ;;
      sleep ;;
      notify w name seen rest
  end.

Definition run_target (w : World) (target : Target) : M unit :=
  let* name := match t_name target with
               | Some n => ret n
               | None => raise (KeyError name_key)
               end in
  let* url := match t_url target with
              | Some u => ret u
              | None => raise (KeyError url_key)
              end in
  let ttype := default html_key_list (t_type target) in
  let latest_n := default 30%Z (t_latest_n target) in
  let* seen := state_get_or_new name in
  let* items :=
    if bool_decide (ttype = html_key_list) then
      let key_pattern := default default_key_pattern (t_key_pattern target) in
      parse_html_key_list w url key_pattern latest_n
    else raise (ValueError_type ttype) in
  let* known_ids := read_set seen in
  match new_items_of known_ids items with
  | [] => print (LNoNew name)
  | new_items =>
      let* new_items := lift (sorted_by_key w false new_items) in
      notify w name seen new_items ;;
      state_set name seen
  end.

Fixpoint run_targets (w : World) (targets : list Target) : M unit :=
  match targets with
  | [] => ret tt
  | target :: rest =>
      try_except (run_target w target)
        (λ e, print (LText (CrawlerErrText (default unknown (t_name target)) e))) ;;
      run_targets w rest
  end.

Definition main (w : World) (config : option (list Target)) : M unit :=
  match default [] config with
  | [] => raise RuntimeError_targets
  | targets =>
      load_state w ;;
      run_targets w targets ;;
      save_state
  end.

(** What [parse_html_key_list] computes, apart from the request it logs. *)
Definition candidates (w : World) (url key_pattern : str) (soup : node) : list Item :=
  key_candidates w (urlparse_origin w url) key_pattern soup.

Definition extracted (w : World) (url key_pattern : str) (latest_n : Z)
  : exn + list Item :=
  match http_get w url with
  | inl e => inl e
  | inr (_, soup) =>
      newest_first w latest_n (items_by_id_of (candidates w url key_pattern soup))
  end.

End Variant.

(** * Notions used in the statements *)

(** The state mapping is a dictionary (no key twice), and every
    reference in it points into the heap. *)
Definition wf (m : mem) : Prop :=
  NoDup (PyDict.keys (state m))
  ∧ ∀ name r, PyDict.get name (state m) = Some r → (r < length (heap m))%nat.

(** The event of the write of the state file. *)
Definition is_save (e : event) : bool :=
  match e with EvSave _ => true | _ => false end.

(** No decimal number system (ten code points from each of [zeros])
    meets one of the [ranges]. *)
Definition apart (zeros : list N) (ranges : list (N * N)) : bool :=
  forallb (λ z, forallb (λ r : N * N, (z + 9 <? r.1) || (r.2 <? z)) ranges) zeros.

(** The ranges of [int_blank]. *)
Definition blank_ranges : list (N * N) := (9, 13) :: (32, 32) :: space_ranges.

(** Induction on a tree with the property at hand for all children. *)
Fixpoint node_forall_ind (P : node → Prop)
    (Htext : ∀ s, P (Text s))
    (Helem : ∀ tag attrs kids, Forall P kids → P (Elem tag attrs kids))
    (n : node) : P n :=
  match n with
  | Text s => Htext s
  | Elem tag attrs kids =>
      Helem tag attrs kids
        ((fix go (ks : list node) : Forall P ks :=
            match ks with
            | [] => @List.Forall_nil node P
            | k :: ks' =>
                @List.Forall_cons node P k ks' (node_forall_ind P Htext Helem k) (go ks')
            end) kids)
  end.

(** The world of a later process: the same, with another state file. *)
Definition with_state_file (w : World) (f : state_file) : World :=
  {| http_get := http_get w;
     urljoin := urljoin w;
     urlparse_path := urlparse_path w;
     urlparse_origin := urlparse_origin w;
     re_ignorecase := re_ignorecase w;
     configured := configured w;
     telegram_post := telegram_post w;
     int_max_str_digits := int_max_str_digits w;
     state_json := f |}.

(** An event of the notification of a new item: the POST of the
    message, the line printed in its place when the credentials are
    absent, or the line that follows a message that went out. *)
Definition is_new_item_event (e : event) : bool :=
  match e with
  | EvPost (NewItemText _ _ _) _ => true
  | EvPrint (LSkipped (NewItemText _ _ _)) => true
  | EvPrint (LSent _ _ _) => true
  | _ => false
  end.

(** [a] is not after [b] under the comparison key of ids: both keys
    exist, are of one kind, and the key of [b] is not below that of [a]. *)
Definition id_le (max_str_digits : N) (a b : str) : Prop :=
  ∃ ka kb, id_key max_str_digits a = inr ka ∧ id_key max_str_digits b = inr kb
           ∧ key_lt kb ka = Some false.

(** The items of [l] are in ascending order of the key of their ids. *)
Definition ascending (w : World) (l : list Item) : Prop :=
  StronglySorted (λ a b, id_le (int_max_str_digits w) (item_id a) (item_id b)) l.

(** The items of [l] are in descending order of the key of their ids. *)
Definition descending (w : World) (l : list Item) : Prop :=
  StronglySorted (λ a b, id_le (int_max_str_digits w) (item_id b) (item_id a)) l.

(** The same for a list of ids, as the state file holds them. *)
Definition ids_descending (max_str_digits : N) (ids : list str) : Prop :=
  StronglySorted (λ a b, id_le max_str_digits b a) ids.

(** [a < b] on keys, false where Python would raise. *)
Definition key_ltb (a b : sort_key_t) : bool := default false (key_lt a b).

(** All the items have a numeric key, or all of them have a string key. *)
Definition uniform (w : World) (l : list Item) : Prop :=
  ∃ k : bool, Forall (λ it, ∃ key, Variant.sort_key w it = inr key
                                   ∧ Variant.is_int_key key = k) l.

(** [s] holds a quoted substring: a quote, the non-empty [body] free
    of quotes, a quote. *)
Definition quoted_at (s pre body post : str) : Prop :=
  ∃ q1 q2, is_quote q1 = true ∧ is_quote q2 = true ∧ body ≠ []
           ∧ Forall (λ c, is_quote c = false) body
           ∧ s = pre ++ q1 :: body ++ q2 :: post.

(** [body] is the first quoted substring of [s]: no other one starts
    further to the left. *)
Definition first_quoted (s body : str) : Prop :=
  ∃ pre post,
    quoted_at s pre body post
    ∧ ∀ pre' body' post', quoted_at s pre' body' post' → (length pre ≤ length pre')%nat.

(** The href of a link can be followed: it is there and not empty, it
    is not one of the placeholders, and it is not a javascript: URL. *)
Definition usable_href (href : str) : Prop :=
  href ≠ [] ∧ (href ∉ Primary.placeholders) ∧ lower_startswith javascript href = false.

(** * Sample inputs

    A listing in the shape of the docstring of
    [parse_html_list_number_id], a world that serves it, and a
    source that watches it.  The links of the samples are absolute,
    so that [urljoin] returns the link itself. *)

Module Samples.

Definition listing_url : str := Eval cbv in lit "https://ex.org/list".

(** [<tr><td>no</td><td><a ...>title</a></td></tr>] *)
Definition row (no title : str) (attrs : list (str * str)) : node :=
  Elem tr [] [Elem td [] [Text no]; Elem td [] [Elem a_tag attrs [Text title]]].

Definition linked (target : string) : list (str * str) := [(href_attr, lit target)].

Definition page (rows : list node) : node :=
  Elem (lit "html") [] [Elem (lit "body") [] [Elem (lit "table") [] rows]].

(** Two notices, newest first. *)
Definition page_two : node :=
  page [ row (lit "10") (lit "A") (linked "https://ex.org/a");
         row (lit "9") (lit "B") (linked "https://ex.org/b") ].

(** Three notices, the number 9 twice. *)
Definition page_twice : node :=
  page [ row (lit "10") (lit "A") (linked "https://ex.org/a");
         row (lit "9") (lit "B") (linked "https://ex.org/b");
         row (lit "8") (lit "C") (linked "https://ex.org/c");
         row (lit "9") (lit "B again") (linked "https://ex.org/b2") ].

(** A row numbered with a superscript two (U+00B2). *)
Definition page_superscript : node :=
  page [ row [0xb2] (lit "A") (linked "https://ex.org/a") ].

(** A link whose key has 4301 digits. *)
Definition long_number : str := replicate 4301 49.

Definition page_long_number : node :=
  page [ Elem a_tag [(href_attr, lit "https://ex.org/view.asp?Key=" ++ long_number)]
           [Text (lit "Notice Title")] ].

(** A link of the variant: [view.asp?Key=47]. *)
Definition page_keys : node :=
  page [ Elem a_tag (linked "https://ex.org/view.asp?Key=47") [Text (lit "Notice Title")];
         Elem a_tag (linked "https://ex.org/view.asp?Key=5") [Text (lit "Older")] ].

(** The link of a row whose href is a placeholder and whose onclick
    carries the address. *)
Definition onclick_link : node :=
  Elem a_tag
    [ (href_attr, lit "#");
      (onclick_attr, lit "location.href='https://ex.org/view.php?id=9'") ]
    [Text (lit "B")].

Definition onclick_row : node :=
  Elem tr [] [Elem td [] [Text (lit "9")]; Elem td [] [onclick_link]].

Definition ascii_lower (c : char) : char :=
  if (65 <=? c) && (c <=? 90) then c + 32 else c.

(** A world that serves [soup] for every URL; [post] decides every
    POST to Telegram. *)
Definition world (soup : node) (post : nat → text → option exn) : World :=
  {| http_get := λ u, inr (u, soup);
     urljoin := λ _ ref, ref;
     urlparse_path := λ _, lit "/list";
     urlparse_origin := λ _, lit "https://ex.org";
     re_ignorecase := λ a b, ascii_lower a =? ascii_lower b;
     configured := true;
     telegram_post := post;
     int_max_str_digits := 4300;
     state_json := FileAbsent |}.

(** The same with a state file that knows the ids [ids] of [name]. *)
Definition world_knowing (soup : node) (post : nat → text → option exn)
    (name : str) (ids : list str) : World :=
  with_state_file (world soup post) (FileJson [(name, ids)]).

Definition delivered : nat → text → option exn := λ _ _, None.
Definition refused : nat → text → option exn := λ _ _, Some (RequestError (lit "HTTPError")).
(** Only the second POST fails. *)
Definition second_refused : nat → text → option exn :=
  λ k _, if (k =? 1)%nat then Some (RequestError (lit "HTTPError")) else None.

Definition source : Target :=
  {| t_name := Some (lit "notice"); t_url := Some listing_url; t_type := None;
     t_latest_n := None; t_key_pattern := None |}.

(** A source of a type that no parser serves. *)
Definition source_unsupported : Target :=
  {| t_name := Some (lit "first"); t_url := Some listing_url;
     t_type := Some (lit "rss"); t_latest_n := None; t_key_pattern := None |}.

Definition item_10 : Item :=
  {| item_id := lit "10"; title := lit "A"; url := lit "https://ex.org/a" |}.
Definition item_9 : Item :=
  {| item_id := lit "9"; title := lit "B"; url := lit "https://ex.org/b" |}.
Definition item_9_again : Item :=
  {| item_id := lit "9"; title := lit "B again"; url := lit "https://ex.org/b2" |}.
Definition item_8 : Item :=
  {| item_id := lit "8"; title := lit "C"; url := lit "https://ex.org/c" |}.
Definition item_47 : Item :=
  {| item_id := lit "47"; title := lit "Notice Title";
     url := lit "https://ex.org/view.asp?Key=47" |}.
Definition item_5 : Item :=
  {| item_id := lit "5"; title := lit "Older"; url := lit "https://ex.org/view.asp?Key=5" |}.

End Samples.

(** * Notions used in the further properties *)

(** An ASCII digit, and the number that a string of ASCII digits writes. *)
Definition ascii_digit (c : char) : bool := (48 <=? c) && (c <=? 57).

Definition ascii_number (s : str) : Z :=
  foldl (λ acc c, (10 * acc + Z.of_N (c - 48))%Z) 0%Z s.

(** The length of [l[:n]] for a list of [total] elements. *)
Definition kept (n : Z) (total : nat) : nat :=
  if (0 <=? n)%Z then Nat.min (Z.to_nat n) total else (total - Z.to_nat (- n))%nat.

(** The number of different ids among the candidates of a page. *)
Definition distinct_ids (cands : list Item) : nat :=
  size (list_to_set (item_id <$> cands) : gset str).

(** Every message handed to [telegram_send] is taken: the credentials
    are absent, so that it is only printed, or the Telegram API
    accepts every POST. *)
Definition accepting (w : World) : Prop :=
  configured w = false ∨ ∀ k t, telegram_post w k t = None.

(** The report of a failure in [main] of [check_pages.py] cannot fail
    itself: the credentials are absent, so that it is only printed,
    or the Telegram API accepts every report. *)
Definition reports_taken (w : World) : Prop :=
  configured w = false ∨ ∀ k name e, telegram_post w k (CrawlerErrText name e) = None.

(** What [notify] does for one item whose message is taken: the
    message (printed in its place without credentials), the line that
    tells that it was sent, the pause. *)
Definition sent_events (w : World) (name : str) (it : Item) : list event :=
  [ (if configured w then EvPost (NewItemText name (title it) (url it)) true
     else EvPrint (LSkipped (NewItemText name (title it) (url it))));
    EvPrint (LSent name (item_id it) (title it));
    EvSleep ].

(** The events of a request of a page and of a POST to Telegram. *)
Definition is_get (e : event) : bool :=
  match e with EvGet _ => true | _ => false end.

Definition is_post (e : event) : bool :=
  match e with EvPost _ _ => true | _ => false end.

(** An event that is not the write of the state file, and not a POST
    either when the credentials are absent. *)
Definition calm (w : World) (e : event) : Prop :=
  is_save e = false ∧ (configured w = false → is_post e = false).

(** Such an event that is not the request of a page either. *)
Definition quiet (w : World) (e : event) : Prop :=
  is_get e = false ∧ is_save e = false ∧ (configured w = false → is_post e = false).

(** The URL that a run of [check_pages.py] requests for a target: the
    one of a target that has a URL and the type of one of the four
    parsers; a target without a URL raises [KeyError], one of another
    type [ValueError], before any request. *)
Definition primary_request (target : Target) : option str :=
  match t_url target with
  | Some url =>
      if Primary.supported (default Primary.html_list_number_id (t_type target))
      then Some url else None
  | None => None
  end.

(** The same for the variant: a target that has a name, a URL and the
    type of the one parser. *)
Definition variant_request (target : Target) : option str :=
  match t_name target, t_url target with
  | Some _, Some url =>
      if bool_decide (default Variant.html_key_list (t_type target) = Variant.html_key_list)
      then Some url else None
  | _, _ => None
  end.

(** The entries of the state file, none for a file that is absent or
    cannot be read. *)
Definition file_entries (w : World) : list (str * list str) :=
  match state_json w with
  | FileJson raw => raw
  | FileAbsent | FileCorrupt => []
  end.

(** No set object is shared by two sources. *)
Definition unshared (m : mem) : Prop := NoDup (PyDict.values (state m)).

(** The memory after a run of the source [name], against the memory
    before it: the sets that were there have only grown, and only the
    set of the source at that; the state mapping is what it was, or
    has the source as its new, last entry. *)
Definition grown (name : str) (m m' : mem) : Prop :=
  (length (heap m) ≤ length (heap m'))%nat
  ∧ (∀ r, (r < length (heap m))%nat → deref r m ⊆ deref r m')
  ∧ (∀ r, (r < length (heap m))%nat → PyDict.get name (state m) ≠ Some r →
          deref r m' = deref r m)
  ∧ (state m' = state m
     ∨ PyDict.get name (state m) = None
       ∧ state m' = state m ++ [(name, length (heap m))]
       ∧ (length (heap m) < length (heap m'))%nat).

(** ** Further sample inputs *)

Module Cases.

(** A listing of the variant that mixes a number and a word as keys. *)
Definition page_mixed : node :=
  Samples.page
    [ Elem a_tag (Samples.linked "https://ex.org/view.asp?Key=47")
        [Text (lit "Notice Title")];
      Elem a_tag (Samples.linked "https://ex.org/view.asp?Key=intro")
        [Text (lit "About")] ].

Definition item_intro : Item :=
  {| item_id := lit "intro"; title := lit "About";
     url := lit "https://ex.org/view.asp?Key=intro" |}.

(** The world of the samples without credentials. *)
Definition bare_world (soup : node) : World :=
  {| http_get := λ u, inr (u, soup);
     urljoin := λ _ ref, ref;
     urlparse_path := λ _, lit "/list";
     urlparse_origin := λ _, lit "https://ex.org";
     re_ignorecase := λ a b, Samples.ascii_lower a =? Samples.ascii_lower b;
     configured := false;
     telegram_post := Samples.refused;
     int_max_str_digits := 4300;
     state_json := FileAbsent |}.

(** A state mapping whose one source, another one than that of the
    samples, knows the id 8. *)
Definition other_knows_8 : mem := Mem [(lit "other", 0%nat)] [{[ lit "8" ]}] [] 0.

(** A state mapping whose one source knows the ids 9 and 10. *)
Definition knows_9_10 : mem := Mem [(lit "notice", 0%nat)] [{[ lit "9"; lit "10" ]}] [] 0.

End Cases.

(** * Facts about the building blocks *)

(** ** The stable sort *)

Section sort_facts.
Context {A : Type} (lt : A → A → bool).

Lemma insert_sorted_perm (x : A) (l : list A) : insert_sorted lt x l ≡ₚ x :: l.
Proof.
  induction l as [|y l IH]; simpl; [done|].
  destruct (lt y x); [|done].
  rewrite IH. apply Permutation_swap.
Qed.

Lemma stable_sort_perm (l : list A) : stable_sort lt l ≡ₚ l.
Proof.
  induction l as [|x l IH]; simpl; [done|].
  rewrite insert_sorted_perm. by rewrite IH.
Qed.

Lemma stable_sort_length (l : list A) : length (stable_sort lt l) = length l.
Proof. by rewrite stable_sort_perm. Qed.

(** The order has to behave on the elements that are sorted only. *)
Context (P : A → Prop).
Hypothesis asym : ∀ x y, P x → P y → lt x y = true → lt y x = false.
Hypothesis trans :
  ∀ x y z, P x → P y → P z → lt y x = false → lt z y = false → lt z x = false.

Lemma insert_sorted_sorted (x : A) (l : list A) :
  P x → Forall P l →
  StronglySorted (λ a b, lt b a = false) l →
  StronglySorted (λ a b, lt b a = false) (insert_sorted lt x l).
Proof.
  intros Px. induction l as [|y l IH]; intros HP Hs; simpl.
  { repeat constructor. }
  apply Forall_cons in HP as [Py HP].
  apply StronglySorted_inv in Hs as [Hs Hy].
  destruct (lt y x) eqn:Hyx.
  - constructor; [by apply IH|].
    rewrite insert_sorted_perm. constructor; [by apply asym|done].
  - constructor; [by constructor|].
    constructor; [done|].
    rewrite Forall_forall in Hy, HP. apply Forall_forall. intros z Hz.
    apply (trans x y z); auto.
Qed.

Lemma stable_sort_sorted_raw (l : list A) :
  Forall P l → StronglySorted (λ a b, lt b a = false) (stable_sort lt l).
Proof.
  induction l as [|x l IH]; intros HP; simpl; [constructor|].
  apply Forall_cons in HP as [Px HP].
  apply insert_sorted_sorted; [done| |by apply IH].
  by rewrite stable_sort_perm.
Qed.

Lemma StronglySorted_on (R R' : A → A → Prop) (l : list A) :
  (∀ a b, P a → P b → R a b → R' a b) →
  Forall P l → StronglySorted R l → StronglySorted R' l.
Proof.
  intros HR. induction l as [|x l IH]; intros HP Hs; [constructor|].
  apply Forall_cons in HP as [Px HP].
  apply StronglySorted_inv in Hs as [Hs Hx].
  constructor; [by apply IH|].
  rewrite Forall_forall in Hx, HP. apply Forall_forall. intros y Hy. auto.
Qed.

Lemma stable_sort_sorted (R : A → A → Prop) (l : list A) :
  (∀ a b, P a → P b → lt b a = false → R a b) →
  Forall P l → StronglySorted R (stable_sort lt l).
Proof.
  intros HR HP.
  apply (StronglySorted_on (λ a b, lt b a = false)); [done| |].
  - by rewrite stable_sort_perm.
  - by apply stable_sort_sorted_raw.
Qed.
End sort_facts.

(** ** Keys *)

Section with_keys_facts.
Context {A K : Type} (key : A → exn + K).

Lemma with_keys_inr (l : list A) (kl : list (K * A)) :
  with_keys key l = inr kl →
  kl.*2 = l ∧ Forall (λ p, key p.2 = inr p.1) kl.
Proof.
  revert kl. induction l as [|x l IH]; intros kl; simpl.
  { intros [= <-]. by split. }
  destruct (key x) as [e|k] eqn:Hk; [done|].
  destruct (with_keys key l) as [e|kl'] eqn:Hl; [done|].
  intros [= <-]. destruct (IH kl' eq_refl) as [<- HP].
  split; [done|]. by constructor.
Qed.

Lemma with_keys_total (l : list A) :
  Forall (λ x, ∃ k, key x = inr k) l → ∃ kl, with_keys key l = inr kl.
Proof.
  induction 1 as [|x l [k Hk] _ [kl IH]]; simpl; [by eexists|].
  rewrite Hk, IH. by eexists.
Qed.

Lemma with_keys_defined (l : list A) (kl : list (K * A)) :
  with_keys key l = inr kl → Forall (λ x, ∃ k, key x = inr k) l.
Proof.
  intros H. apply with_keys_inr in H as [<- HP].
  apply Forall_fmap. eapply Forall_impl; [exact HP|]. simpl. eauto.
Qed.
End with_keys_facts.

(** ** Slices *)

Lemma slice_to_sublist {A} (n : Z) (l : list A) : slice_to n l `sublist_of` l.
Proof. unfold slice_to. destruct (0 <=? n)%Z; apply sublist_take. Qed.

Lemma slice_to_take {A} (n : Z) (l : list A) :
  (0 ≤ n)%Z → slice_to n l = take (Z.to_nat n) l.
Proof. intros Hn. unfold slice_to. by rewrite (Zle_imp_le_bool _ _ Hn). Qed.

Lemma slice_to_length {A} (n : Z) (l : list A) :
  (0 ≤ n)%Z → (Z.of_nat (length (slice_to n l)) ≤ n)%Z.
Proof. intros Hn. rewrite slice_to_take, length_take by done. lia. Qed.

Lemma sublist_Forall {A} (P : A → Prop) (l k : list A) :
  l `sublist_of` k → Forall P k → Forall P l.
Proof.
  intros Hs HP. rewrite Forall_forall in HP. apply Forall_forall.
  intros x Hx. apply HP. by eapply elem_of_sublist.
Qed.

Lemma sublist_StronglySorted {A} (R : A → A → Prop) (l k : list A) :
  l `sublist_of` k → StronglySorted R k → StronglySorted R l.
Proof.
  induction 1 as [|x l k Hs IH|x l k Hs IH]; intros HR; [done| |].
  - apply StronglySorted_inv in HR as [HR Hx]. constructor; [by apply IH|].
    by apply (sublist_Forall _ _ k).
  - apply StronglySorted_inv in HR as [HR _]. by apply IH.
Qed.

(** ** Dictionaries *)

Section dict_facts.
Context {V : Type}.
Implicit Types (d : list (str * V)) (k : str) (v : V).

Lemma dict_get_set_eq k v d : PyDict.get k (PyDict.set k v d) = Some v.
Proof.
  induction d as [|[k' v'] d IH]; simpl.
  - by rewrite decide_True.
  - destruct (decide (k' = k)); simpl.
    + by rewrite decide_True.
    + by rewrite decide_False.
Qed.

Lemma dict_get_set_ne k k' v d :
  k ≠ k' → PyDict.get k' (PyDict.set k v d) = PyDict.get k' d.
Proof.
  intros Hne. induction d as [|[k0 v0] d IH]; simpl.
  - by rewrite decide_False.
  - destruct (decide (k0 = k)) as [->|]; simpl.
    + by rewrite !decide_False.
    + by rewrite IH.
Qed.

Lemma dict_keys_set k v d :
  PyDict.keys (PyDict.set k v d)
  = if decide (k ∈ PyDict.keys d) then PyDict.keys d else PyDict.keys d ++ [k].
Proof.
  unfold PyDict.keys. induction d as [|[k0 v0] d IH].
  - simpl. destruct (decide (k ∈ [])) as [Hin|]; [|done].
    by apply elem_of_nil in Hin.
  - simpl PyDict.set. destruct (decide (k0 = k)) as [->|Hne].
    + rewrite decide_True; [done|]. rewrite fmap_cons. apply elem_of_cons; auto.
    + rewrite !fmap_cons, IH. simpl. destruct (decide (k ∈ d.*1)) as [Hin|Hnin].
      * rewrite decide_True; [done|]. apply elem_of_cons; auto.
      * rewrite decide_False; [done|]. rewrite elem_of_cons. intros [?|?]; auto.
Qed.

Lemma dict_NoDup_set k v d :
  NoDup (PyDict.keys d) → NoDup (PyDict.keys (PyDict.set k v d)).
Proof.
  intros Hd. rewrite dict_keys_set. destruct (decide _) as [|Hnin]; [done|].
  apply NoDup_app. split_and!; [done| |apply NoDup_singleton].
  intros x Hx Hk. apply list_elem_of_singleton in Hk as ->. done.
Qed.

Lemma dict_get_elem_of k v d :
  NoDup (PyDict.keys d) → (k, v) ∈ d → PyDict.get k d = Some v.
Proof.
  unfold PyDict.keys. induction d as [|[k0 v0] d IH]; simpl; intros Hd Hin.
  - by apply elem_of_nil in Hin.
  - apply NoDup_cons in Hd as [Hk0 Hd].
    apply elem_of_cons in Hin as [[= -> ->]|Hin].
    + by rewrite decide_True.
    + rewrite decide_False; [by apply IH|].
      intros ->. apply Hk0. apply list_elem_of_fmap. by exists (k, v).
Qed.
End dict_facts.

(** The dictionary of an extraction pass: every key is met once, and
    it is bound to the last candidate that carries it. *)
Lemma items_by_id_fold_get (k : str) (cands : list Item) (d : list (str * Item)) :
  PyDict.get k (foldl (λ d it, PyDict.set (item_id it) it d) d cands)
  = match last (filter (λ c, item_id c = k) cands) with
    | Some it => Some it
    | None => PyDict.get k d
    end.
Proof.
  revert d. induction cands as [|c cands IH] using rev_ind; intros d; [done|].
  rewrite foldl_app, filter_app. simpl.
  rewrite filter_cons, filter_nil.
  destruct (decide (item_id c = k)) as [<-|Hne].
  - by rewrite last_snoc, dict_get_set_eq.
  - rewrite app_nil_r, dict_get_set_ne by done. apply IH.
Qed.

Lemma items_by_id_fold_NoDup (cands : list Item) (d : list (str * Item)) :
  NoDup (PyDict.keys d) →
  NoDup (PyDict.keys (foldl (λ d it, PyDict.set (item_id it) it d) d cands)).
Proof.
  revert d. induction cands as [|c cands IH]; intros d Hd; simpl; [done|].
  by apply IH, dict_NoDup_set.
Qed.

Lemma items_by_id_NoDup (cands : list Item) :
  NoDup (PyDict.keys (items_by_id_of cands)).
Proof. apply items_by_id_fold_NoDup. constructor. Qed.

Lemma items_by_id_get (k : str) (cands : list Item) :
  PyDict.get k (items_by_id_of cands) = last (filter (λ c, item_id c = k) cands).
Proof.
  unfold items_by_id_of. rewrite items_by_id_fold_get. by destruct (last _).
Qed.

Lemma items_by_id_entry (k : str) (it : Item) (cands : list Item) :
  (k, it) ∈ items_by_id_of cands →
  item_id it = k ∧ last (filter (λ c, item_id c = item_id it) cands) = Some it.
Proof.
  intros Hin. apply dict_get_elem_of in Hin; [|apply items_by_id_NoDup].
  rewrite items_by_id_get in Hin.
  assert (item_id it = k) as Hk.
  { apply last_Some_elem_of, list_elem_of_filter in Hin. tauto. }
  by rewrite Hk.
Qed.

Lemma items_by_id_values (cands : list Item) :
  item_id <$> PyDict.values (items_by_id_of cands) = PyDict.keys (items_by_id_of cands).
Proof.
  unfold PyDict.values, PyDict.keys.
  assert (∀ p, p ∈ items_by_id_of cands → item_id p.2 = p.1) as H.
  { intros [k it] Hin. by apply items_by_id_entry in Hin as [? _]. }
  induction (items_by_id_of cands) as [|p d IH]; simpl; [done|].
  rewrite H by apply list_elem_of_here.
  f_equal. apply IH. intros q Hq. apply H. by apply list_elem_of_further.
Qed.

(** What is kept of a page: no id twice, and for each id its last candidate. *)
Lemma items_by_id_values_spec (cands : list Item) :
  NoDup (item_id <$> PyDict.values (items_by_id_of cands))
  ∧ ∀ it, it ∈ PyDict.values (items_by_id_of cands) →
          last (filter (λ c, item_id c = item_id it) cands) = Some it.
Proof.
  split.
  - rewrite items_by_id_values. apply items_by_id_NoDup.
  - intros it Hin. apply list_elem_of_fmap in Hin as ([k it'] & -> & Hin).
    by apply items_by_id_entry in Hin as [_ ?].
Qed.

Lemma items_by_id_values_subseteq (cands : list Item) (it : Item) :
  it ∈ PyDict.values (items_by_id_of cands) → it ∈ cands.
Proof.
  intros Hin. apply items_by_id_values_spec in Hin.
  apply last_Some_elem_of, list_elem_of_filter in Hin. tauto.
Qed.

(** The dictionary is empty, which is what sends the tabular parser
    into its second pass, only when there was no candidate. *)
Lemma items_by_id_nil (cands : list Item) :
  PyDict.values (items_by_id_of cands) = [] → cands = [].
Proof.
  intros H. destruct cands as [|c cands _] using rev_ind; [done|].
  assert (PyDict.get (item_id c) (items_by_id_of (cands ++ [c])) = Some c) as Hg.
  { rewrite items_by_id_get, filter_app, filter_cons, filter_nil.
    rewrite decide_True by done. apply last_snoc. }
  unfold PyDict.values in H. apply fmap_nil_inv in H. by rewrite H in Hg.
Qed.

(** ** The order of strings *)

Lemma str_lt_irrefl (a : str) : str_lt a a = false.
Proof.
  induction a as [|x a IH]; simpl; [done|].
  rewrite N.ltb_irrefl, N.eqb_refl, IH. done.
Qed.

Lemma str_lt_trans (a b c : str) :
  str_lt a b = true → str_lt b c = true → str_lt a c = true.
Proof.
  revert b c. induction a as [|x a IH]; intros [|y b] [|z c]; simpl; try done.
  rewrite !orb_true_iff, !andb_true_iff, !N.ltb_lt, !N.eqb_eq.
  intros [Hxy|[-> Hab]] [Hyz|[-> Hbc]].
  - left. lia.
  - by left.
  - by left.
  - right. split; [done|]. by apply (IH b).
Qed.

Lemma str_lt_total (a b : str) : str_lt a b = false → a ≠ b → str_lt b a = true.
Proof.
  revert b. induction a as [|x a IH]; intros [|y b]; simpl; try done.
  rewrite orb_false_iff, andb_false_iff, orb_true_iff, andb_true_iff.
  rewrite !N.ltb_ge, !N.ltb_lt, !N.eqb_neq, !N.eqb_eq.
  intros [Hxy Hab] Hne.
  destruct (decide (x = y)) as [->|Hxy'].
  - right. split; [done|]. apply IH; [by destruct Hab|]. congruence.
  - left. lia.
Qed.

Lemma str_lt_asym (a b : str) : str_lt a b = true → str_lt b a = false.
Proof.
  intros Hab. destruct (str_lt b a) eqn:Hba; [|done].
  by rewrite <-(str_lt_irrefl a), (str_lt_trans a b a).
Qed.

Lemma str_lt_negtrans (x y z : str) :
  str_lt y x = false → str_lt z y = false → str_lt z x = false.
Proof.
  intros Hyx Hzy. destruct (str_lt z x) eqn:Hzx; [|done].
  destruct (decide (y = x)) as [->|Hne]; [congruence|].
  apply str_lt_total in Hyx; [|done].
  by rewrite (str_lt_trans z x y) in Hzy.
Qed.

(** ** Keys of ids *)

Lemma key_lt_same_kind (a b : sort_key_t) :
  Variant.is_int_key a = Variant.is_int_key b →
  key_lt a b = Some (default false (key_lt a b)).
Proof. by destruct a, b. Qed.

Lemma id_key_int (n : N) (id : str) (z : Z) :
  isdigit id = true → int_of_str n id = Some z → id_key n id = inr (KInt z).
Proof. unfold id_key. by intros -> ->. Qed.

(** ** [sorted] by [int(it.item_id)] *)

Lemma int_key_inr (w : World) (it : Item) (z : Z) :
  int_key w it = inr z → int_of_str (int_max_str_digits w) (item_id it) = Some z.
Proof. unfold int_key. destruct (int_of_str _ _); [by intros [= ->]|done]. Qed.

Lemma sorted_by_int_perm (w : World) (reverse : bool) (l out : list Item) :
  sorted_by_int w reverse l = inr out → out ≡ₚ l.
Proof.
  unfold sorted_by_int. destruct (with_keys _ l) as [e|kl] eqn:Hk; [done|].
  intros [= <-]. apply with_keys_inr in Hk as [<- _].
  by rewrite stable_sort_perm.
Qed.

Lemma sorted_by_int_defined (w : World) (reverse : bool) (l out : list Item) :
  sorted_by_int w reverse l = inr out →
  Forall (λ it, ∃ z, int_key w it = inr z) l.
Proof.
  unfold sorted_by_int. destruct (with_keys _ l) as [e|kl] eqn:Hk; [done|].
  intros _. by eapply with_keys_defined.
Qed.

Lemma sorted_by_int_total (w : World) (reverse : bool) (l : list Item) :
  Forall (λ it, ∃ z, int_key w it = inr z) l →
  ∃ out, sorted_by_int w reverse l = inr out.
Proof.
  intros H. apply with_keys_total in H as [kl Hk].
  unfold sorted_by_int. rewrite Hk. by eexists.
Qed.

Lemma sorted_by_int_sorted (w : World) (reverse : bool) (l out : list Item) :
  sorted_by_int w reverse l = inr out →
  Forall (λ it, isdigit (item_id it) = true) l →
  if reverse then descending w out else ascending w out.
Proof.
  unfold sorted_by_int. destruct (with_keys _ l) as [e|kl] eqn:Hk; [done|].
  intros [= <-] Hd. apply with_keys_inr in Hk as [<- Hk].
  set (P := λ p : Z * Item, int_key w p.2 = inr p.1 ∧ isdigit (item_id p.2) = true).
  assert (Forall P kl) as HP.
  { apply Forall_fmap in Hd. rewrite Forall_forall in Hk, Hd.
    apply Forall_forall. intros p Hp. split; [by apply Hk|by apply Hd]. }
  assert (∀ p : Z * Item, P p →
            id_key (int_max_str_digits w) (item_id p.2) = inr (KInt p.1)) as Hkey.
  { intros p [Hp1 Hp2]. apply id_key_int; [done|]. by apply int_key_inr. }
  destruct reverse; unfold descending, ascending.
  - apply (StronglySorted_fmap _
             (λ p q : Z * Item, id_le (int_max_str_digits w) (item_id q.2) (item_id p.2)));
      [done|].
    apply (stable_sort_sorted _ P); [intros; lia..| |done].
    intros p q Hp Hq Hlt. exists (KInt q.1), (KInt p.1).
    rewrite !Hkey by done. simpl. by rewrite Hlt.
  - apply (StronglySorted_fmap _
             (λ p q : Z * Item, id_le (int_max_str_digits w) (item_id p.2) (item_id q.2)));
      [done|].
    apply (stable_sort_sorted _ P); [intros; lia..| |done].
    intros p q Hp Hq Hlt. exists (KInt p.1), (KInt q.1).
    rewrite !Hkey by done. simpl. by rewrite Hlt.
Qed.

(** ** [sorted] by the key of the variant *)

Lemma key_ltb_asym (a b : sort_key_t) : key_ltb a b = true → key_ltb b a = false.
Proof.
  destruct a as [x|x], b as [y|y]; unfold key_ltb; simpl; try done.
  - intros. lia.
  - apply str_lt_asym.
Qed.

Lemma key_ltb_negtrans (k : bool) (x y z : sort_key_t) :
  Variant.is_int_key x = k → Variant.is_int_key y = k → Variant.is_int_key z = k →
  key_ltb y x = false → key_ltb z y = false → key_ltb z x = false.
Proof.
  destruct x as [x|x], y as [y|y], z as [z|z]; unfold key_ltb; simpl;
    try done; try (by intros <-).
  - intros. lia.
  - intros _ _ _. apply str_lt_negtrans.
Qed.

Lemma forallb_Forall {A} (f : A → bool) (l : list A) :
  forallb f l = true ↔ Forall (λ x, f x = true) l.
Proof.
  induction l as [|x l IH]; simpl; [by split; [constructor|]|].
  by rewrite andb_true_iff, Forall_cons, IH.
Qed.

Lemma uniform_sublist (w : World) (l l' : list Item) :
  l' `sublist_of` l → uniform w l → uniform w l'.
Proof. intros Hs [k Hk]. exists k. by eapply sublist_Forall. Qed.

Lemma uniform_perm (w : World) (l l' : list Item) :
  l' ≡ₚ l → uniform w l → uniform w l'.
Proof. intros Hp [k Hk]. exists k. by rewrite Hp. Qed.

Lemma same_kind_Forall (ks : list sort_key_t) :
  Variant.same_kind ks = true → ∃ k : bool, Forall (λ key, Variant.is_int_key key = k) ks.
Proof.
  unfold Variant.same_kind. intros [H|H]%orb_true_iff; apply forallb_Forall in H.
  - by exists true.
  - exists false. eapply Forall_impl; [exact H|].
    intros key Hk. by apply negb_true_iff in Hk.
Qed.

Lemma Forall_same_kind (k : bool) (ks : list sort_key_t) :
  Forall (λ key, Variant.is_int_key key = k) ks → Variant.same_kind ks = true.
Proof.
  intros H. unfold Variant.same_kind. apply orb_true_iff.
  destruct k; [left|right]; apply forallb_Forall; [done|].
  eapply Forall_impl; [exact H|]. by intros key ->.
Qed.

Lemma short_same_kind (ks : list sort_key_t) :
  (length ks < 2)%nat → Variant.same_kind ks = true.
Proof.
  destruct ks as [|k [|k' ks]]; simpl; intros; [done| |lia].
  unfold Variant.same_kind. simpl. by destruct (Variant.is_int_key k).
Qed.

Lemma with_keys_uniform (w : World) (l : list Item) (kl : list (sort_key_t * Item)) :
  with_keys (Variant.sort_key w) l = inr kl →
  Variant.same_kind kl.*1 = true ↔ uniform w l.
Proof.
  intros Hk. apply with_keys_inr in Hk as [<- Hk]. split.
  - intros [k Hs]%same_kind_Forall. exists k.
    apply Forall_fmap in Hs. apply Forall_fmap.
    rewrite Forall_forall in Hk, Hs. apply Forall_forall. intros p Hp.
    exists p.1. split; [by apply Hk|by apply Hs].
  - intros [k Hu]. apply (Forall_same_kind k).
    apply Forall_fmap.
    rewrite Forall_forall in Hk. rewrite Forall_forall in Hu.
    apply Forall_forall. intros p Hp.
    destruct (Hu p.2 (list_elem_of_fmap_2 snd _ _ Hp)) as (key & Hkey & Hkind). simpl in Hkey.
    rewrite (Hk p Hp) in Hkey. injection Hkey as <-. exact Hkind.
Qed.

Lemma sorted_by_key_uniform (w : World) (reverse : bool) (l out : list Item) :
  Variant.sorted_by_key w reverse l = inr out → uniform w l.
Proof.
  unfold Variant.sorted_by_key.
  destruct (with_keys _ l) as [e|kl] eqn:Hk; [done|].
  destruct (_ && _) eqn:Hc; [done|]. intros _.
  apply (with_keys_uniform _ _ _ Hk).
  apply andb_false_iff in Hc as [Hc|Hc].
  - apply short_same_kind. rewrite length_fmap. by apply Nat.leb_gt in Hc.
  - by apply negb_false_iff in Hc.
Qed.

Lemma sorted_by_key_total (w : World) (reverse : bool) (l : list Item) :
  uniform w l → ∃ out, Variant.sorted_by_key w reverse l = inr out.
Proof.
  intros Hu. unfold Variant.sorted_by_key.
  destruct (with_keys_total (Variant.sort_key w) l) as [kl Hk].
  { destruct Hu as [k Hu]. eapply Forall_impl; [exact Hu|].
    intros it (key & Hkey & _). by exists key. }
  rewrite Hk. apply (with_keys_uniform _ _ _ Hk) in Hu. rewrite Hu.
  rewrite andb_false_r. by eexists.
Qed.

Lemma sorted_by_key_perm (w : World) (reverse : bool) (l out : list Item) :
  Variant.sorted_by_key w reverse l = inr out → out ≡ₚ l.
Proof.
  unfold Variant.sorted_by_key.
  destruct (with_keys _ l) as [e|kl] eqn:Hk; [done|].
  destruct (_ && _); [done|]. intros [= <-].
  apply with_keys_inr in Hk as [<- _]. by rewrite stable_sort_perm.
Qed.

Lemma sorted_by_key_sorted (w : World) (reverse : bool) (l out : list Item) :
  Variant.sorted_by_key w reverse l = inr out →
  if reverse then descending w out else ascending w out.
Proof.
  intros Hs. pose proof (sorted_by_key_uniform _ _ _ _ Hs) as Hu.
  revert Hs. unfold Variant.sorted_by_key.
  destruct (with_keys _ l) as [e|kl] eqn:Hk; [done|].
  destruct (_ && _); [done|]. intros [= <-].
  apply (with_keys_uniform _ _ _ Hk) in Hu. apply same_kind_Forall in Hu as [k Hu].
  apply with_keys_inr in Hk as [<- Hk].
  set (P := λ p : sort_key_t * Item,
              Variant.sort_key w p.2 = inr p.1 ∧ Variant.is_int_key p.1 = k).
  assert (Forall P kl) as HP.
  { apply Forall_fmap in Hu. rewrite Forall_forall in Hk, Hu.
    apply Forall_forall. intros p Hp. split; [by apply Hk|by apply Hu]. }
  destruct reverse; unfold descending, ascending.
  - apply (StronglySorted_fmap _
             (λ p q : sort_key_t * Item,
                id_le (int_max_str_digits w) (item_id q.2) (item_id p.2))); [done|].
    apply (stable_sort_sorted _ P); [| | |done].
    + intros x y _ _. apply key_ltb_asym.
    + intros x y z [_ Hx] [_ Hy] [_ Hz] H1 H2.
      by apply (key_ltb_negtrans k z.1 y.1 x.1).
    + intros p q [Hp Hpk] [Hq Hqk] Hlt. exists q.1, p.1.
      split_and!; [done..|].
      rewrite key_lt_same_kind by congruence. by f_equal.
  - apply (StronglySorted_fmap _
             (λ p q : sort_key_t * Item,
                id_le (int_max_str_digits w) (item_id p.2) (item_id q.2))); [done|].
    apply (stable_sort_sorted _ P); [| | |done].
    + intros x y _ _. apply key_ltb_asym.
    + intros x y z [_ Hx] [_ Hy] [_ Hz] H1 H2.
      by apply (key_ltb_negtrans k x.1 y.1 z.1).
    + intros p q [Hp Hpk] [Hq Hqk] Hlt. exists p.1, q.1.
      split_and!; [done..|].
      rewrite key_lt_same_kind by congruence. by f_equal.
Qed.

(** ** The regular expressions *)

Lemma span_fst_forallb (p : char → bool) (s : str) : forallb p (span p s).1 = true.
Proof.
  induction s as [|c s IH]; simpl; [done|].
  destruct (p c) eqn:Hc; [|done].
  destruct (span p s) as [r t]. simpl in *. by rewrite Hc.
Qed.

Lemma span_app (p : char → bool) (s : str) : (span p s).1 ++ (span p s).2 = s.
Proof.
  induction s as [|c s IH]; simpl; [done|].
  destruct (p c); [|done]. destruct (span p s) as [r t]. simpl in *. by f_equal.
Qed.

Lemma span_snd_head (p : char → bool) (s : str) (c : char) (t : str) :
  (span p s).2 = c :: t → p c = false.
Proof.
  induction s as [|x s IH]; simpl; [done|].
  destruct (p x) eqn:Hx.
  - destruct (span p s) as [r u]. simpl in *. exact IH.
  - simpl. by intros [= <- _].
Qed.

Lemma match_here_group (cls : list (char → bool)) (body : char → bool) (s g : str) :
  match_here cls body s = Some g → g ≠ [] ∧ forallb body g = true.
Proof.
  unfold match_here. destruct (match_classes cls s) as [rest|]; [|done].
  pose proof (span_fst_forallb body rest) as Hf.
  destruct (span body rest).1 as [|c run]; [done|].
  by intros [= <-].
Qed.

(** The group of a match is not empty and lies in the class of the body. *)
Lemma re_search_group (cls : list (char → bool)) (body : char → bool) (s g : str) :
  re_search cls body s = Some g → g ≠ [] ∧ forallb body g = true.
Proof.
  induction s as [|c s IH]; simpl.
  - destruct (match_here cls body []) eqn:Hm; [|done].
    intros [= <-]. by eapply match_here_group.
  - destruct (match_here cls body (c :: s)) eqn:Hm; [|exact IH].
    intros [= <-]. by eapply match_here_group.
Qed.

Lemma isdecimal_isdigit (id : str) :
  id ≠ [] → forallb isdecimal_char id = true → isdigit id = true.
Proof.
  intros Hne Hd. unfold isdigit. destruct id as [|c id]; [done|].
  apply forallb_Forall. apply forallb_Forall in Hd.
  eapply Forall_impl; [exact Hd|]. intros x Hx. unfold isdigit_char. by rewrite Hx.
Qed.

Lemma isdigit_nonempty (id : str) : isdigit id = true → id ≠ [].
Proof. by destruct id. Qed.

(** ** The candidates of the strategies *)

Lemma row_item_Some (w : World) (target_url final_url : str) (row : node) (it : Item) :
  Primary.row_item w target_url final_url row = Some it →
  ∃ td0 tds a,
    find_all td row = td0 :: tds ∧ find a_tag row = Some a
    ∧ item_id it = get_text_strip td0 ∧ isdigit (item_id it) = true
    ∧ title it = get_text_strip a ∧ title it ≠ []
    ∧ url it = Primary.row_url w target_url final_url a.
Proof.
  unfold Primary.row_item.
  destruct (find_all td row) as [|td0 tds]; [done|].
  destruct (isdigit (get_text_strip td0)) eqn:Hd; [|done]. simpl.
  destruct (find a_tag row) as [a|]; [|done].
  case_bool_decide as Ht; [done|].
  intros [= <-]. by exists td0, tds, a.
Qed.

Lemma link_row_item_Some (w : World) (target_url final_url : str)
    (p : node * option node) (it : Item) :
  Primary.link_row_item w target_url final_url p = Some it →
  isdigit (item_id it) = true ∧ title it ≠ [].
Proof.
  unfold Primary.link_row_item. case_bool_decide as Ht; [done|].
  destruct p.2 as [row|]; [|done].
  destruct (find_all td row) as [|td0 tds]; [done|].
  destruct (isdigit (get_text_strip td0)) eqn:Hd; [|done]. simpl.
  by intros [= <-].
Qed.

Lemma link_item_Some (w : World) (final_url : str) (cls : list (char → bool))
    (a : node) (it : Item) :
  Primary.link_item w final_url cls a = Some it →
  item_id it ≠ [] ∧ forallb isdecimal_char (item_id it) = true
  ∧ title it ≠ [] ∧ (3 ≤ length (title it))%nat.
Proof.
  unfold Primary.link_item.
  destruct (bool_decide _ || _) eqn:Ht; [done|].
  apply orb_false_iff in Ht as [Ht Hl].
  apply bool_decide_eq_false in Ht. apply Nat.ltb_ge in Hl.
  destruct (re_search _ _ _) as [id|] eqn:Hre; [|done].
  intros [= <-]. simpl. apply re_search_group in Hre as [? ?]. done.
Qed.

(** Every candidate of the primary file has a title and an id that [isdigit]. *)
Lemma candidates_ok (w : World) (ttype target_url final_url : str) (soup : node) :
  Forall (λ it, isdigit (item_id it) = true ∧ title it ≠ [])
    (Primary.candidates w ttype target_url final_url soup).
Proof.
  assert (∀ cls, Forall (λ it, isdigit (item_id it) = true ∧ title it ≠ [])
                   (Primary.link_candidates w final_url cls soup)) as Hlinks.
  { intros cls. apply Forall_forall. intros it Hin.
    apply list_elem_of_omap in Hin as (a & _ & Ha).
    apply link_item_Some in Ha as (? & ? & ? & _).
    split; [by apply isdecimal_isdigit|done]. }
  unfold Primary.candidates. repeat case_bool_decide; try apply Hlinks.
  unfold Primary.list_number_id_candidates.
  destruct (Primary.rows_pass w target_url final_url soup) as [|r rows] eqn:Hrows.
  - apply Forall_forall. intros it Hin.
    apply list_elem_of_omap in Hin as (p & _ & Hp).
    by apply link_row_item_Some in Hp.
  - rewrite <-Hrows. apply Forall_forall. intros it Hin.
    apply list_elem_of_omap in Hin as (row & _ & Hrow).
    apply row_item_Some in Hrow as (? & ? & ? & ? & ? & ? & ? & ? & ? & ?). done.
Qed.

Lemma key_candidates_ok (w : World) (base key_pattern : str) (soup : node) :
  Forall (λ it, title it ≠ []) (Variant.key_candidates w base key_pattern soup).
Proof.
  apply Forall_forall. intros it Hin.
  apply list_elem_of_omap in Hin as (a & _ & Ha).
  revert Ha. unfold Variant.key_item.
  destruct (re_search _ _ _); [|done].
  case_bool_decide; [done|]. by intros [= <-].
Qed.

(** ** The parsers as functions of the page *)

Lemma select_parser_eq (w : World) (ttype url : str) (n : Z) (m : mem) :
  Primary.select_parser w ttype url n m
  = (Primary.extracted w ttype url n, Primary.fetched ttype url m).
Proof.
  unfold Primary.select_parser, Primary.extracted, Primary.fetched,
    Primary.supported, Primary.candidates.
  unfold Primary.parse_html_list_number_id, Primary.parse_html_link_with_key,
    Primary.parse_html_link_with_path_number, Primary.parse_html_link_with_num_param.
  unfold bind, fetch_html, bind, emit, lift, raise.
  repeat (case_bool_decide; simpl; [by destruct (http_get w url) as [e|[f soup]]|]).
  done.
Qed.

Lemma parse_html_key_list_eq (w : World) (url key_pattern : str) (n : Z) (m : mem) :
  Variant.parse_html_key_list w url key_pattern n m
  = (Variant.extracted w url key_pattern n, log (EvGet url) m).
Proof.
  unfold Variant.parse_html_key_list, Variant.extracted, Variant.candidates.
  unfold bind, fetch_html, bind, emit, lift.
  by destruct (http_get w url) as [e|[f soup]].
Qed.

Lemma extracted_inr (w : World) (ttype url : str) (n : Z) (items : list Item) :
  Primary.extracted w ttype url n = inr items →
  ∃ final_url soup full,
    Primary.supported ttype = true ∧ http_get w url = inr (final_url, soup)
    ∧ sorted_by_int w true
        (PyDict.values (items_by_id_of (Primary.candidates w ttype url final_url soup)))
      = inr full
    ∧ items = slice_to n full.
Proof.
  unfold Primary.extracted. destruct (Primary.supported ttype); [|done].
  destruct (http_get w url) as [e|[final_url soup]]; [done|].
  unfold Primary.newest_first. destruct (sorted_by_int _ _ _) as [e|full] eqn:Hs; [done|].
  intros [= <-]. by exists final_url, soup, full.
Qed.

Lemma variant_extracted_inr (w : World) (url key_pattern : str) (n : Z)
    (items : list Item) :
  Variant.extracted w url key_pattern n = inr items →
  ∃ final_url soup full,
    http_get w url = inr (final_url, soup)
    ∧ Variant.sorted_by_key w true
        (PyDict.values (items_by_id_of (Variant.candidates w url key_pattern soup)))
      = inr full
    ∧ items = slice_to n full.
Proof.
  unfold Variant.extracted.
  destruct (http_get w url) as [e|[final_url soup]]; [done|].
  unfold Variant.newest_first.
  destruct (Variant.sorted_by_key _ _ _) as [e|full] eqn:Hs; [done|].
  intros [= <-]. by exists final_url, soup, full.
Qed.

(** What holds of a list cut out of the sorted values of a dictionary. *)
Lemma kept_of_page (cands full items : list Item) (n : Z) (P : Item → Prop) :
  full ≡ₚ PyDict.values (items_by_id_of cands) →
  items = slice_to n full →
  Forall P cands →
  NoDup (item_id <$> items) ∧ Forall P items
  ∧ ∀ it, it ∈ items → last (filter (λ c, item_id c = item_id it) cands) = Some it.
Proof.
  intros Hp -> HP.
  destruct (items_by_id_values_spec cands) as [Hnd Hlast].
  pose proof (slice_to_sublist n full) as Hsub.
  split_and!.
  - apply (sublist_NoDup _ (item_id <$> full)); [by rewrite Hp|].
    by apply fmap_sublist.
  - apply Forall_forall. intros it Hin. rewrite Forall_forall in HP. apply HP.
    apply items_by_id_values_subseteq. rewrite <-Hp. by eapply elem_of_sublist.
  - intros it Hin. apply Hlast. rewrite <-Hp. by eapply elem_of_sublist.
Qed.

(** ** The memory *)

Ltac unfold_monad :=
  unfold bind, ret, raise, lift, try_except, print, sleep, emit, read_set, set_add,
    state_set, state_get_or_new, new_set, alloc, log in *; simpl in *.

Lemma deref_app (r : nat) (m m' : mem) :
  heap m' = heap m ++ [∅] → deref r m' = deref r m.
Proof.
  unfold deref. intros ->. destruct (decide (r < length (heap m))%nat) as [Hlt|Hge].
  - by rewrite lookup_app_l.
  - rewrite lookup_app_r by lia. rewrite (lookup_ge_None_2 (heap m)) by lia.
    by destruct (r - length (heap m))%nat as [|[|?]].
Qed.

Lemma known_heap_app (name : str) (m m' : mem) :
  state m' = state m → heap m' = heap m ++ [∅] → known name m' = known name m.
Proof.
  unfold known. intros -> Hh. destruct (PyDict.get name (state m)) as [r|]; [|done].
  simpl. f_equal. by apply deref_app.
Qed.

(** What one call of [telegram_send] does. *)
Lemma telegram_send_effect (w : World) (t : text) (m : mem) :
  ∃ r m' e,
    Primary.telegram_send w t m = (r, m')
    ∧ state m' = state m ∧ heap m' = heap m ∧ trace m' = trace m ++ [e]
    ∧ ((e = EvPrint (LSkipped t) ∧ r = inr tt)
       ∨ (e = EvPost t true ∧ r = inr tt)
       ∨ (e = EvPost t false ∧ ∃ x, r = inl x)).
Proof.
  unfold Primary.telegram_send. destruct (configured w); simpl.
  - destruct (telegram_post w (posts m) t) as [x|] eqn:Hp; unfold_monad.
    + eexists _, _, _. split; [done|]. split_and!; try done. right. right. eauto.
    + eexists _, _, _. split; [done|]. split_and!; try done. right. by left.
  - unfold_monad. eexists _, _, _. split; [done|]. split_and!; try done. by left.
Qed.

(** The loop that notifies, whatever its outcome: the state mapping
    and the other sets are left alone, the set [seen] only grows, and
    it holds the id of every item whose message went out. *)
Lemma notify_effect (w : World) (name : str) (seen : nat) (l : list Item) (m : mem) :
  (seen < length (heap m))%nat →
  ∃ r m' evs sent,
    Primary.notify w name seen l m = (r, m')
    ∧ state m' = state m ∧ length (heap m') = length (heap m)
    ∧ (∀ r', r' ≠ seen → deref r' m' = deref r' m)
    ∧ trace m' = trace m ++ evs
    ∧ deref seen m' = deref seen m ∪ list_to_set (item_id <$> sent)
    ∧ sent `prefix_of` l
    ∧ (r = inr tt → sent = l)
    ∧ (∀ e t, e ∈ evs → e = EvPost t true ∨ e = EvPrint (LSkipped t) →
              ∃ it, it ∈ sent ∧ t = NewItemText name (title it) (url it))
    ∧ Forall (λ e, is_save e = false) evs.
Proof.
  revert m. induction l as [|it l IH]; intros m Hseen.
  { exists (inr tt), m, [], []. simpl. unfold ret. split_and!; try done.
    - by rewrite app_nil_r.
    - by rewrite (right_id_L ∅ (∪)).
    - intros e t He. by apply elem_of_nil in He. }
  simpl.
  destruct (telegram_send_effect w (NewItemText name (title it) (url it)) m)
    as (r0 & m0 & e & Hsend & Hst0 & Hh0 & Htr0 & He).
  unfold bind at 1. rewrite Hsend.
  assert (r0 = inr tt ∨ ∃ x, r0 = inl x ∧ e = EvPost (NewItemText name (title it) (url it)) false)
    as [->|(x & -> & ->)] by (destruct He as [[_ ->]|[[_ ->]|[-> [x ->]]]]; eauto).
  2:{ exists (inl x), m0, [EvPost (NewItemText name (title it) (url it)) false], [].
      split_and!; try done.
      - by rewrite Hh0.
      - intros r' _. unfold deref. by rewrite Hh0.
      - simpl. unfold deref. by rewrite Hh0, (right_id_L ∅ (∪)).
      - apply prefix_nil.
      - intros e t He'. apply list_elem_of_singleton in He' as ->.
        by intros [?|?].
      - by repeat constructor. }
  assert (∀ t, e = EvPost t true ∨ e = EvPrint (LSkipped t) →
               t = NewItemText name (title it) (url it)) as Het.
  { destruct He as [[-> _]|[[-> _]|[-> [x [=]]]]]; intros t [[=]|[=]]; done. }
  unfold_monad.
  match goal with
  | |- context [Primary.notify _ _ _ _ ?mm] => set (m1 := mm)
  end.
  destruct (IH m1)
    as (r & m' & evs & sent & Hn & Hst & Hlen & Hoth & Htr & Hd & Hpre & Hok & Hev & Hns).
  { simpl. by rewrite length_insert, Hh0. }
  rewrite Hn.
  exists r, m', (e :: EvPrint (LSent name (item_id it) (title it)) :: EvSleep :: evs),
    (it :: sent).
  split; [done|]. split_and!.
  - by rewrite Hst, <-Hst0.
  - by rewrite Hlen; simpl; rewrite length_insert, Hh0.
  - intros r' Hr'. rewrite (Hoth r' Hr'). unfold deref. simpl.
    by rewrite list_lookup_insert_ne, Hh0 by done.
  - rewrite Htr. simpl. rewrite Htr0, <-!app_assoc. done.
  - rewrite Hd. unfold deref at 1. simpl.
    rewrite list_lookup_insert_eq by (by rewrite Hh0). simpl.
    unfold deref. rewrite Hh0. simpl.
    apply set_eq. intros x. rewrite !elem_of_union. tauto.
  - by apply prefix_cons.
  - intros Hr. by rewrite (Hok Hr).
  - intros e' t He' Ht. apply elem_of_cons in He' as [->|He'].
    { exists it. split; [apply list_elem_of_here|]. by apply Het. }
    apply elem_of_cons in He' as [->|He']; [by destruct Ht|].
    apply elem_of_cons in He' as [->|He']; [by destruct Ht|].
    destruct (Hev e' t He' Ht) as (it' & Hin & ->).
    exists it'. split; [by apply list_elem_of_further|done].
  - repeat constructor; [|done].
    by destruct He as [[-> _]|[[-> _]|[-> _]]].
Qed.

(** ** One run of a source, step by step *)

(** The set that [state.get(name, set())] hands out holds the known
    ids of the source, or nothing when the source has no entry yet. *)
Lemma seen_set_eq (name : str) (m m' : mem) :
  heap m' = heap m ++ [∅] →
  deref (default (length (heap m)) (PyDict.get name (state m))) m'
  = default ∅ (known name m).
Proof.
  intros Hh. rewrite (deref_app _ m m' Hh). unfold known.
  destruct (PyDict.get name (state m)) as [r|]; simpl; [done|].
  unfold deref. by rewrite lookup_ge_None_2.
Qed.

Lemma run_target_eq (w : World) (target : Target) (url : str) (m : mem) :
  t_url target = Some url →
  let name := default unknown (t_name target) in
  let ttype := default Primary.html_list_number_id (t_type target) in
  let latest_n := default 30%Z (t_latest_n target) in
  let m0 := Mem (state m) (heap m ++ [∅]) (trace m) (posts m) in
  let seen := default (length (heap m)) (PyDict.get name (state m)) in
  Primary.run_target w target m
  = match Primary.extracted w ttype url latest_n with
    | inl e => (inl e, Primary.fetched ttype url m0)
    | inr items =>
        let m1 := log (EvPrint (LFetched name (length items)
                                  ((λ it, (item_id it, title it)) <$> take 5 items)))
                    (Primary.fetched ttype url m0) in
        match items with
        | [] =>
            Primary.telegram_send w (ParseWarnText name url)
              (log (EvPrint (LText (ParseWarnText name url))) m1)
        | _ =>
            match Primary.new_items_of (default ∅ (known name m)) items with
            | [] => (inr tt, log (EvPrint (LNoNew name)) m1)
            | new_items =>
                match sorted_by_int w false new_items with
                | inl e => (inl e, m1)
                | inr l => (Primary.notify w name seen l ;; state_set name seen) m1
                end
            end
        end
    end.
Proof.
  intros Hurl. simpl. unfold Primary.run_target. rewrite Hurl.
  unfold bind at 1. unfold ret at 1.
  unfold bind at 1. unfold state_get_or_new, new_set, alloc, bind at 1. simpl.
  unfold bind at 1. rewrite select_parser_eq.
  destruct (Primary.extracted _ _ _ _) as [e|items]; [done|].
  unfold bind at 1. unfold print at 1, emit at 1.
  destruct items as [|it items]; [done|].
  unfold bind at 1. unfold read_set at 1.
  rewrite (seen_set_eq _ m) by (unfold Primary.fetched; by destruct (Primary.supported _)).
  destruct (Primary.new_items_of _ _) as [|n1 new_items] eqn:Hnew; [done|].
  unfold bind at 1. unfold lift at 1.
  by destruct (sorted_by_int w false (n1 :: new_items)).
Qed.

(** ** The tree *)

(** The traversal that carries the enclosing row meets the nodes that
    [descendants] lists, in the same order. *)
Lemma with_parent_row_nodes (n : node) (row : option node) :
  (with_parent_row row n).*1 = descendants n.
Proof.
  revert row. induction n as [s|tag attrs kids IH] using node_forall_ind; intros row.
  { done. }
  simpl. generalize (if bool_decide (tag = tr) then Some (Elem tag attrs kids) else row).
  intros row'. induction IH as [|k ks Hk _ IHks]; [done|].
  rewrite fmap_cons, fmap_app. simpl. by rewrite Hk, IHks.
Qed.

Lemma find_all_links_with_row_nodes (soup : node) :
  (find_all_links_with_row soup).*1 = find_all a_tag soup.
Proof.
  unfold find_all_links_with_row, find_all.
  rewrite <-(with_parent_row_nodes soup None).
  induction (with_parent_row None soup) as [|p l IH]; [done|].
  rewrite fmap_cons, !filter_cons.
  destruct (decide (is_tag a_tag p.1 = true)); [|exact IH].
  rewrite fmap_cons. by f_equal.
Qed.

(** ** [int] on decimal digits *)

Lemma apart_sound (zeros : list N) (ranges : list (N * N)) (z c : N) :
  apart zeros ranges = true → z ∈ zeros → z ≤ c < z + 10 →
  in_ranges ranges c = false.
Proof.
  unfold apart, in_ranges. intros Ha Hz Hc.
  apply forallb_Forall in Ha. rewrite Forall_forall in Ha.
  specialize (Ha z Hz). simpl in Ha. apply forallb_Forall in Ha.
  induction Ha as [|r rs Hr _ IH]; [done|]. simpl.
  rewrite IH, orb_false_r. apply andb_false_iff.
  apply orb_true_iff in Hr as [Hr|Hr]; [left|right].
  - apply N.ltb_lt in Hr. apply N.leb_gt. lia.
  - apply N.ltb_lt in Hr. apply N.leb_gt. lia.
Qed.

Lemma decimal_value_Some (c d : N) :
  decimal_value c = Some d → ∃ z, z ∈ decimal_zeros ∧ z ≤ c < z + 10.
Proof.
  unfold decimal_value.
  destruct (List.find _ decimal_zeros) as [z|] eqn:Hf; [|done]. intros _.
  apply find_some in Hf as [Hin Hz]. exists z. split; [by apply list_elem_of_In|].
  apply andb_true_iff in Hz as [H1 H2]. apply N.leb_le in H1. apply N.ltb_lt in H2. lia.
Qed.

Lemma decimal_not_blank (c : char) : isdecimal_char c = true → int_blank c = false.
Proof.
  unfold isdecimal_char. destruct (decimal_value c) as [d|] eqn:Hd; [|done]. intros _.
  apply decimal_value_Some in Hd as (z & Hz & Hc).
  assert (in_ranges blank_ranges c = false) as Hb.
  { by apply (apart_sound decimal_zeros blank_ranges z). }
  unfold blank_ranges in Hb. unfold in_ranges in Hb. simpl existsb in Hb.
  apply orb_false_iff in Hb as [H1 Hb]. apply orb_false_iff in Hb as [H2 Hb].
  unfold int_blank. destruct (c <? 128).
  - simpl in H1, H2. rewrite H1. simpl.
    apply andb_false_iff in H2 as [H2|H2]; apply N.eqb_neq.
    + apply N.leb_gt in H2. lia.
    + apply N.leb_gt in H2. lia.
  - exact Hb.
Qed.

Lemma decimal_not_mark (c : char) :
  isdecimal_char c = true → c ≠ 45 ∧ c ≠ 43 ∧ c ≠ underscore.
Proof. intros H. split_and!; intros ->; vm_compute in H; discriminate. Qed.

Lemma span_all (p : char → bool) (s : str) : forallb p s = true → span p s = (s, []).
Proof.
  induction s as [|c s IH]; simpl; [done|].
  intros [Hc Hs]%andb_true_iff. by rewrite Hc, IH.
Qed.

Lemma int_digits_decimal (s : str) (prev : bool) (acc : Z) (n : N) :
  forallb isdecimal_char s = true → s ≠ [] ∨ prev = true →
  ∃ v, int_digits prev acc n s = Some (v, n + N.of_nat (length s)).
Proof.
  revert prev acc n. induction s as [|c s IH]; intros prev acc n Hs Hne.
  { destruct Hne as [?| ->]; [done|]. simpl. exists acc. f_equal. f_equal. lia. }
  simpl in Hs. apply andb_true_iff in Hs as [Hc Hs]. simpl.
  destruct (decimal_not_mark c Hc) as (_ & _ & Hu).
  apply N.eqb_neq in Hu. rewrite Hu.
  unfold isdecimal_char in Hc. destruct (decimal_value c) as [d|]; [|done].
  destruct (IH true (10 * acc + Z.of_N d)%Z (n + 1) Hs (or_intror eq_refl)) as [v Hv].
  exists v. rewrite Hv. f_equal. f_equal. lia.
Qed.

(** [int] accepts every non-empty string of decimal digits that is
    not longer than the limit on the number of digits, if one is set. *)
Lemma int_of_str_decimal (max_str_digits : N) (s : str) :
  s ≠ [] → forallb isdecimal_char s = true →
  max_str_digits = 0 ∨ N.of_nat (length s) ≤ max_str_digits →
  ∃ z, int_of_str max_str_digits s = Some z.
Proof.
  intros Hne Hs Hmax. unfold int_of_str.
  destruct s as [|c s]; [done|].
  pose proof Hs as Hs'. simpl in Hs'. apply andb_true_iff in Hs' as [Hc _].
  simpl drop_while. rewrite (decimal_not_blank c Hc).
  destruct (decimal_not_mark c Hc) as (H45 & H43 & _).
  apply N.eqb_neq in H45, H43. rewrite H45, H43.
  rewrite (span_all _ (c :: s)).
  2:{ apply forallb_Forall. apply forallb_Forall in Hs.
      eapply Forall_impl; [exact Hs|]. intros x Hx. simpl. by rewrite Hx, orb_true_r. }
  simpl drop_while.
  destruct (int_digits_decimal (c :: s) false 0 0 Hs (or_introl Hne)) as [v Hv].
  rewrite Hv. rewrite N.add_0_l.
  destruct ((0 <? max_str_digits) && (max_str_digits <? N.of_nat (length (c :: s))))
    eqn:Hlim; [|by eexists].
  apply andb_true_iff in Hlim as [H0 H1].
  apply N.ltb_lt in H0, H1. lia.
Qed.

(** ** The scenarios of the specification *)

(** Two rows, 10 and 9, nothing known: both are extracted, newest
    first, and the diff hands them out oldest first. *)
Example scenario_two_rows :
  let w := Samples.world Samples.page_two Samples.delivered in
  (Primary.select_parser w Primary.html_list_number_id Samples.listing_url 30 boot).1
  = inr [Samples.item_10; Samples.item_9]
  ∧ sorted_by_int w false (Primary.new_items_of ∅ [Samples.item_10; Samples.item_9])
    = inr [Samples.item_9; Samples.item_10].
Proof. vm_compute. by split. Qed.

(** The same with the id 10 known: only item 9 is new. *)
Example scenario_one_known :
  Primary.new_items_of {[ lit "10" ]} [Samples.item_10; Samples.item_9] = [Samples.item_9].
Proof. vm_compute. reflexivity. Qed.

(** A link to [view.asp?Key=47] under the key pattern of the variant:
    the id is 47. *)
Example scenario_key_pattern :
  let w := Samples.world Samples.page_keys Samples.delivered in
  (Variant.parse_html_key_list w Samples.listing_url Variant.default_key_pattern 30 boot).1
  = inr [Samples.item_47; Samples.item_5].
Proof. vm_compute. reflexivity. Qed.

(** * The properties of the specification *)

(** ** Extraction *)

(** C8.  Whatever the page and the strategy, the list a parser returns
    holds no item with an empty title and no two items with one id,
    and every item in it is the last of the candidates of the page
    that carry its id.  The first half speaks of the four parsers of
    [check_pages.py], the second of [parse_html_key_list] of the variant. *)
Theorem extraction_unique_ids_nonempty_titles :
  (∀ (w : World) (ttype url : str) (latest_n : Z) (m m' : mem) (items : list Item),
     Primary.select_parser w ttype url latest_n m = (inr items, m') →
     NoDup (item_id <$> items)
     ∧ Forall (λ it, title it ≠ []) items
     ∧ ∃ final_url soup,
         http_get w url = inr (final_url, soup)
         ∧ ∀ it, it ∈ items →
             last (filter (λ c, item_id c = item_id it)
                     (Primary.candidates w ttype url final_url soup)) = Some it)
  ∧ (∀ (w : World) (url key_pattern : str) (latest_n : Z) (m m' : mem)
       (items : list Item),
       Variant.parse_html_key_list w url key_pattern latest_n m = (inr items, m') →
       NoDup (item_id <$> items)
       ∧ Forall (λ it, title it ≠ []) items
       ∧ ∃ final_url soup,
           http_get w url = inr (final_url, soup)
           ∧ ∀ it, it ∈ items →
               last (filter (λ c, item_id c = item_id it)
                       (Variant.candidates w url key_pattern soup)) = Some it).
Proof.
  split.
  - intros w ttype url n m m' items Hrun.
    rewrite select_parser_eq in Hrun. injection Hrun as Hex _.
    apply extracted_inr in Hex as (final_url & soup & full & _ & Hget & Hsort & Hitems).
    apply sorted_by_int_perm in Hsort.
    destruct (kept_of_page _ _ _ _ (λ it, title it ≠ []) Hsort Hitems) as (Hnd & Ht & Hlast).
    { eapply Forall_impl; [apply candidates_ok|]. by intros it [_ ?]. }
    split_and!; [done..|]. by exists final_url, soup.
  - intros w url key_pattern n m m' items Hrun.
    rewrite parse_html_key_list_eq in Hrun. injection Hrun as Hex _.
    apply variant_extracted_inr in Hex as (final_url & soup & full & Hget & Hsort & Hitems).
    apply sorted_by_key_perm in Hsort.
    destruct (kept_of_page _ _ _ _ (λ it, title it ≠ []) Hsort Hitems) as (Hnd & Ht & Hlast).
    { apply key_candidates_ok. }
    split_and!; [done..|]. by exists final_url, soup.
Qed.

(** On the listing that shows the number 9 twice, the later row stands. *)
Lemma extraction_unique_ids_witness :
  NoDup (item_id <$> [Samples.item_10; Samples.item_9_again; Samples.item_8]).
Proof.
  apply (proj1 extraction_unique_ids_nonempty_titles
           (Samples.world Samples.page_twice Samples.delivered)
           Primary.html_list_number_id Samples.listing_url 30%Z boot
           (log (EvGet Samples.listing_url) boot)).
  vm_compute. reflexivity.
Defined.

(** C9.  For every page, every strategy and every limit of the
    domain of the specification ([latest_n] is a positive integer; the
    statement takes in the limit 0 as well), the list a parser returns
    has at most [latest_n] items; it is the front of the list of all
    items of the page in descending order of the key of their ids,
    and so descending itself. *)
Theorem extraction_capped_newest_first :
  (∀ (w : World) (ttype url : str) (latest_n : Z) (m m' : mem) (items : list Item),
     (0 ≤ latest_n)%Z →
     Primary.select_parser w ttype url latest_n m = (inr items, m') →
     (Z.of_nat (length items) ≤ latest_n)%Z
     ∧ descending w items
     ∧ ∃ final_url soup full,
         http_get w url = inr (final_url, soup)
         ∧ full ≡ₚ PyDict.values
                     (items_by_id_of (Primary.candidates w ttype url final_url soup))
         ∧ descending w full
         ∧ items = take (Z.to_nat latest_n) full)
  ∧ (∀ (w : World) (url key_pattern : str) (latest_n : Z) (m m' : mem)
       (items : list Item),
       (0 ≤ latest_n)%Z →
       Variant.parse_html_key_list w url key_pattern latest_n m = (inr items, m') →
       (Z.of_nat (length items) ≤ latest_n)%Z
       ∧ descending w items
       ∧ ∃ final_url soup full,
           http_get w url = inr (final_url, soup)
           ∧ full ≡ₚ PyDict.values
                       (items_by_id_of (Variant.candidates w url key_pattern soup))
           ∧ descending w full
           ∧ items = take (Z.to_nat latest_n) full).
Proof.
  split.
  - intros w ttype url n m m' items Hn Hrun.
    rewrite select_parser_eq in Hrun. injection Hrun as Hex _.
    apply extracted_inr in Hex as (final_url & soup & full & _ & Hget & Hsort & ->).
    assert (descending w full) as Hdesc.
    { apply (sorted_by_int_sorted w true _ _ Hsort).
      apply Forall_forall. intros it Hin.
      apply items_by_id_values_subseteq in Hin.
      pose proof (candidates_ok w ttype url final_url soup) as Hok.
      rewrite Forall_forall in Hok. by apply Hok. }
    split_and!.
    + by apply slice_to_length.
    + eapply sublist_StronglySorted; [apply slice_to_sublist|done].
    + exists final_url, soup, full. split_and!; try done.
      * by apply sorted_by_int_perm in Hsort.
      * by apply slice_to_take.
  - intros w url key_pattern n m m' items Hn Hrun.
    rewrite parse_html_key_list_eq in Hrun. injection Hrun as Hex _.
    apply variant_extracted_inr in Hex as (final_url & soup & full & Hget & Hsort & ->).
    pose proof (sorted_by_key_sorted w true _ _ Hsort) as Hdesc.
    split_and!.
    + by apply slice_to_length.
    + eapply sublist_StronglySorted; [apply slice_to_sublist|done].
    + exists final_url, soup, full. split_and!; try done.
      * by apply sorted_by_key_perm in Hsort.
      * by apply slice_to_take.
Qed.

(** With a limit of two, the two newest of three notices are returned. *)
Lemma extraction_capped_witness :
  (Z.of_nat (length [Samples.item_10; Samples.item_9_again]) ≤ 2)%Z.
Proof.
  apply (proj1 extraction_capped_newest_first
           (Samples.world Samples.page_twice Samples.delivered)
           Primary.html_list_number_id Samples.listing_url 2%Z boot
           (log (EvGet Samples.listing_url) boot)).
  - lia.
  - vm_compute. reflexivity.
Defined.

(** ** The diff *)

(** C3.  For the list a parser returned and any set of known ids,
    the diff of [run_target] does not raise; what it yields is made of
    exactly the items whose id is not known, each as often as the
    parser returned it, in ascending order of the key of their ids
    (the number for an id that [isdigit], the id itself otherwise). *)
Theorem diff_returns_unseen_oldest_first :
  (∀ (w : World) (ttype url : str) (latest_n : Z) (m m' : mem) (items : list Item)
     (seen : gset str),
     Primary.select_parser w ttype url latest_n m = (inr items, m') →
     ∃ out,
       sorted_by_int w false (Primary.new_items_of seen items) = inr out
       ∧ out ≡ₚ filter (λ it, item_id it ∉ seen) items
       ∧ (∀ it, it ∈ out ↔ it ∈ items ∧ item_id it ∉ seen)
       ∧ ascending w out)
  ∧ (∀ (w : World) (url key_pattern : str) (latest_n : Z) (m m' : mem)
       (items : list Item) (seen : gset str),
       Variant.parse_html_key_list w url key_pattern latest_n m = (inr items, m') →
       ∃ out,
         Variant.sorted_by_key w false (Variant.new_items_of seen items) = inr out
         ∧ out ≡ₚ filter (λ it, item_id it ∉ seen) items
         ∧ (∀ it, it ∈ out ↔ it ∈ items ∧ item_id it ∉ seen)
         ∧ ascending w out).
Proof.
  split.
  - intros w ttype url n m m' items seen Hrun.
    rewrite select_parser_eq in Hrun. injection Hrun as Hex _.
    apply extracted_inr in Hex as (final_url & soup & full & _ & Hget & Hsort & ->).
    pose proof (sorted_by_int_perm _ _ _ _ Hsort) as Hperm.
    assert (Primary.new_items_of seen (slice_to n full) `sublist_of` full) as Hsub.
    { etrans; [apply sublist_filter|apply slice_to_sublist]. }
    assert (Forall (λ it, ∃ z, int_key w it = inr z)
              (Primary.new_items_of seen (slice_to n full))) as Hint.
    { apply (sublist_Forall _ _ _ Hsub). rewrite Hperm.
      by eapply sorted_by_int_defined. }
    assert (Forall (λ it, isdigit (item_id it) = true)
              (Primary.new_items_of seen (slice_to n full))) as Hdig.
    { apply (sublist_Forall _ _ _ Hsub). rewrite Hperm.
      apply Forall_forall. intros it Hin.
      apply items_by_id_values_subseteq in Hin.
      pose proof (candidates_ok w ttype url final_url soup) as Hok.
      rewrite Forall_forall in Hok. by apply Hok. }
    destruct (sorted_by_int_total w false _ Hint) as [out Hout].
    exists out. split; [done|].
    pose proof (sorted_by_int_perm _ _ _ _ Hout) as Hp.
    split_and!; [done| |].
    + intros it. rewrite Hp. unfold Primary.new_items_of.
      rewrite list_elem_of_filter. tauto.
    + by apply (sorted_by_int_sorted w false _ _ Hout).
  - intros w url key_pattern n m m' items seen Hrun.
    rewrite parse_html_key_list_eq in Hrun. injection Hrun as Hex _.
    apply variant_extracted_inr in Hex as (final_url & soup & full & Hget & Hsort & ->).
    pose proof (sorted_by_key_perm _ _ _ _ Hsort) as Hperm.
    assert (Variant.new_items_of seen (slice_to n full) `sublist_of` full) as Hsub.
    { etrans; [apply sublist_filter|apply slice_to_sublist]. }
    assert (uniform w (Variant.new_items_of seen (slice_to n full))) as Hu.
    { apply (uniform_sublist _ _ _ Hsub). apply (uniform_perm _ _ _ Hperm).
      by eapply sorted_by_key_uniform. }
    destruct (sorted_by_key_total w false _ Hu) as [out Hout].
    exists out. split; [done|].
    pose proof (sorted_by_key_perm _ _ _ _ Hout) as Hp.
    split_and!; [done| |].
    + intros it. rewrite Hp. unfold Variant.new_items_of.
      rewrite list_elem_of_filter. tauto.
    + by apply (sorted_by_key_sorted w false _ _ Hout).
Qed.

(** The two notices of the sample, none of them known: the older one
    comes first. *)
Lemma diff_witness :
  ∃ out,
    sorted_by_int (Samples.world Samples.page_two Samples.delivered) false
      (Primary.new_items_of ∅ [Samples.item_10; Samples.item_9]) = inr out
    ∧ out ≡ₚ filter (λ it, item_id it ∉ (∅ : gset str)) [Samples.item_10; Samples.item_9]
    ∧ (∀ it, it ∈ out ↔ it ∈ [Samples.item_10; Samples.item_9]
                        ∧ item_id it ∉ (∅ : gset str))
    ∧ ascending (Samples.world Samples.page_two Samples.delivered) out.
Proof.
  apply (proj1 diff_returns_unseen_oldest_first
           (Samples.world Samples.page_two Samples.delivered)
           Primary.html_list_number_id Samples.listing_url 30%Z boot
           (log (EvGet Samples.listing_url) boot)).
  vm_compute. reflexivity.
Defined.

(** ** The link of a row *)

Lemma span_stop (p : char → bool) (b : str) (q : char) (t : str) :
  Forall (λ c, p c = true) b → p q = false → span p (b ++ q :: t) = (b, q :: t).
Proof.
  intros Hb Hq. induction Hb as [|c b Hc _ IH]; simpl.
  - by rewrite Hq.
  - by rewrite Hc, IH.
Qed.

Lemma quoted_at_cons (c : char) (s pre body post : str) :
  quoted_at (c :: s) pre body post →
  (pre = [] ∧ is_quote c = true
   ∧ span (λ x, negb (is_quote x)) s = (body, drop (length body) s)
   ∧ body ≠ [] ∧ drop (length body) s ≠ [])
  ∨ (∃ pre', pre = c :: pre' ∧ quoted_at s pre' body post).
Proof.
  intros (q1 & q2 & Hq1 & Hq2 & Hne & Hbody & Hs).
  destruct pre as [|c' pre']; simpl in Hs.
  - left. injection Hs as -> ->. split_and!; try done.
    + rewrite drop_app_length. apply span_stop.
      * eapply Forall_impl; [exact Hbody|]. by intros x ->.
      * by rewrite Hq2.
    + by rewrite drop_app_length.
  - right. injection Hs as -> ->. exists pre'. split; [done|].
    by exists q1, q2.
Qed.

Lemma quoted_at_further (c : char) (s pre body post : str) :
  quoted_at s pre body post → quoted_at (c :: s) (c :: pre) body post.
Proof.
  intros (q1 & q2 & ? & ? & ? & ? & ->). by exists q1, q2.
Qed.

(** The search in the onclick attribute finds the first quoted
    substring, and finds none only when there is none. *)
Lemma search_quoted_spec (s : str) :
  match search_quoted s with
  | Some body => first_quoted s body
  | None => ∀ pre body post, ¬ quoted_at s pre body post
  end.
Proof.
  induction s as [|c s IH].
  { simpl. intros pre body post (q1 & q2 & _ & _ & _ & _ & Hs).
    by destruct pre. }
  assert ((∀ body post, ¬ quoted_at (c :: s) [] body post) →
            match search_quoted s with
            | Some body => first_quoted (c :: s) body
            | None => ∀ pre body post, ¬ quoted_at (c :: s) pre body post
            end) as Hrec.
  { intros Hhere. destruct (search_quoted s) as [body|].
    - destruct IH as (pre & post & Hq & Hleft).
      exists (c :: pre), post. split; [by apply quoted_at_further|].
      intros pre' body' post' Hq'.
      pose proof Hq' as [(-> & _)|(pre'' & -> & Hq'')]%quoted_at_cons.
      + by destruct (Hhere body' post').
      + simpl. apply le_n_S. by eapply Hleft.
    - intros pre body post Hq.
      pose proof Hq as [(-> & _)|(pre' & -> & Hq')]%quoted_at_cons.
      + by destruct (Hhere body post).
      + by eapply IH. }
  simpl. destruct (is_quote c) eqn:Hc.
  - destruct (span (λ x, negb (is_quote x)) s) as [run rest] eqn:Hspan.
    assert (∀ body post, quoted_at (c :: s) [] body post →
              run = body ∧ body ≠ [] ∧ rest ≠ []) as Hhere.
    { intros body post [(_ & _ & Hsp & ? & ?)|(pre' & [=] & _)]%quoted_at_cons.
      rewrite Hspan in Hsp. by injection Hsp as -> ->. }
    destruct run as [|x run].
    { apply Hrec. intros body post Hq.
      apply Hhere in Hq as (<- & ? & _). done. }
    destruct rest as [|q post].
    { apply Hrec. intros body post Hq.
      apply Hhere in Hq as (_ & _ & ?). done. }
    exists [], post. split.
    + exists c, q. split_and!; try done.
      * pose proof (span_snd_head (λ x, negb (is_quote x)) s q post) as Hq.
        rewrite Hspan in Hq. specialize (Hq eq_refl). by apply negb_false_iff in Hq.
      * pose proof (span_fst_forallb (λ x, negb (is_quote x)) s) as Hf.
        rewrite Hspan in Hf. apply forallb_Forall in Hf.
        eapply Forall_impl; [exact Hf|]. intros y Hy. by apply negb_true_iff in Hy.
      * simpl. f_equal. pose proof (span_app (λ x, negb (is_quote x)) s) as Ha.
        by rewrite Hspan in Ha.
    + intros. simpl. lia.
  - apply Hrec. intros body post (q1 & q2 & Hq1 & _ & _ & _ & [= -> _]).
    congruence.
Qed.

(** The first quoted substring is unique. *)
Lemma first_quoted_unique (s body body' : str) :
  first_quoted s body → first_quoted s body' → body = body'.
Proof.
  intros (pre & post & Hq & Hl) (pre' & post' & Hq' & Hl').
  pose proof (Hl _ _ _ Hq') as H1. pose proof (Hl' _ _ _ Hq) as H2.
  destruct Hq as (q1 & q2 & _ & Hq2 & _ & Hb & Hs).
  destruct Hq' as (q1' & q2' & _ & Hq2' & _ & Hb' & Hs').
  rewrite Hs in Hs'. apply app_inj_1 in Hs' as [_ Hs']; [|lia].
  injection Hs' as _ Hs'.
  assert (span (λ x, negb (is_quote x)) (body ++ q2 :: post) = (body, q2 :: post)) as E1.
  { apply span_stop; [|by rewrite Hq2].
    eapply Forall_impl; [exact Hb|]. by intros x ->. }
  assert (span (λ x, negb (is_quote x)) (body' ++ q2' :: post') = (body', q2' :: post'))
    as E2.
  { apply span_stop; [|by rewrite Hq2'].
    eapply Forall_impl; [exact Hb'|]. by intros x ->. }
  rewrite Hs' in E1. rewrite E1 in E2. by injection E2.
Qed.

(** C5.  In the first pass of [parse_html_list_number_id], the URL of
    the item of a matched row comes from the first link [a] of the
    row: the href, stripped, resolved against the final URL of the
    page when it can be followed; otherwise the first quoted
    substring of the onclick attribute, resolved likewise; otherwise,
    when the onclick attribute holds no quoted substring, the URL of
    the listing. *)
Theorem row_url_follows_chain (w : World) (target_url final_url : str)
    (row : node) (it : Item) :
  Primary.row_item w target_url final_url row = Some it →
  ∃ a,
    find a_tag row = Some a
    ∧ let href := strip (default [] (get_attr href_attr a)) in
      let onclick := strip (default [] (get_attr onclick_attr a)) in
      (usable_href href → url it = urljoin w final_url href)
      ∧ (¬ usable_href href →
         ∀ body, first_quoted onclick body → url it = urljoin w final_url body)
      ∧ (¬ usable_href href →
         (∀ pre body post, ¬ quoted_at onclick pre body post) →
         url it = target_url).
Proof.
  intros Hitem.
  apply row_item_Some in Hitem as (td0 & tds & a & _ & Ha & _ & _ & _ & _ & Hurl).
  exists a. split; [done|]. simpl. rewrite Hurl. unfold Primary.row_url.
  set (href := strip (default [] (get_attr href_attr a))).
  set (onclick := strip (default [] (get_attr onclick_attr a))).
  pose proof (search_quoted_spec onclick) as Hsearch.
  destruct (bool_decide (href ≠ []) && bool_decide (href ∉ Primary.placeholders)
            && negb (lower_startswith javascript href)) eqn:Hc.
  - apply andb_true_iff in Hc as [[H1 H2]%andb_true_iff H3].
    apply bool_decide_eq_true in H1, H2. apply negb_true_iff in H3.
    split_and!; [done| |]; intros Hno; by destruct Hno.
  - assert (¬ usable_href href) as Hno.
    { intros (H1 & H2 & H3). rewrite H3 in Hc.
      by rewrite !bool_decide_eq_true_2 in Hc. }
    split_and!; [done| |].
    + intros _ body Hfirst. destruct (search_quoted onclick) as [body'|].
      * by rewrite (first_quoted_unique _ _ _ Hfirst Hsearch).
      * destruct Hfirst as (pre & post & Hq & _). by destruct (Hsearch pre body post).
    + intros _ Hnone. destruct (search_quoted onclick) as [body'|]; [|done].
      destruct Hsearch as (pre & post & Hq & _). by destruct (Hnone pre body' post).
Qed.

(** A row whose link has the placeholder [#] as href and the address
    in its onclick attribute: the address is followed. *)
Lemma row_url_witness :
  ∃ a,
    find a_tag Samples.onclick_row = Some a
    ∧ let href := strip (default [] (get_attr href_attr a)) in
      let onclick := strip (default [] (get_attr onclick_attr a)) in
      (usable_href href → lit "https://ex.org/view.php?id=9" = href)
      ∧ (¬ usable_href href →
         ∀ body, first_quoted onclick body → lit "https://ex.org/view.php?id=9" = body)
      ∧ (¬ usable_href href →
         (∀ pre body post, ¬ quoted_at onclick pre body post) →
         lit "https://ex.org/view.php?id=9" = Samples.listing_url).
Proof.
  apply (row_url_follows_chain (Samples.world Samples.page_two Samples.delivered)
           Samples.listing_url Samples.listing_url Samples.onclick_row
           {| item_id := lit "9"; title := lit "B";
              url := lit "https://ex.org/view.php?id=9" |}).
  vm_compute. reflexivity.
Defined.

(** ** One run of a source *)

Lemma extracted_supported (w : World) (ttype url : str) (n : Z) (items : list Item) :
  Primary.extracted w ttype url n = inr items → Primary.supported ttype = true.
Proof. unfold Primary.extracted. by destruct (Primary.supported ttype). Qed.

Lemma filter_none {A} (P : A → Prop) `{!∀ x, Decision (P x)} (l : list A) :
  (∀ x, x ∈ l → ¬ P x) → filter P l = [].
Proof.
  induction l as [|x l IH]; intros Hno; [done|].
  rewrite filter_cons. rewrite decide_False by (apply Hno, list_elem_of_here).
  apply IH. intros y Hy. by apply Hno, list_elem_of_further.
Qed.

(** C4.  When the parser of a source returns an empty list, the run of
    the source does this and nothing else: it fetches the page, prints
    the count, prints the parse warning and hands the same warning to
    [telegram_send].  The warning is neither the line for no new items
    nor the message of a failure, no message of a new item goes out,
    and the known ids of every source are what they were. *)
Theorem empty_extraction_is_parse_warning (w : World) (target : Target) (url : str)
    (m : mem) :
  let name := default unknown (t_name target) in
  let ttype := default Primary.html_list_number_id (t_type target) in
  let latest_n := default 30%Z (t_latest_n target) in
  let warning := ParseWarnText name url in
  t_url target = Some url →
  (Primary.select_parser w ttype url latest_n m).1 = inr [] →
  ∃ r m' evs sent,
    Primary.run_target w target m = (r, m')
    ∧ trace m' = trace m ++ evs
    ∧ evs = [EvGet url; EvPrint (LFetched name 0 []); EvPrint (LText warning); sent]
    ∧ (sent = EvPrint (LSkipped warning) ∧ r = inr tt
       ∨ sent = EvPost warning true ∧ r = inr tt
       ∨ sent = EvPost warning false ∧ ∃ e, r = inl e)
    ∧ Forall (λ e, is_new_item_event e = false) evs
    ∧ (EvPrint (LNoNew name) ∉ evs)
    ∧ (∀ e, EvPrint (LText (CrawlerErrText name e)) ∉ evs)
    ∧ state m' = state m
    ∧ (∀ name', known name' m' = known name' m).
Proof.
  intros name ttype latest_n warning Hurl Hex.
  rewrite select_parser_eq in Hex. simpl in Hex.
  rewrite (run_target_eq w target url m Hurl). fold name ttype latest_n.
  rewrite Hex. simpl. fold warning.
  unfold Primary.fetched. rewrite (extracted_supported _ _ _ _ _ Hex).
  match goal with
  | |- context [Primary.telegram_send w warning ?mm] =>
      destruct (telegram_send_effect w warning mm)
        as (r & m' & sent & Hsend & Hst & Hh & Htr & Hsent)
  end.
  exists r, m', [EvGet url; EvPrint (LFetched name 0 []); EvPrint (LText warning); sent], sent.
  split; [done|]. simpl in Hst, Hh, Htr. split_and!.
  - rewrite Htr. by rewrite <-!app_assoc.
  - done.
  - done.
  - repeat constructor. by destruct Hsent as [[-> _]|[[-> _]|[-> _]]].
  - rewrite !not_elem_of_cons. split_and!; try done.
    + by destruct Hsent as [[-> _]|[[-> _]|[-> _]]].
    + apply not_elem_of_nil.
  - intros e. rewrite !not_elem_of_cons. split_and!; try done.
    + by destruct Hsent as [[-> _]|[[-> _]|[-> _]]].
    + apply not_elem_of_nil.
  - done.
  - intros name'. by apply known_heap_app.
Qed.

(** A listing without rows. *)
Lemma parse_warning_witness :
  ∃ r m' evs sent,
    Primary.run_target (Samples.world (Samples.page []) Samples.delivered)
      Samples.source boot = (r, m')
    ∧ trace m' = trace boot ++ evs
    ∧ evs = [EvGet Samples.listing_url; EvPrint (LFetched (lit "notice") 0 []);
             EvPrint (LText (ParseWarnText (lit "notice") Samples.listing_url)); sent]
    ∧ (sent = EvPrint (LSkipped (ParseWarnText (lit "notice") Samples.listing_url))
       ∧ r = inr tt
       ∨ sent = EvPost (ParseWarnText (lit "notice") Samples.listing_url) true ∧ r = inr tt
       ∨ sent = EvPost (ParseWarnText (lit "notice") Samples.listing_url) false
         ∧ ∃ e, r = inl e)
    ∧ Forall (λ e, is_new_item_event e = false) evs
    ∧ (EvPrint (LNoNew (lit "notice")) ∉ evs)
    ∧ (∀ e, EvPrint (LText (CrawlerErrText (lit "notice") e)) ∉ evs)
    ∧ state m' = state boot
    ∧ (∀ name', known name' m' = known name' boot).
Proof.
  apply (empty_extraction_is_parse_warning
           (Samples.world (Samples.page []) Samples.delivered)
           Samples.source Samples.listing_url boot).
  - reflexivity.
  - vm_compute. reflexivity.
Defined.

Lemma fetched_state (ttype url : str) (m : mem) :
  state (Primary.fetched ttype url m) = state m
  ∧ heap (Primary.fetched ttype url m) = heap m.
Proof. unfold Primary.fetched. by destruct (Primary.supported ttype). Qed.

(** A run that returns without an exception leaves every id of the
    list the parser returned among the known ids of the source,
    unless that list was empty. *)
Lemma run_target_learns (w : World) (target : Target) (url : str) (m m1 : mem)
    (items : list Item) :
  let name := default unknown (t_name target) in
  let ttype := default Primary.html_list_number_id (t_type target) in
  let latest_n := default 30%Z (t_latest_n target) in
  wf m →
  t_url target = Some url →
  Primary.extracted w ttype url latest_n = inr items →
  Primary.run_target w target m = (inr tt, m1) →
  Primary.new_items_of (default ∅ (known name m1)) items = [].
Proof.
  intros name ttype latest_n Hwf Hurl Hex Hrun.
  rewrite (run_target_eq w target url m Hurl) in Hrun.
  fold name ttype latest_n in Hrun. rewrite Hex in Hrun.
  destruct items as [|it0 items]; [done|]. simpl in Hrun.
  set (S0 := default ∅ (known name m)) in *.
  destruct (fetched_state ttype url (Mem (state m) (heap m ++ [∅]) (trace m) (posts m)))
    as [Hfs Hfh]. simpl in Hfs, Hfh.
  destruct (Primary.new_items_of S0 (it0 :: items)) as [|n1 new] eqn:Hnew.
  - injection Hrun as <-. by rewrite (known_heap_app name m).
  - destruct (sorted_by_int w false (n1 :: new)) as [e|l] eqn:Hsort; [done|].
    unfold bind in Hrun.
    set (seen := default (length (heap m)) (PyDict.get name (state m))) in *.
    match type of Hrun with
    | context [Primary.notify w name seen l ?mm] => set (m1_ := mm) in *
    end.
    assert (heap m1_ = heap m ++ [∅]) as Hh1 by done.
    destruct (notify_effect w name seen l m1_)
      as (r & m' & evs & sent & Hn & Hst & Hlen & Hoth & Htr & Hd & Hpre & Hok & Hev & _).
    { rewrite Hh1, length_app. simpl. unfold seen.
      destruct (PyDict.get name (state m)) as [r|] eqn:Hg; simpl; [|lia].
      apply (proj2 Hwf) in Hg. lia. }
    rewrite Hn in Hrun. destruct r as [e|[]]; [done|].
    unfold state_set in Hrun. injection Hrun as <-.
    unfold known. simpl. rewrite dict_get_set_eq. simpl.
    change (deref seen _) with (deref seen m').
    pose proof (seen_set_eq name m m1_ Hh1) as Hs. fold seen S0 in Hs.
    rewrite Hd, Hs, (Hok eq_refl).
    apply filter_none. intros x Hx Hnot. apply Hnot.
    apply elem_of_union. destruct (decide (item_id x ∈ S0)) as [|Hnew']; [by left|right].
    apply elem_of_list_to_set, list_elem_of_fmap_2.
    rewrite (sorted_by_int_perm _ _ _ _ Hsort), <-Hnew.
    by apply list_elem_of_filter.
Qed.

(** A run of a source all of whose items are known: no message of a
    new item, no change of the known ids. *)
Lemma run_when_nothing_new (w : World) (target : Target) (url : str) (m : mem)
    (items : list Item) :
  let name := default unknown (t_name target) in
  let ttype := default Primary.html_list_number_id (t_type target) in
  let latest_n := default 30%Z (t_latest_n target) in
  t_url target = Some url →
  Primary.extracted w ttype url latest_n = inr items →
  Primary.new_items_of (default ∅ (known name m)) items = [] →
  ∃ r m2 evs,
    Primary.run_target w target m = (r, m2)
    ∧ trace m2 = trace m ++ evs
    ∧ Forall (λ e, is_new_item_event e = false) evs
    ∧ (∀ name', known name' m2 = known name' m).
Proof.
  intros name ttype latest_n Hurl Hex Hnone.
  rewrite (run_target_eq w target url m Hurl). fold name ttype latest_n.
  rewrite Hex. pose proof (extracted_supported _ _ _ _ _ Hex) as Hsup.
  set (m0 := Mem (state m) (heap m ++ [∅]) (trace m) (posts m)).
  destruct (fetched_state ttype url m0) as [Hfs Hfh]. simpl in Hfs, Hfh.
  destruct items as [|it0 items]; cbv zeta.
  - match goal with
    | |- context [Primary.telegram_send w ?t ?mm] =>
        destruct (telegram_send_effect w t mm)
          as (r & m2 & sent & Hsend & Hst & Hh & Htr & Hsent)
    end.
    exists r, m2,
      [EvGet url; EvPrint (LFetched name 0 []);
       EvPrint (LText (ParseWarnText name url)); sent].
    split; [done|]. simpl in Hst, Hh, Htr. split_and!.
    + rewrite Htr. unfold Primary.fetched. rewrite Hsup. simpl. by rewrite <-!app_assoc.
    + repeat constructor. by destruct Hsent as [[-> _]|[[-> _]|[-> _]]].
    + intros name'. apply known_heap_app; congruence.
  - rewrite Hnone.
    eexists (inr tt), _, [EvGet url; EvPrint (LFetched name _ _); EvPrint (LNoNew name)].
    split; [done|]. split_and!.
    + simpl. unfold Primary.fetched. rewrite Hsup. simpl. by rewrite <-!app_assoc.
    + by repeat constructor.
    + intros name'. by apply known_heap_app.
Qed.

(** C7.  After a run of a source that returned without an exception,
    a second run of the same source in the same world (the page
    unchanged) finds that no item of the page is new: it sends no
    message of a new item, prints none as sent, and leaves the known
    ids of every source as they are. *)
Theorem second_run_finds_nothing_new (w : World) (target : Target) (m m1 : mem) :
  let name := default unknown (t_name target) in
  let ttype := default Primary.html_list_number_id (t_type target) in
  let latest_n := default 30%Z (t_latest_n target) in
  wf m →
  Primary.run_target w target m = (inr tt, m1) →
  ∃ r m2 evs,
    Primary.run_target w target m1 = (r, m2)
    ∧ trace m2 = trace m1 ++ evs
    ∧ Forall (λ e, is_new_item_event e = false) evs
    ∧ (∀ name', known name' m2 = known name' m1)
    ∧ (∀ url items,
         t_url target = Some url →
         (Primary.select_parser w ttype url latest_n m1).1 = inr items →
         Primary.new_items_of (default ∅ (known name m1)) items = []).
Proof.
  intros name ttype latest_n Hwf Hrun.
  destruct (t_url target) as [url|] eqn:Hurl.
  2:{ unfold Primary.run_target in Hrun. by rewrite Hurl in Hrun. }
  destruct (Primary.extracted w ttype url latest_n) as [e|items] eqn:Hex.
  { rewrite (run_target_eq w target url m Hurl) in Hrun.
    fold name ttype latest_n in Hrun. by rewrite Hex in Hrun. }
  pose proof (run_target_learns w target url m m1 items Hwf Hurl Hex Hrun) as Hlearn.
  destruct (run_when_nothing_new w target url m1 items Hurl Hex Hlearn)
    as (r & m2 & evs & Hrun2 & Htr & Hev & Hknown).
  exists r, m2, evs. split_and!; [done..|].
  intros url' items' [= <-] Hsel. rewrite select_parser_eq in Hsel. simpl in Hsel.
  fold ttype latest_n in Hex. rewrite Hex in Hsel. by injection Hsel as <-.
Qed.

(** The source of the sample, run twice from the empty state: the
    first run sends both notices, the second one none. *)
Lemma second_run_witness :
  ∃ r m2 evs,
    Primary.run_target (Samples.world Samples.page_two Samples.delivered) Samples.source
      (Primary.run_target (Samples.world Samples.page_two Samples.delivered)
         Samples.source boot).2 = (r, m2)
    ∧ trace m2
      = trace (Primary.run_target (Samples.world Samples.page_two Samples.delivered)
                 Samples.source boot).2 ++ evs
    ∧ Forall (λ e, is_new_item_event e = false) evs.
Proof.
  destruct (second_run_finds_nothing_new
              (Samples.world Samples.page_two Samples.delivered) Samples.source boot
              (Primary.run_target (Samples.world Samples.page_two Samples.delivered)
                 Samples.source boot).2)
    as (r & m2 & evs & Hrun & Htr & Hev & _).
  - split; [constructor|]. intros name r. simpl. discriminate.
  - vm_compute. reflexivity.
  - by exists r, m2, evs.
Defined.

(** ** Failures *)

(** C1, at an input where the code departs from it.  A source without
    an entry in the state mapping shows two new notices; the message
    of the first one goes out and its id 9 is added to the set [seen],
    the message of the second one fails.  [main] then reports the
    failure and saves a state mapping that has no entry for the
    source: the id 9 is lost, the set that holds it was never bound
    to the name of the source. *)
Theorem failed_send_forgets_ids_of_a_new_source :
  let w := Samples.world Samples.page_two Samples.second_refused in
  let name := lit "notice" in
  let failure := RequestError (lit "HTTPError") in
  Primary.main w (Some [Samples.source]) boot
  = (inr tt,
     {| state := [];
        heap := [{[ lit "9" ]}];
        trace :=
          [ EvGet Samples.listing_url;
            EvPrint (LFetched name 2 [(lit "10", lit "A"); (lit "9", lit "B")]);
            EvPost (NewItemText name (lit "B") (lit "https://ex.org/b")) true;
            EvPrint (LSent name (lit "9") (lit "B"));
            EvSleep;
            EvPost (NewItemText name (lit "A") (lit "https://ex.org/a")) false;
            EvPrint (LText (CrawlerErrText name failure));
            EvPost (CrawlerErrText name failure) true;
            EvSave [] ];
        posts := 3 |}).
Proof. vm_compute. reflexivity. Qed.

(** The same run for a source that has an entry (the id 8 is known):
    the set [seen] is the set of the state mapping, and the id 9 is
    saved. *)
Lemma failed_send_keeps_ids_of_a_known_source :
  let w := Samples.world_knowing Samples.page_two Samples.second_refused
             (lit "notice") [lit "8"] in
  last (trace (Primary.main w (Some [Samples.source]) boot).2)
  = Some (EvSave [(lit "notice", [lit "9"; lit "8"])]).
Proof. vm_compute. reflexivity. Qed.

(** In general: whatever the outcome of the loop, the ids it added
    stay in the set of a source that has an entry in the state
    mapping, and nothing is sent after the message that failed. *)
Lemma notify_keeps_ids_of_a_known_source (w : World) (name : str) (seen : nat)
    (l : list Item) (m : mem) :
  PyDict.get name (state m) = Some seen →
  (seen < length (heap m))%nat →
  ∃ r m' sent,
    Primary.notify w name seen l m = (r, m')
    ∧ sent `prefix_of` l
    ∧ known name m' = Some (deref seen m ∪ list_to_set (item_id <$> sent)).
Proof.
  intros Hget Hseen.
  destruct (notify_effect w name seen l m Hseen)
    as (r & m' & evs & sent & Hn & Hst & _ & _ & _ & Hd & Hpre & _).
  exists r, m', sent. split_and!; [done..|].
  unfold known. by rewrite Hst, Hget, <-Hd.
Qed.

(** C6, at an input where the code departs from it.  The first of two
    sources fails (its type has no parser) and Telegram refuses every
    message.  The exception of the run is caught, but the handler
    itself sends the report, that send raises, and [main] ends there:
    the second source is never fetched and nothing is saved. *)
Theorem failed_report_aborts_main :
  let w := Samples.world Samples.page_two Samples.refused in
  let report := CrawlerErrText (lit "first") (ValueError_type (lit "rss")) in
  Primary.main w (Some [Samples.source_unsupported; Samples.source]) boot
  = (inl (RequestError (lit "HTTPError")),
     {| state := [];
        heap := [∅];
        trace := [EvPrint (LText report); EvPost report false];
        posts := 1 |}).
Proof. vm_compute. reflexivity. Qed.

(** The loop of the variant, whose handler only prints, never raises,
    so that its [main] always reaches [save_state]. *)
Lemma variant_run_targets_returns (w : World) (targets : list Target) (m : mem) :
  ∃ m', Variant.run_targets w targets m = (inr tt, m').
Proof.
  revert m. induction targets as [|t ts IH]; intros m; simpl; [by eexists|].
  unfold bind, try_except.
  destruct (Variant.run_target w t m) as [[e|[]] m1]; simpl; apply IH.
Qed.

Lemma load_state_returns (w : World) (m : mem) :
  ∃ m', load_state w m = (inr tt, m').
Proof.
  unfold load_state. destruct (state_json w) as [| |raw]; [by eexists..|].
  revert m. induction raw as [|[k v] raw IH]; intros m; simpl; [by eexists|].
  unfold bind. simpl. apply IH.
Qed.

Lemma variant_main_saves (w : World) (t : Target) (ts : list Target) :
  ∃ m, (Variant.main w (Some (t :: ts)) boot).1 = inr tt
       ∧ (Variant.main w (Some (t :: ts)) boot).2 = log (EvSave (compact m)) m.
Proof.
  unfold Variant.main. cbn [from_option id]. unfold bind.
  destruct (load_state_returns w boot) as [m0 E0]. rewrite E0.
  destruct (variant_run_targets_returns w (t :: ts) m0) as [m1 E1]. rewrite E1.
  by exists m1.
Qed.

(** So does the loop of [check_pages.py] when the credentials are
    absent, since its handler then only prints. *)
Lemma run_targets_returns_unconfigured (w : World) (targets : list Target) (m : mem) :
  configured w = false →
  ∃ m', Primary.run_targets w targets m = (inr tt, m').
Proof.
  intros Hc. revert m. induction targets as [|t ts IH]; intros m; simpl; [by eexists|].
  unfold bind at 1. unfold try_except.
  destruct (Primary.run_target w t m) as [[e|[]] m1]; [|apply IH].
  unfold bind at 1. unfold print at 1, emit at 1.
  unfold Primary.telegram_send. rewrite Hc. simpl. apply IH.
Qed.

(** C10, at an input where the code departs from it.  The first cell
    of a row reads as a superscript two: [isdigit] accepts it, the row
    becomes an item, and [int] refuses its id when the items are
    sorted, so that the parser raises [ValueError]. *)
Theorem superscript_row_number_raises :
  let w := Samples.world Samples.page_superscript Samples.delivered in
  isdigit [0xb2] = true
  ∧ Primary.list_number_id_candidates w Samples.listing_url Samples.listing_url
      Samples.page_superscript
    = [ {| item_id := [0xb2]; title := lit "A"; url := lit "https://ex.org/a" |} ]
  ∧ int_of_str (int_max_str_digits w) [0xb2] = None
  ∧ Primary.parse_html_list_number_id w Samples.listing_url 30 boot
    = (inl (ValueError_int [0xb2]), log (EvGet Samples.listing_url) boot).
Proof. vm_compute. by repeat split. Qed.

(** The ids of the three link strategies, which come out of the
    group [\d+], are made of decimal digits only. *)
Lemma link_ids_are_decimal (w : World) (final_url : str) (cls : list (char → bool))
    (soup : node) :
  Forall (λ it, item_id it ≠ [] ∧ forallb isdecimal_char (item_id it) = true)
    (Primary.link_candidates w final_url cls soup).
Proof.
  apply Forall_forall. intros it Hin.
  apply list_elem_of_omap in Hin as (a & _ & Ha).
  by apply link_item_Some in Ha as (? & ? & _).
Qed.

(** ** The state file *)

Lemma sorted_ids_desc (v : gset str) :
  StronglySorted (λ a b, str_lt b a = true)
    (stable_sort (λ a b, str_lt b a) (elements v)).
Proof.
  set (l := stable_sort (λ a b, str_lt b a) (elements v)).
  assert (NoDup l) as Hnd.
  { unfold l. rewrite stable_sort_perm. apply NoDup_elements. }
  assert (StronglySorted (λ a b, str_lt a b = false) l) as Hs.
  { unfold l. apply (stable_sort_sorted _ (λ _, True)); [| |done|].
    - intros x y _ _. apply str_lt_asym.
    - intros x y z _ _ _ H1 H2. by apply (str_lt_negtrans z y x).
    - apply Forall_forall. done. }
  clearbody l. induction Hs as [|a l Hs IH Ha]; [constructor|].
  apply NoDup_cons in Hnd as [Hnin Hnd].
  constructor; [by apply IH|].
  rewrite Forall_forall in Ha. apply Forall_forall. intros b Hb.
  apply str_lt_total; [by apply Ha|]. by intros ->.
Qed.




(** ** The whole run *)

Lemma wf_boot : wf boot.
Proof. split; [constructor|]. intros name r. simpl. discriminate. Qed.

Lemma wf_grow (m m' : mem) :
  wf m → state m' = state m → (length (heap m) ≤ length (heap m'))%nat → wf m'.
Proof.
  intros [Hnd Hwf] Hst Hlen. split; [by rewrite Hst|].
  intros name r Hget. rewrite Hst in Hget. apply Hwf in Hget. lia.
Qed.

Lemma load_entries_inv (raw : list (str * list str)) (m : mem) :
  wf m →
  ∃ m', load_entries raw m = (inr tt, m') ∧ wf m' ∧ trace m' = trace m.
Proof.
  revert m. induction raw as [|[k v] raw IH]; intros m Hwf; simpl.
  { by exists m. }
  unfold bind, alloc, state_set. simpl.
  match goal with
  | |- context [load_entries raw ?mm] => destruct (IH mm) as (m' & Hl & Hwf' & Htr)
  end.
  { split; [apply dict_NoDup_set, Hwf|].
    intros name r. simpl. destruct (decide (k = name)) as [->|Hne].
    - rewrite dict_get_set_eq. intros [= <-]. rewrite length_app. simpl. lia.
    - rewrite dict_get_set_ne by done. intros Hget. apply (proj2 Hwf) in Hget.
      rewrite length_app. lia. }
  by exists m'.
Qed.

Lemma load_state_inv (w : World) (m : mem) :
  wf m → ∃ m', load_state w m = (inr tt, m') ∧ wf m' ∧ trace m' = trace m.
Proof.
  intros Hwf. unfold load_state.
  destruct (state_json w) as [| |raw]; [by exists m..|].
  by apply load_entries_inv.
Qed.

(** A run of a source keeps the memory well formed and writes no
    state file. *)
Lemma run_target_inv (w : World) (target : Target) (m : mem) :
  wf m →
  ∃ r m' evs,
    Primary.run_target w target m = (r, m')
    ∧ wf m' ∧ trace m' = trace m ++ evs ∧ Forall (λ e, is_save e = false) evs.
Proof.
  intros Hwf. destruct (t_url target) as [url|] eqn:Hurl.
  2:{ exists (inl (KeyError Primary.url_key)), m, [].
      unfold Primary.run_target. rewrite Hurl. split; [done|].
      split_and!; [done|by rewrite app_nil_r|done]. }
  rewrite (run_target_eq w target url m Hurl).
  set (name := default unknown (t_name target)).
  set (ttype := default Primary.html_list_number_id (t_type target)).
  set (latest_n := default 30%Z (t_latest_n target)).
  set (m0 := Mem (state m) (heap m ++ [∅]) (trace m) (posts m)).
  assert (∃ evs0, state (Primary.fetched ttype url m0) = state m
                  ∧ heap (Primary.fetched ttype url m0) = heap m ++ [∅]
                  ∧ trace (Primary.fetched ttype url m0) = trace m ++ evs0
                  ∧ Forall (λ e, is_save e = false) evs0) as (evs0 & Hfs & Hfh & Hft & Hf0).
  { unfold Primary.fetched. destruct (Primary.supported ttype).
    - exists [EvGet url]. split_and!; try done. by repeat constructor.
    - exists []. split_and!; try done. simpl. by rewrite app_nil_r. }
  assert (wf (Primary.fetched ttype url m0)) as Hwf0.
  { apply (wf_grow m); [done|done|]. rewrite Hfh, length_app. lia. }
  destruct (Primary.extracted w ttype url latest_n) as [e|items].
  { by eexists _, _, evs0. }
  cbv zeta.
  set (m1 := log (EvPrint (LFetched name (length items)
                             ((λ it, (item_id it, title it)) <$> take 5 items)))
               (Primary.fetched ttype url m0)).
  assert (wf m1) as Hwf1 by (by apply (wf_grow (Primary.fetched ttype url m0))).
  assert (state m1 = state m) as Hs1 by done.
  assert (heap m1 = heap m ++ [∅]) as Hh1 by done.
  assert (∃ evs1, trace m1 = trace m ++ evs1 ∧ Forall (λ e, is_save e = false) evs1)
    as (evs1 & Ht1 & Hf1).
  { eexists (evs0 ++ [_]). split.
    - simpl. by rewrite Hft, <-app_assoc.
    - apply Forall_app. split; [done|by repeat constructor]. }
  clearbody m1. clear Hft Hf0 Hfs Hfh Hwf0 evs0.
  destruct items as [|it0 items].
  - match goal with
    | |- context [Primary.telegram_send w ?t ?mm] =>
        destruct (telegram_send_effect w t mm)
          as (r & m2 & sent & Hsend & Hst & Hh & Htr & Hsent)
    end.
    exists r, m2, (evs1 ++ [EvPrint (LText (ParseWarnText name url)); sent]).
    split; [done|]. simpl in Hst, Hh, Htr. split_and!.
    + apply (wf_grow m1); [done|done|]. by rewrite Hh.
    + rewrite Htr, Ht1. by rewrite <-!app_assoc.
    + apply Forall_app. split; [done|]. repeat constructor.
      by destruct Hsent as [[-> _]|[[-> _]|[-> _]]].
  - destruct (Primary.new_items_of _ _) as [|n1 new].
    { exists (inr tt), (log (EvPrint (LNoNew name)) m1), (evs1 ++ [EvPrint (LNoNew name)]).
      split; [done|]. split_and!.
      - by apply (wf_grow m1).
      - simpl. rewrite Ht1. by rewrite <-!app_assoc.
      - apply Forall_app. split; [done|by repeat constructor]. }
    destruct (sorted_by_int w false (n1 :: new)) as [e|l].
    { by exists (inl e), m1, evs1. }
    unfold bind.
    set (seen := default (length (heap m)) (PyDict.get name (state m))).
    assert (seen < length (heap m1))%nat as Hseen.
    { rewrite Hh1, length_app. simpl. unfold seen.
      destruct (PyDict.get name (state m)) as [r|] eqn:Hg; simpl; [|lia].
      apply (proj2 Hwf) in Hg. lia. }
    destruct (notify_effect w name seen l m1 Hseen)
      as (r & m' & evs & sent & Hn & Hst & Hlen & _ & Htr & _ & _ & _ & _ & Hns).
    rewrite Hn.
    assert (wf m') as Hwf'.
    { apply (wf_grow m1); [done|done|]. by rewrite Hlen. }
    assert (trace m' = trace m ++ evs1 ++ evs) as Ht'.
    { rewrite Htr, Ht1. by rewrite <-!app_assoc. }
    assert (Forall (λ e, is_save e = false) (evs1 ++ evs)) as Hf'.
    { apply Forall_app. by split. }
    destruct r as [e|[]].
    + by exists (inl e), m', (evs1 ++ evs).
    + unfold state_set. eexists (inr tt), _, (evs1 ++ evs). split; [done|].
      simpl. split_and!; [|done..].
      split; [apply dict_NoDup_set, Hwf'|].
      intros name' r. simpl. destruct (decide (name = name')) as [<-|Hne].
      * rewrite dict_get_set_eq. intros [= <-]. by rewrite Hlen.
      * rewrite dict_get_set_ne by done. apply Hwf'.
Qed.

(** When the report of a failure cannot fail itself (no credentials,
    or a Telegram that takes every report), the loop over the
    sources returns and writes no state file, and [main] saves the
    state once, at its end. *)
Lemma run_targets_inv (w : World) (targets : list Target) (m : mem) :
  configured w = false
  ∨ (∀ k name e, telegram_post w k (CrawlerErrText name e) = None) →
  wf m →
  ∃ m' evs,
    Primary.run_targets w targets m = (inr tt, m')
    ∧ wf m' ∧ trace m' = trace m ++ evs ∧ Forall (λ e, is_save e = false) evs.
Proof.
  intros Hrep. revert m. induction targets as [|t ts IH]; intros m Hwf; simpl.
  { exists m, []. split_and!; [done..|by rewrite app_nil_r|done]. }
  unfold bind at 1. unfold try_except.
  destruct (run_target_inv w t m Hwf) as (r & m1 & evs1 & -> & Hwf1 & Htr1 & Hns1).
  destruct r as [e|[]].
  - unfold bind at 1. unfold print at 1, emit at 1.
    set (report := CrawlerErrText (default unknown (t_name t)) e).
    destruct (telegram_send_effect w report (log (EvPrint (LText report)) m1))
      as (r & m2 & sent & Hsend & Hst & Hh & Htr & Hsent).
    rewrite Hsend.
    assert (r = inr tt ∧ is_save sent = false) as [-> Hsave].
    { destruct Hsent as [[-> ->]|[[-> ->]|[-> [x ->]]]]; [done..|].
      exfalso. revert Hsend. unfold Primary.telegram_send, report.
      destruct Hrep as [->|Hrep]; [done|].
      destruct (configured w); simpl; [|done]. by rewrite Hrep. }
    destruct (IH m2) as (m' & evs & Hrun & Hwf' & Htr' & Hns).
    { apply (wf_grow m1); [done|done|]. by rewrite Hh. }
    exists m', (evs1 ++ [EvPrint (LText report); sent] ++ evs).
    split; [done|]. split_and!; [done| |].
    + rewrite Htr', Htr. simpl. rewrite Htr1. by rewrite <-!app_assoc.
    + apply Forall_app. split; [done|]. by repeat constructor.
  - destruct (IH m1 Hwf1) as (m' & evs & Hrun & Hwf' & Htr' & Hns).
    exists m', (evs1 ++ evs). split; [done|]. split_and!; [done| |].
    + rewrite Htr', Htr1. by rewrite <-app_assoc.
    + apply Forall_app. by split.
Qed.

(** Without targets [main] stops before anything else happens. *)
Lemma main_without_targets (w : World) :
  Primary.main w None boot = (inl RuntimeError_targets, boot)
  ∧ Primary.main w (Some []) boot = (inl RuntimeError_targets, boot).
Proof. done. Qed.

Lemma main_saves_once (w : World) (t : Target) (ts : list Target) :
  configured w = false
  ∨ (∀ k name e, telegram_post w k (CrawlerErrText name e) = None) →
  ∃ m,
    Primary.main w (Some (t :: ts)) boot = (inr tt, log (EvSave (compact m)) m)
    ∧ Forall (λ e, is_save e = false) (trace m).
Proof.
  intros Hrep. unfold Primary.main. cbn [from_option id]. unfold bind.
  destruct (load_state_inv w boot wf_boot) as (m0 & -> & Hwf0 & Htr0).
  destruct (run_targets_inv w (t :: ts) m0 Hrep Hwf0) as (m & evs & -> & _ & Htr & Hns).
  exists m. split; [done|]. by rewrite Htr, Htr0.
Qed.

(** ** The parsers on decimal numbers *)

(** A parser returns whenever the page can be fetched and the ids of
    its candidates are decimal numbers within the limit of [int]. *)
Lemma extracted_returns (w : World) (ttype url final_url : str) (soup : node)
    (latest_n : Z) :
  Primary.supported ttype = true →
  http_get w url = inr (final_url, soup) →
  Forall (λ it, forallb isdecimal_char (item_id it) = true
                ∧ (int_max_str_digits w = 0
                   ∨ N.of_nat (length (item_id it)) ≤ int_max_str_digits w))
    (Primary.candidates w ttype url final_url soup) →
  ∃ items, Primary.extracted w ttype url latest_n = inr items.
Proof.
  intros Hsup Hget Hdec. unfold Primary.extracted. rewrite Hsup, Hget.
  unfold Primary.newest_first.
  destruct (sorted_by_int_total w true
              (PyDict.values (items_by_id_of (Primary.candidates w ttype url final_url soup))))
    as [full ->]; [|by eexists].
  apply Forall_forall. intros it Hin. apply items_by_id_values_subseteq in Hin.
  rewrite Forall_forall in Hdec. destruct (Hdec it Hin) as [Hd Hlim].
  pose proof (candidates_ok w ttype url final_url soup) as Hok.
  rewrite Forall_forall in Hok. destruct (Hok it Hin) as [Hdig _].
  destruct (int_of_str_decimal (int_max_str_digits w) (item_id it)) as [z Hz];
    [by apply isdigit_nonempty|done..|].
  exists z. unfold int_key. by rewrite Hz.
Qed.

(** ** From one process to the next *)

Lemma compact_get (name : str) (m : mem) :
  PyDict.get name (compact m) = compact_ids <$> known name m.
Proof.
  unfold compact, known. induction (state m) as [|[k r] st IH]; [done|].
  rewrite fmap_cons. simpl. destruct (decide (k = name)); [done|]. exact IH.
Qed.

(** A set of 3000 ids or less is written out whole. *)
Lemma list_to_set_compact_ids (v : gset str) :
  (size v ≤ 3000)%nat → list_to_set (compact_ids v) = v.
Proof.
  intros Hsize. unfold compact_ids.
  rewrite take_ge by (by rewrite stable_sort_length).
  apply set_eq. intros x.
  by rewrite elem_of_list_to_set, stable_sort_perm, elem_of_elements.
Qed.

(** An id is left out as soon as 3000 known ids are greater than it
    as strings, whatever their numbers: the id 10000 below 9999, say. *)
Lemma compact_ids_drops_small (v : gset str) (x : str) (greater : list str) :
  NoDup greater → length greater = 3000%nat →
  (∀ y, y ∈ greater → y ∈ v ∧ str_lt x y = true) →
  x ∉ compact_ids v.
Proof.
  intros Hnd Hlen Hgreater Hin. unfold compact_ids in Hin.
  set (l := stable_sort (λ a b, str_lt b a) (elements v)) in *.
  pose proof (sorted_ids_desc v) as Hs. fold l in Hs.
  apply elem_of_take in Hin as (i & Hi & Hlt).
  apply list_elem_of_split_length in Hi as (l1 & l2 & Hl & Hl1).
  assert (greater ⊆+ l1) as Hsub.
  { apply NoDup_submseteq; [done|]. intros y Hy.
    destruct (Hgreater y Hy) as [Hyv Hxy].
    assert (y ∈ l) as Hyl.
    { unfold l. rewrite stable_sort_perm. by apply elem_of_elements. }
    rewrite Hl in Hyl, Hs.
    apply elem_of_app in Hyl as [Hyl|Hyl]; [done|].
    apply StronglySorted_app in Hs as (_ & _ & Hs).
    apply StronglySorted_inv in Hs as [_ Hx].
    apply elem_of_cons in Hyl as [->|Hyl].
    - by rewrite str_lt_irrefl in Hxy.
    - rewrite Forall_forall in Hx. apply Hx in Hyl.
      apply str_lt_asym in Hyl. congruence. }
  apply submseteq_length in Hsub. lia.
Qed.

Lemma ten_thousand_below_9999 : str_lt (lit "10000") (lit "9999") = true.
Proof. reflexivity. Qed.

(** What [load_state] finds in a well formed mapping of lists. *)
Lemma load_entries_known (raw : list (str * list str)) (m : mem) :
  wf m → NoDup raw.*1 →
  ∃ m', load_entries raw m = (inr tt, m') ∧ wf m'
        ∧ ∀ name, known name m'
                  = match PyDict.get name raw with
                    | Some ids => Some (list_to_set ids)
                    | None => known name m
                    end.
Proof.
  revert m. induction raw as [|[k v] raw IH]; intros m Hwf Hnd; simpl.
  { by exists m. }
  apply NoDup_cons in Hnd as [Hk Hnd].
  unfold bind, alloc, state_set. simpl.
  set (m1 := Mem (PyDict.set k (length (heap m)) (state m)) (heap m ++ [list_to_set v])
               (trace m) (posts m)).
  assert (wf m1) as Hwf1.
  { split; [apply dict_NoDup_set, Hwf|].
    intros name r. simpl. destruct (decide (k = name)) as [->|Hne].
    - rewrite dict_get_set_eq. intros [= <-]. rewrite length_app. simpl. lia.
    - rewrite dict_get_set_ne by done. intros Hget. apply (proj2 Hwf) in Hget.
      rewrite length_app. lia. }
  destruct (IH m1 Hwf1 Hnd) as (m' & Hl & Hwf' & Hknown).
  exists m'. split_and!; [done..|]. intros name. rewrite Hknown.
  destruct (decide (k = name)) as [<-|Hne].
  - assert (PyDict.get k raw = None) as ->.
    { destruct (PyDict.get k raw) as [ids|] eqn:Hg; [|done]. exfalso. apply Hk.
      clear -Hg. induction raw as [|[k' v'] raw IH]; [done|]. simpl in *.
      destruct (decide (k' = k)) as [->|]; [apply list_elem_of_here|].
      by apply list_elem_of_further, IH. }
    unfold known, m1. simpl. rewrite dict_get_set_eq. simpl. unfold deref. simpl.
    by rewrite lookup_app_r, Nat.sub_diag.
  - destruct (PyDict.get name raw); [done|].
    unfold known, m1. simpl. rewrite dict_get_set_ne by done.
    destruct (PyDict.get name (state m)) as [r|] eqn:Hg; [|done]. simpl.
    unfold deref. simpl. apply (proj2 Hwf) in Hg. by rewrite lookup_app_l.
Qed.

(** The state a process saved is the state the next one loads, as
    long as no source knows more than 3000 ids. *)
Lemma reload_known (w : World) (m : mem) :
  wf m →
  (∀ name v, known name m = Some v → (size v ≤ 3000)%nat) →
  ∃ m', load_state (with_state_file w (FileJson (compact m))) boot = (inr tt, m')
        ∧ wf m' ∧ ∀ name, known name m' = known name m.
Proof.
  intros Hwf Hsize. unfold load_state. simpl.
  destruct (load_entries_known (compact m) boot wf_boot) as (m' & Hl & Hwf' & Hknown).
  { unfold compact. rewrite <-list_fmap_compose. apply Hwf. }
  exists m'. split_and!; [done..|]. intros name. rewrite Hknown, compact_get.
  destruct (known name m) as [v|] eqn:Hv; simpl; [|done].
  rewrite list_to_set_compact_ids; [done|]. by apply (Hsize name).
Qed.

Lemma notify_state_file (w : World) (f : state_file) (name : str) (seen : nat)
    (l : list Item) (m : mem) :
  Primary.notify (with_state_file w f) name seen l m = Primary.notify w name seen l m.
Proof.
  revert m. induction l as [|it l IH]; intros m; [done|]. simpl.
  unfold bind.
  change (Primary.telegram_send (with_state_file w f)) with (Primary.telegram_send w).
  destruct (Primary.telegram_send w _ m) as [[e|[]] m0]; [done|].
  simpl. apply IH.
Qed.

(** A run of a source does not look at the state file. *)
Lemma run_target_state_file (w : World) (f : state_file) (target : Target) (m : mem) :
  Primary.run_target (with_state_file w f) target m = Primary.run_target w target m.
Proof.
  destruct (t_url target) as [url|] eqn:Hurl.
  2:{ unfold Primary.run_target. by rewrite Hurl. }
  rewrite !(run_target_eq _ target url m Hurl).
  change (Primary.extracted (with_state_file w f)) with (Primary.extracted w).
  destruct (Primary.extracted w _ url _) as [e|items]; [done|].
  cbv zeta. destruct items as [|it0 items]; [done|].
  destruct (Primary.new_items_of _ _) as [|n1 new]; [done|].
  change (sorted_by_int (with_state_file w f)) with (sorted_by_int w).
  destruct (sorted_by_int w false (n1 :: new)) as [e|l]; [done|].
  unfold bind. by rewrite notify_state_file.
Qed.

(** The second run in a later process, which starts from the file
    the first one saved: nothing is new, as long as no source knows
    more than 3000 ids when the file is written. *)
Lemma second_process_finds_nothing_new (w : World) (target : Target) (m m1 : mem) :
  wf m →
  Primary.run_target w target m = (inr tt, m1) →
  (∀ name v, known name m1 = Some v → (size v ≤ 3000)%nat) →
  ∃ m0 r m2 evs,
    load_state (with_state_file w (FileJson (compact m1))) boot = (inr tt, m0)
    ∧ Primary.run_target (with_state_file w (FileJson (compact m1))) target m0 = (r, m2)
    ∧ trace m2 = trace m0 ++ evs
    ∧ Forall (λ e, is_new_item_event e = false) evs.
Proof.
  intros Hwf Hrun Hsize.
  destruct (run_target_inv w target m Hwf) as (r1 & m1' & evs1 & Hrun' & Hwf1 & _).
  rewrite Hrun in Hrun'. injection Hrun' as <- <-.
  destruct (reload_known w m1 Hwf1 Hsize) as (m0 & Hload & Hwf0 & Hknown).
  exists m0. rewrite run_target_state_file.
  destruct (t_url target) as [url|] eqn:Hurl.
  2:{ unfold Primary.run_target in Hrun. by rewrite Hurl in Hrun. }
  set (name := default unknown (t_name target)).
  set (ttype := default Primary.html_list_number_id (t_type target)).
  set (latest_n := default 30%Z (t_latest_n target)).
  destruct (Primary.extracted w ttype url latest_n) as [e|items] eqn:Hex.
  { rewrite (run_target_eq w target url m Hurl) in Hrun.
    fold name ttype latest_n in Hrun. by rewrite Hex in Hrun. }
  pose proof (run_target_learns w target url m m1 items Hwf Hurl Hex Hrun) as Hlearn.
  fold name in Hlearn. rewrite <-Hknown in Hlearn.
  destruct (run_when_nothing_new w target url m0 items Hurl Hex Hlearn)
    as (r & m2 & evs & Hrun2 & Htr & Hev & _).
  by exists r, m2, evs.
Qed.

(** ** Remarks on the two passes and on long numbers *)

(** The second pass of [parse_html_list_number_id], which starts from
    the links, has a rule of its own for the URL: the href, stripped
    and resolved, unless it is empty or a javascript: URL, and the
    URL of the listing otherwise; the onclick attribute is not read. *)
Lemma link_row_item_url (w : World) (target_url final_url : str)
    (p : node * option node) (it : Item) :
  Primary.link_row_item w target_url final_url p = Some it →
  let href := strip (default [] (get_attr href_attr p.1)) in
  url it = if bool_decide (href ≠ []) && negb (lower_startswith javascript href)
           then urljoin w final_url href else target_url.
Proof.
  unfold Primary.link_row_item. case_bool_decide as Ht; [done|].
  destruct p.2 as [row|]; [|done].
  destruct (find_all td row) as [|td0 tds]; [done|].
  destruct (isdigit (get_text_strip td0)); [|done]. simpl.
  by intros [= <-].
Qed.

(** Under the limit of 4300 digits that CPython sets by default, a
    key of 4301 digits makes the parser of a link strategy raise as
    well, though [\d+] matched it. *)
Lemma long_number_raises :
  let w := Samples.world Samples.page_long_number Samples.delivered in
  (Primary.parse_html_link_with_key w Samples.listing_url 30 boot).1
  = inl (ValueError_int Samples.long_number).
Proof. vm_compute. reflexivity. Qed.

(** * Further properties of the code *)

(** ** The state file, written and read again *)

(** A key that is new to the dictionary goes to its end. *)
Lemma dict_set_fresh {V} (k : str) (v : V) (d : list (str * V)) :
  k ∉ PyDict.keys d → PyDict.set k v d = d ++ [(k, v)].
Proof.
  unfold PyDict.keys. induction d as [|[k' v'] d IH]; intros Hk; [done|].
  rewrite fmap_cons in Hk. apply not_elem_of_cons in Hk as [Hne Hk]. simpl in *.
  rewrite decide_False by done. by rewrite IH.
Qed.

(** The list written for a set is the list written for the set of its
    own elements: a list that was cut is not cut again. *)
Lemma compact_ids_idem (v : gset str) :
  compact_ids (list_to_set (compact_ids v)) = compact_ids v.
Proof.
  set (l := compact_ids v).
  assert (StronglySorted (λ a b, str_lt b a = true) l) as Hs.
  { unfold l, compact_ids. eapply sublist_StronglySorted; [apply sublist_take|].
    apply sorted_ids_desc. }
  assert (NoDup l) as Hnd.
  { unfold l, compact_ids. eapply sublist_NoDup; [|apply sublist_take].
    rewrite stable_sort_perm. apply NoDup_elements. }
  assert (length l ≤ 3000)%nat as Hlen.
  { unfold l, compact_ids. rewrite length_take. lia. }
  unfold compact_ids at 1.
  set (l' := stable_sort (λ a b, str_lt b a) (elements (list_to_set l : gset str))).
  assert (l' = l) as ->.
  { apply (StronglySorted_unique_strong (λ a b, str_lt b a = true)).
    - intros x y _ _ H1 H2. apply str_lt_asym in H1. congruence.
    - apply sorted_ids_desc.
    - done.
    - unfold l'. rewrite stable_sort_perm. by apply elements_list_to_set. }
  by apply take_ge.
Qed.

(** Every reference of a well formed state mapping points into the heap. *)
Lemma state_refs_valid (m : mem) :
  wf m → Forall (λ kr, (kr.2 < length (heap m))%nat) (state m).
Proof.
  intros [Hnd Hwf]. apply Forall_forall. intros [k r] Hin. simpl.
  apply (Hwf k). by apply dict_get_elem_of.
Qed.

(** A new set object does not change what is written for the sets
    that were there. *)
Lemma compact_alloc (m m1 : mem) (st : list (str * nat)) (s : gset str) :
  heap m1 = heap m ++ [s] →
  Forall (λ kr, (kr.2 < length (heap m))%nat) st →
  (λ kr, (kr.1, compact_ids (deref kr.2 m1))) <$> st
  = (λ kr, (kr.1, compact_ids (deref kr.2 m))) <$> st.
Proof.
  intros Hh Hst. apply Forall_fmap_ext. eapply Forall_impl; [exact Hst|].
  intros [k r] Hr. simpl in *. unfold deref. by rewrite Hh, lookup_app_l.
Qed.

(** What is written after the entries of a file were loaded: what
    was written before, then one list for each entry of the file. *)
Lemma load_entries_compact (raw : list (str * list str)) (m : mem) :
  wf m → NoDup raw.*1 → (∀ k, k ∈ raw.*1 → k ∉ PyDict.keys (state m)) →
  ∃ m', load_entries raw m = (inr tt, m')
        ∧ compact m'
          = compact m ++ ((λ kv, (kv.1, compact_ids (list_to_set kv.2))) <$> raw).
Proof.
  revert m. induction raw as [|[k v] raw IH]; intros m Hwf Hnd Hfresh; simpl.
  { exists m. by rewrite app_nil_r. }
  apply NoDup_cons in Hnd as [Hk Hnd].
  unfold bind, alloc, state_set. simpl.
  set (m1 := Mem (PyDict.set k (length (heap m)) (state m)) (heap m ++ [list_to_set v])
               (trace m) (posts m)).
  assert (k ∉ PyDict.keys (state m)) as Hkm by (apply Hfresh, list_elem_of_here).
  assert (state m1 = state m ++ [(k, length (heap m))]) as Hst1.
  { unfold m1. simpl. by apply dict_set_fresh. }
  assert (wf m1) as Hwf1.
  { split; [apply dict_NoDup_set, Hwf|].
    intros name r. simpl. destruct (decide (k = name)) as [->|Hne].
    - rewrite dict_get_set_eq. intros [= <-]. rewrite length_app. simpl. lia.
    - rewrite dict_get_set_ne by done. intros Hget. apply (proj2 Hwf) in Hget.
      rewrite length_app. lia. }
  destruct (IH m1 Hwf1 Hnd) as (m' & Hl & Hc).
  { intros k' Hk'. rewrite Hst1. unfold PyDict.keys. rewrite fmap_app.
    rewrite not_elem_of_app. split.
    - apply Hfresh. by apply list_elem_of_further.
    - simpl. rewrite list_elem_of_singleton. by intros ->. }
  exists m'. split; [done|]. rewrite Hc. unfold compact at 1. rewrite Hst1, fmap_app.
  rewrite <-app_assoc. f_equal.
  - by apply (compact_alloc m m1 _ (list_to_set v)), state_refs_valid.
  - simpl. do 3 f_equal. unfold deref, m1. simpl.
    by rewrite lookup_app_r, Nat.sub_diag.
Qed.

(** X1.  What [save_state] writes, [load_state] reads back: for every
    source the ids that were written, which are all the known ids of
    a source that knows 3000 ids or less and the 3000 greatest as
    strings otherwise; and a [save_state] that follows writes the
    same file again. *)
Theorem saved_state_loads_back (w : World) (m : mem) :
  wf m →
  ∃ m',
    load_state (with_state_file w (FileJson (compact m))) boot = (inr tt, m')
    ∧ compact m' = compact m
    ∧ (∀ name, known name m' = (λ v, list_to_set (compact_ids v)) <$> known name m)
    ∧ (∀ name v v',
         known name m = Some v → known name m' = Some v' →
         v' ⊆ v ∧ ((size v ≤ 3000)%nat → v' = v)).
Proof.
  intros Hwf. unfold load_state. simpl.
  assert (NoDup (compact m).*1) as Hnd.
  { unfold compact. rewrite <-list_fmap_compose. apply Hwf. }
  destruct (load_entries_compact (compact m) boot wf_boot Hnd) as (m' & Hl & Hc).
  { intros k _. apply not_elem_of_nil. }
  destruct (load_entries_known (compact m) boot wf_boot Hnd) as (m'' & Hl' & _ & Hknown).
  rewrite Hl in Hl'. injection Hl' as <-.
  assert (∀ name, known name m' = (λ v, list_to_set (compact_ids v)) <$> known name m)
    as Hk.
  { intros name. rewrite Hknown, compact_get. by destruct (known name m). }
  exists m'. split_and!; [done| |done|].
  - rewrite Hc. simpl. unfold compact. rewrite <-list_fmap_compose.
    apply list_fmap_ext. intros i [k r] _. simpl. by rewrite compact_ids_idem.
  - intros name v v' Hv Hv'. rewrite Hk, Hv in Hv'. injection Hv' as <-. split.
    + intros x Hx. apply elem_of_list_to_set in Hx. unfold compact_ids in Hx.
      apply elem_of_take in Hx as (i & Hx & _). apply list_elem_of_lookup_2 in Hx.
      rewrite stable_sort_perm in Hx. by apply elem_of_elements in Hx.
    + apply list_to_set_compact_ids.
Qed.

(** A state mapping whose one source knows the ids 9 and 10. *)
Lemma saved_state_loads_back_witness :
  ∃ m',
    load_state
      (with_state_file (Samples.world Samples.page_two Samples.delivered)
         (FileJson (compact Cases.knows_9_10)))
      boot = (inr tt, m')
    ∧ compact m' = [(lit "notice", [lit "9"; lit "10"])].
Proof.
  destruct (saved_state_loads_back (Samples.world Samples.page_two Samples.delivered)
              Cases.knows_9_10)
    as (m' & Hl & Hc & _).
  - split; [apply NoDup_singleton|]. intros name r. simpl.
    destruct (decide _); [|done]. intros [= <-]. lia.
  - exists m'. split; [exact Hl|]. rewrite Hc. vm_compute. reflexivity.
Defined.

(** ** Ids of one length in the state file *)

(** The decimal value of an ASCII digit. *)
Lemma decimal_value_ascii (c : char) :
  ascii_digit c = true → decimal_value c = Some (c - 48).
Proof.
  unfold ascii_digit. intros [H1 H2]%andb_true_iff.
  apply N.leb_le in H1, H2.
  assert (c = 48 ∨ c = 49 ∨ c = 50 ∨ c = 51 ∨ c = 52 ∨ c = 53 ∨ c = 54 ∨ c = 55
          ∨ c = 56 ∨ c = 57) as Hc by lia.
  repeat destruct Hc as [->|Hc]; try reflexivity. by subst.
Qed.

Lemma ascii_digit_decimal (s : str) :
  forallb ascii_digit s = true → forallb isdecimal_char s = true.
Proof.
  intros H. apply forallb_Forall. apply forallb_Forall in H.
  eapply Forall_impl; [exact H|]. intros c Hc. unfold isdecimal_char.
  by rewrite (decimal_value_ascii c Hc).
Qed.

(** The value that the loop of [int] builds from ASCII digits. *)
Lemma int_digits_ascii (s : str) (prev : bool) (acc : Z) (n : N) :
  forallb ascii_digit s = true → s ≠ [] ∨ prev = true →
  int_digits prev acc n s
  = Some (foldl (λ acc c, (10 * acc + Z.of_N (c - 48))%Z) acc s, n + N.of_nat (length s)).
Proof.
  revert prev acc n. induction s as [|c s IH]; intros prev acc n Hs Hne.
  { destruct Hne as [?| ->]; [done|]. simpl. do 2 f_equal. lia. }
  simpl in Hs. apply andb_true_iff in Hs as [Hc Hs]. simpl.
  assert ((c =? underscore) = false) as ->.
  { apply N.eqb_neq. intros ->. done. }
  rewrite (decimal_value_ascii c Hc).
  rewrite (IH true _ _ Hs (or_intror eq_refl)). do 2 f_equal. lia.
Qed.

(** [int] reads a string of ASCII digits as the number it writes. *)
Lemma int_of_str_ascii (max_str_digits : N) (s : str) :
  s ≠ [] → forallb ascii_digit s = true →
  max_str_digits = 0 ∨ N.of_nat (length s) ≤ max_str_digits →
  int_of_str max_str_digits s = Some (ascii_number s).
Proof.
  intros Hne Hs Hmax. unfold int_of_str.
  pose proof (ascii_digit_decimal s Hs) as Hd.
  destruct s as [|c s]; [done|].
  pose proof Hd as Hd'. simpl in Hd'. apply andb_true_iff in Hd' as [Hc _].
  simpl drop_while. rewrite (decimal_not_blank c Hc).
  destruct (decimal_not_mark c Hc) as (H45 & H43 & _).
  apply N.eqb_neq in H45, H43. rewrite H45, H43.
  rewrite (span_all _ (c :: s)).
  2:{ apply forallb_Forall. apply forallb_Forall in Hd.
      eapply Forall_impl; [exact Hd|]. intros x Hx. simpl. by rewrite Hx, orb_true_r. }
  simpl drop_while.
  rewrite (int_digits_ascii (c :: s) false 0 0 Hs (or_introl Hne)).
  rewrite N.add_0_l.
  destruct ((0 <? max_str_digits) && (max_str_digits <? N.of_nat (length (c :: s))))
    eqn:Hlim; [|done].
  apply andb_true_iff in Hlim as [H0 H1].
  apply N.ltb_lt in H0, H1. lia.
Qed.

(** The number of a string of [n] digits lies below the n-th power of
    ten, and digits that come before it count that many times more. *)
Lemma ascii_number_acc (s : str) (acc : Z) :
  forallb ascii_digit s = true →
  (foldl (λ acc c, (10 * acc + Z.of_N (c - 48))%Z) acc s
   = acc * 10 ^ Z.of_nat (length s) + ascii_number s
   ∧ 0 ≤ ascii_number s < 10 ^ Z.of_nat (length s))%Z.
Proof.
  unfold ascii_number. revert acc. induction s as [|c s IH]; intros acc Hs.
  { simpl. lia. }
  simpl in Hs. apply andb_true_iff in Hs as [Hc Hs].
  unfold ascii_digit in Hc. apply andb_true_iff in Hc as [H1 H2].
  apply N.leb_le in H1, H2.
  cbn [foldl length].
  destruct (IH (10 * acc + Z.of_N (c - 48))%Z Hs) as [E1 B1].
  destruct (IH (10 * 0 + Z.of_N (c - 48))%Z Hs) as [E2 _].
  rewrite E1, E2. rewrite Nat2Z.inj_succ, Z.pow_succ_r by lia.
  split; [lia|]. nia.
Qed.

(** Between two strings of ASCII digits of one length, the order of
    strings is the order of numbers. *)
Lemma str_lt_ascii_number (a b : str) :
  length a = length b →
  forallb ascii_digit a = true → forallb ascii_digit b = true →
  str_lt a b = true → (ascii_number a < ascii_number b)%Z.
Proof.
  revert b. induction a as [|x a IH]; intros [|y b] Hlen Ha Hb; simpl; try done.
  simpl in Hlen. injection Hlen as Hlen.
  pose proof Ha as Ha'. pose proof Hb as Hb'.
  simpl in Ha', Hb'. apply andb_true_iff in Ha' as [Hx Ha'], Hb' as [Hy Hb'].
  destruct (ascii_number_acc (x :: a) 0 Ha) as [_ _].
  unfold ascii_number. cbn [foldl].
  destruct (ascii_number_acc a (10 * 0 + Z.of_N (x - 48))%Z Ha') as [-> _].
  destruct (ascii_number_acc b (10 * 0 + Z.of_N (y - 48))%Z Hb') as [-> _].
  destruct (ascii_number_acc a 0 Ha') as [_ Ba].
  destruct (ascii_number_acc b 0 Hb') as [_ Bb].
  unfold ascii_digit in Hx, Hy.
  apply andb_true_iff in Hx as [Hx1 Hx2], Hy as [Hy1 Hy2].
  apply N.leb_le in Hx1, Hx2, Hy1, Hy2.
  rewrite Hlen in Ba. rewrite Hlen.
  rewrite orb_true_iff, andb_true_iff, N.ltb_lt, N.eqb_eq.
  intros [Hxy|[-> Hab]].
  - nia.
  - specialize (IH b Hlen Ha' Hb' Hab). lia.
Qed.

(** X2.  When the known ids of a source are strings of ASCII digits of
    one length, the order of strings that [save_state] sorts by is
    the order of the numbers that the parsers sort by: the list that
    is written is in descending order of the key of the ids, and an
    id that the cap leaves out is a smaller number than every id that
    is kept. *)
Theorem ids_of_one_length_saved_newest_first (max_str_digits : N) (v : gset str)
    (n : nat) :
  (0 < n)%nat →
  max_str_digits = 0 ∨ N.of_nat n ≤ max_str_digits →
  (∀ x : str, x ∈ v → length x = n ∧ forallb ascii_digit x = true) →
  ids_descending max_str_digits (compact_ids v)
  ∧ ∀ x y, x ∈ v → x ∉ compact_ids v → y ∈ compact_ids v →
      ∃ zx zy, int_of_str max_str_digits x = Some zx
               ∧ int_of_str max_str_digits y = Some zy ∧ (zx < zy)%Z.
Proof.
  intros Hn Hmax Hv.
  set (l := stable_sort (λ a b, str_lt b a) (elements v)).
  pose proof (sorted_ids_desc v) as Hs. fold l in Hs.
  assert (∀ x, x ∈ l ↔ x ∈ v) as Hl.
  { intros x. unfold l. rewrite stable_sort_perm. apply elem_of_elements. }
  assert (∀ x, x ∈ v → int_of_str max_str_digits x = Some (ascii_number x)) as Hint.
  { intros x Hx. destruct (Hv x Hx) as [Hlen Hd].
    apply int_of_str_ascii.
    - intros ->. simpl in Hlen. lia.
    - done.
    - rewrite Hlen. exact Hmax. }
  assert (∀ x, x ∈ v → id_key max_str_digits x = inr (KInt (ascii_number x))) as Hkey.
  { intros x Hx. destruct (Hv x Hx) as [Hlen Hd]. apply id_key_int; [|by apply Hint].
    apply isdecimal_isdigit; [|by apply ascii_digit_decimal].
    intros ->. simpl in Hlen. lia. }
  assert (∀ x y, x ∈ v → y ∈ v → str_lt x y = true →
                 (ascii_number x < ascii_number y)%Z) as Hlt.
  { intros x y Hx Hy. destruct (Hv x Hx) as [Hlx Hdx], (Hv y Hy) as [Hly Hdy].
    apply str_lt_ascii_number; [congruence|done..]. }
  split.
  - unfold ids_descending, compact_ids. fold l.
    eapply sublist_StronglySorted; [apply sublist_take|].
    apply (StronglySorted_on (λ x, x ∈ v) (λ a b, str_lt b a = true)); [| |done].
    + intros a b Ha Hb Hba. exists (KInt (ascii_number b)), (KInt (ascii_number a)).
      rewrite !Hkey by done. split_and!; [done..|]. simpl. f_equal.
      apply Z.ltb_ge. specialize (Hlt b a Hb Ha Hba). lia.
    + apply Forall_forall. intros x. apply Hl.
  - intros x y Hx Hnx Hy. exists (ascii_number x), (ascii_number y).
    unfold compact_ids in Hnx, Hy. fold l in Hnx, Hy.
    assert (y ∈ v) as Hyv.
    { apply Hl. eapply elem_of_sublist; [done|apply sublist_take]. }
    rewrite !Hint by done. split_and!; [done..|].
    apply Hlt; [done..|].
    rewrite <-(take_drop 3000 l) in Hs.
    apply (StronglySorted_app_1_elem_of _ _ _ y x Hs); [done|].
    apply Hl in Hx. rewrite <-(take_drop 3000 l) in Hx.
    by apply elem_of_app in Hx as [Hx|Hx].
Qed.

(** The ids 09 and 10. *)
Lemma ids_of_one_length_witness :
  ids_descending 4300 (compact_ids {[ lit "09"; lit "10" ]}).
Proof.
  apply (ids_of_one_length_saved_newest_first 4300 {[ lit "09"; lit "10" ]} 2).
  - lia.
  - right. lia.
  - intros x [->%elem_of_singleton| ->%elem_of_singleton]%elem_of_union; by vm_compute.
Defined.

(** ** How many items a parser returns *)

Lemma dict_get_Some_elem_of {V} (k : str) (v : V) (d : list (str * V)) :
  PyDict.get k d = Some v → (k, v) ∈ d.
Proof.
  induction d as [|[k' v'] d IH]; simpl; [done|].
  destruct (decide (k' = k)) as [->|].
  - intros [= ->]. apply list_elem_of_here.
  - intros H. by apply list_elem_of_further, IH.
Qed.

(** The keys of a dictionary are the strings that it binds. *)
Lemma dict_keys_get {V} (k : str) (d : list (str * V)) :
  k ∈ PyDict.keys d ↔ is_Some (PyDict.get k d).
Proof.
  unfold PyDict.keys. induction d as [|[k' v'] d IH]; simpl.
  - split; [by intros ?%elem_of_nil|by intros [? ?]].
  - rewrite elem_of_cons. destruct (decide (k' = k)) as [->|Hne].
    + split; [by eexists|by left].
    + rewrite IH. split; [|by right]. by intros [->|?].
Qed.

(** A candidate of the page is kept under its id, be it in the
    version of a later candidate. *)
Lemma items_by_id_keeps (cands : list Item) (c : Item) :
  c ∈ cands →
  ∃ it, it ∈ PyDict.values (items_by_id_of cands) ∧ item_id it = item_id c.
Proof.
  intros Hc.
  destruct (last (filter (λ x, item_id x = item_id c) cands)) as [it|] eqn:Hlast.
  - exists it. split.
    + rewrite <-items_by_id_get in Hlast. apply dict_get_Some_elem_of in Hlast.
      apply list_elem_of_fmap. by exists (item_id c, it).
    + apply last_Some_elem_of, list_elem_of_filter in Hlast. tauto.
  - apply last_None in Hlast.
    assert (c ∈ filter (λ x, item_id x = item_id c) cands) as Hin
      by (by apply list_elem_of_filter).
    rewrite Hlast in Hin. by apply elem_of_nil in Hin.
Qed.

(** The dictionary of a pass has one entry for each id of the page. *)
Lemma items_by_id_count (cands : list Item) :
  length (PyDict.values (items_by_id_of cands)) = distinct_ids cands.
Proof.
  unfold distinct_ids.
  assert (list_to_set (item_id <$> cands)
          = (list_to_set (PyDict.keys (items_by_id_of cands)) : gset str)) as ->.
  { apply set_eq. intros k. rewrite !elem_of_list_to_set. split.
    - intros (c & -> & Hc)%list_elem_of_fmap.
      destruct (items_by_id_keeps cands c Hc) as (it & Hit & <-).
      rewrite <-items_by_id_values. by apply list_elem_of_fmap_2.
    - rewrite <-items_by_id_values. intros (it & -> & Hit)%list_elem_of_fmap.
      apply list_elem_of_fmap_2. by apply items_by_id_values_subseteq. }
  rewrite size_list_to_set by apply items_by_id_NoDup.
  unfold PyDict.values, PyDict.keys. by rewrite !length_fmap.
Qed.

(** The length of a slice. *)
Lemma slice_to_kept {A} (n : Z) (l : list A) :
  length (slice_to n l) = kept n (length l).
Proof.
  unfold slice_to, kept. destruct (0 <=? n)%Z eqn:Hn; rewrite length_take.
  - done.
  - apply Z.leb_gt in Hn. lia.
Qed.

(** X3.  A parser returns as many items as the page shows different
    ids, up to the limit: the smaller of the two numbers for a limit
    that is not negative (none at all for a limit of 0), and all but
    the last [-latest_n] for a negative one. *)
Theorem extraction_returns_limit_or_all :
  (∀ (w : World) (ttype url : str) (latest_n : Z) (m m' : mem) (items : list Item),
     Primary.select_parser w ttype url latest_n m = (inr items, m') →
     ∃ final_url soup,
       http_get w url = inr (final_url, soup)
       ∧ length items
         = kept latest_n (distinct_ids (Primary.candidates w ttype url final_url soup)))
  ∧ (∀ (w : World) (url key_pattern : str) (latest_n : Z) (m m' : mem)
       (items : list Item),
       Variant.parse_html_key_list w url key_pattern latest_n m = (inr items, m') →
       ∃ final_url soup,
         http_get w url = inr (final_url, soup)
         ∧ length items
           = kept latest_n (distinct_ids (Variant.candidates w url key_pattern soup))).
Proof.
  split.
  - intros w ttype url n m m' items Hrun.
    rewrite select_parser_eq in Hrun. injection Hrun as Hex _.
    apply extracted_inr in Hex as (final_url & soup & full & _ & Hget & Hsort & ->).
    exists final_url, soup. split; [done|].
    apply sorted_by_int_perm in Hsort.
    by rewrite slice_to_kept, Hsort, items_by_id_count.
  - intros w url key_pattern n m m' items Hrun.
    rewrite parse_html_key_list_eq in Hrun. injection Hrun as Hex _.
    apply variant_extracted_inr in Hex as (final_url & soup & full & Hget & Hsort & ->).
    exists final_url, soup. split; [done|].
    apply sorted_by_key_perm in Hsort.
    by rewrite slice_to_kept, Hsort, items_by_id_count.
Qed.

(** The listing with three different numbers in four rows, under a
    limit of two and under a limit of 0. *)
Lemma extraction_returns_limit_witness :
  length [Samples.item_10; Samples.item_9_again] = 2%nat ∧ length (@nil Item) = 0%nat.
Proof.
  split.
  - destruct (proj1 extraction_returns_limit_or_all
                (Samples.world Samples.page_twice Samples.delivered)
                Primary.html_list_number_id Samples.listing_url 2%Z boot
                (log (EvGet Samples.listing_url) boot)
                [Samples.item_10; Samples.item_9_again])
      as (final_url & soup & Hget & ->); [by vm_compute|].
    injection Hget as <- <-. by vm_compute.
  - destruct (proj1 extraction_returns_limit_or_all
                (Samples.world Samples.page_twice Samples.delivered)
                Primary.html_list_number_id Samples.listing_url 0%Z boot
                (log (EvGet Samples.listing_url) boot) [])
      as (final_url & soup & Hget & ->); [by vm_compute|].
    injection Hget as <- <-. by vm_compute.
Defined.

(** ** The ids of the variant *)

Lemma drop_while_Forall (P : char → Prop) (p : char → bool) (s : str) :
  Forall P s → Forall P (drop_while p s).
Proof.
  induction 1 as [|c s Hc Hs IH]; simpl; [done|].
  destruct (p c); [done|by constructor].
Qed.

Lemma drop_while_head (p : char → bool) (s : str) (c : char) :
  head (drop_while p s) = Some c → p c = false.
Proof.
  induction s as [|x s IH]; simpl; [done|].
  destruct (p x) eqn:Hx; [done|]. simpl. by intros [= <-].
Qed.

Lemma drop_while_last (p : char → bool) (s : str) (c : char) :
  last (drop_while p s) = Some c → last s = Some c.
Proof.
  induction s as [|x s IH]; simpl; [done|].
  destruct (p x); [|done]. intros H. specialize (IH H).
  destruct s; [done|]. done.
Qed.

(** What [strip] returns keeps to the characters of the string and
    neither starts nor ends with white space. *)
Lemma strip_Forall (P : char → Prop) (s : str) : Forall P s → Forall P (strip s).
Proof.
  intros H. unfold strip, rstrip, lstrip.
  apply Forall_reverse, drop_while_Forall, Forall_reverse. by apply drop_while_Forall.
Qed.

Lemma strip_head (s : str) (c : char) : head (strip s) = Some c → isspace_char c = false.
Proof.
  unfold strip, rstrip, lstrip. rewrite head_reverse. intros H.
  apply drop_while_last in H. rewrite last_reverse in H.
  by apply drop_while_head in H.
Qed.

Lemma strip_last (s : str) (c : char) : last (strip s) = Some c → isspace_char c = false.
Proof.
  unfold strip, rstrip, lstrip. rewrite last_reverse. apply drop_while_head.
Qed.

(** X4.  The id that the variant takes out of a link is what follows
    the key pattern up to the next [&] or [#], stripped: it holds
    neither of these two characters and neither starts nor ends with
    white space. *)
Theorem variant_ids_are_trimmed (w : World) (base key_pattern : str) (soup : node) :
  Forall (λ it, Forall (λ c, c ≠ 38 ∧ c ≠ 35) (item_id it)
                ∧ (∀ c, head (item_id it) = Some c → isspace_char c = false)
                ∧ (∀ c, last (item_id it) = Some c → isspace_char c = false))
    (Variant.key_candidates w base key_pattern soup).
Proof.
  apply Forall_forall. intros it Hin.
  apply list_elem_of_omap in Hin as (a & _ & Ha).
  revert Ha. unfold Variant.key_item.
  destruct (re_search _ _ _) as [g|] eqn:Hre; [|done].
  case_bool_decide; [done|]. intros [= <-]. simpl.
  apply re_search_group in Hre as [_ Hg]. split_and!.
  - apply strip_Forall. apply forallb_Forall in Hg.
    eapply Forall_impl; [exact Hg|]. intros c Hc. unfold Variant.id_char in Hc.
    apply negb_true_iff, orb_false_iff in Hc as [H1 H2].
    by apply N.eqb_neq in H1, H2.
  - apply strip_head.
  - apply strip_last.
Qed.

(** ** Numbers and words among the ids of the variant *)

(** A sort that fails on its keys fails on the key of an element. *)
Lemma with_keys_inl {A K} (key : A → exn + K) (l : list A) (e : exn) :
  with_keys key l = inl e → ∃ x, x ∈ l ∧ key x = inl e.
Proof.
  induction l as [|x l IH]; simpl; [done|].
  destruct (key x) as [e'|k] eqn:Hk.
  - intros [= ->]. exists x. split; [apply list_elem_of_here|done].
  - destruct (with_keys key l) as [e'|kl]; [|done].
    intros [= ->]. destruct (IH eq_refl) as (y & Hy & Hkey).
    exists y. split; [by apply list_elem_of_further|done].
Qed.

(** X5.  A listing of the variant that shows an id that [isdigit] and
    an id that does not makes the parser raise: the sort compares a
    number with a string ([TypeError]), unless [int] refused one of
    the ids before ([ValueError]). *)
Theorem variant_mixed_ids_raise (w : World) (url key_pattern final_url : str)
    (soup : node) (latest_n : Z) (a b : Item) (m : mem) :
  http_get w url = inr (final_url, soup) →
  a ∈ Variant.candidates w url key_pattern soup →
  b ∈ Variant.candidates w url key_pattern soup →
  isdigit (item_id a) = true →
  isdigit (item_id b) = false →
  ∃ e, Variant.parse_html_key_list w url key_pattern latest_n m
       = (inl e, log (EvGet url) m)
       ∧ (e = TypeError_lt ∨ ∃ id, e = ValueError_int id).
Proof.
  intros Hget Ha Hb Hda Hdb. rewrite parse_html_key_list_eq.
  unfold Variant.extracted. rewrite Hget. unfold Variant.newest_first.
  set (cands := Variant.candidates w url key_pattern soup) in *.
  destruct (items_by_id_keeps cands a Ha) as (a' & Ha' & Hida).
  destruct (items_by_id_keeps cands b Hb) as (b' & Hb' & Hidb).
  destruct (Variant.sorted_by_key w true (PyDict.values (items_by_id_of cands)))
    as [e|full] eqn:Hsort.
  - exists e. split; [done|]. revert Hsort. unfold Variant.sorted_by_key.
    destruct (with_keys _ _) as [e'|kl] eqn:Hk.
    + intros [= ->]. apply with_keys_inl in Hk as (x & _ & Hx). right.
      revert Hx. unfold Variant.sort_key, id_key.
      destruct (isdigit (item_id x)); [|done].
      destruct (int_of_str _ _); [done|]. intros [= <-]. by eexists.
    + destruct (_ && _); [|done]. intros [= <-]. by left.
  - exfalso. apply sorted_by_key_uniform in Hsort as [k Hu].
    rewrite Forall_forall in Hu.
    destruct (Hu a' Ha') as (ka & Hka & Hkinda).
    destruct (Hu b' Hb') as (kb & Hkb & Hkindb).
    revert Hka Hkb. unfold Variant.sort_key, id_key. rewrite Hida, Hidb, Hda, Hdb.
    destruct (int_of_str _ _); [|done].
    intros [= <-] [= <-]. simpl in *. congruence.
Qed.

(** A listing with the keys 47 and intro. *)
Lemma variant_mixed_ids_witness :
  ∃ e, Variant.parse_html_key_list (Samples.world Cases.page_mixed Samples.delivered)
         Samples.listing_url Variant.default_key_pattern 30 boot
       = (inl e, log (EvGet Samples.listing_url) boot)
       ∧ (e = TypeError_lt ∨ ∃ id, e = ValueError_int id).
Proof.
  apply (variant_mixed_ids_raise (Samples.world Cases.page_mixed Samples.delivered)
           Samples.listing_url Variant.default_key_pattern Samples.listing_url
           Cases.page_mixed 30 Samples.item_47 Cases.item_intro boot).
  - reflexivity.
  - vm_compute. apply list_elem_of_here.
  - vm_compute. apply list_elem_of_further, list_elem_of_here.
  - reflexivity.
  - reflexivity.
Defined.

(** ** One run of a source in the variant *)

(** [run_target] of the variant, step by step. *)
Lemma variant_run_target_eq (w : World) (target : Target) (name url : str) (m : mem) :
  t_name target = Some name → t_url target = Some url →
  let ttype := default Variant.html_key_list (t_type target) in
  let latest_n := default 30%Z (t_latest_n target) in
  let key_pattern := default Variant.default_key_pattern (t_key_pattern target) in
  let m0 := Mem (state m) (heap m ++ [∅]) (trace m) (posts m) in
  let seen := default (length (heap m)) (PyDict.get name (state m)) in
  Variant.run_target w target m
  = if bool_decide (ttype = Variant.html_key_list) then
      match Variant.extracted w url key_pattern latest_n with
      | inl e => (inl e, log (EvGet url) m0)
      | inr items =>
          match Variant.new_items_of (default ∅ (known name m)) items with
          | [] => (inr tt, log (EvPrint (LNoNew name)) (log (EvGet url) m0))
          | new_items =>
              match Variant.sorted_by_key w false new_items with
              | inl e => (inl e, log (EvGet url) m0)
              | inr l =>
                  (Variant.notify w name seen l ;; state_set name seen)
                    (log (EvGet url) m0)
              end
          end
      end
    else (inl (ValueError_type ttype), m0).
Proof.
  intros Hname Hurl. simpl. unfold Variant.run_target. rewrite Hname, Hurl.
  unfold bind at 1. unfold ret at 1.
  unfold bind at 1. unfold ret at 1.
  unfold bind at 1. unfold state_get_or_new, new_set, alloc, bind at 1. simpl.
  unfold bind at 1. case_bool_decide as Ht; [|done].
  rewrite parse_html_key_list_eq.
  destruct (Variant.extracted _ _ _ _) as [e|items]; [done|].
  unfold bind at 1. unfold read_set at 1.
  rewrite (seen_set_eq _ m) by done.
  destruct (Variant.new_items_of _ _) as [|n1 new_items] eqn:Hnew; [done|].
  unfold bind at 1. unfold lift at 1.
  by destruct (Variant.sorted_by_key w false (n1 :: new_items)).
Qed.

(** X6.  The variant has no warning for a page on which no item is
    found: when its parser returns an empty list, the run requests the
    page, prints that there are no new items and returns; nothing is
    sent, and the known ids are what they were. *)
Theorem variant_empty_extraction_is_silent (w : World) (target : Target)
    (name url : str) (m : mem) :
  let latest_n := default 30%Z (t_latest_n target) in
  let key_pattern := default Variant.default_key_pattern (t_key_pattern target) in
  t_name target = Some name →
  t_url target = Some url →
  default Variant.html_key_list (t_type target) = Variant.html_key_list →
  (Variant.parse_html_key_list w url key_pattern latest_n m).1 = inr [] →
  ∃ m',
    Variant.run_target w target m = (inr tt, m')
    ∧ trace m' = trace m ++ [EvGet url; EvPrint (LNoNew name)]
    ∧ posts m' = posts m
    ∧ state m' = state m
    ∧ (∀ name', known name' m' = known name' m).
Proof.
  intros latest_n key_pattern Hname Hurl Htype Hex.
  rewrite parse_html_key_list_eq in Hex. simpl in Hex.
  rewrite (variant_run_target_eq w target name url m Hname Hurl).
  rewrite bool_decide_eq_true_2 by done.
  fold latest_n key_pattern. rewrite Hex. simpl.
  eexists. split; [done|]. simpl. split_and!; [|done..|].
  - by rewrite <-!app_assoc.
  - intros name'. by apply known_heap_app.
Qed.

(** A listing without links. *)
Lemma variant_empty_extraction_witness :
  ∃ m',
    Variant.run_target (Samples.world (Samples.page []) Samples.delivered)
      Samples.source boot = (inr tt, m')
    ∧ trace m' = trace boot ++ [EvGet Samples.listing_url; EvPrint (LNoNew (lit "notice"))].
Proof.
  destruct (variant_empty_extraction_is_silent
              (Samples.world (Samples.page []) Samples.delivered)
              Samples.source (lit "notice") Samples.listing_url boot)
    as (m' & Hrun & Htr & _); [reflexivity..|].
  by exists m'.
Defined.

(** ** A run of a source whose messages are all taken *)

(** A message that is taken: [telegram_send] returns, and the POST
    (or the printed line) is all that happened. *)
Lemma telegram_send_accepted (w : World) (t : text) (m : mem) :
  accepting w →
  Primary.telegram_send w t m
  = (inr tt,
     Mem (state m) (heap m)
       (trace m ++ [if configured w then EvPost t true else EvPrint (LSkipped t)])
       (if configured w then S (posts m) else posts m)).
Proof.
  intros Hacc. unfold Primary.telegram_send.
  destruct (configured w) eqn:Hc; simpl; [|reflexivity].
  destruct Hacc as [?|Hacc]; [congruence|]. by rewrite Hacc.
Qed.

(** The loop that notifies when every message is taken: it returns,
    and each item left its three events and its id in the set. *)
Lemma notify_accepted (w : World) (name : str) (seen : nat) (l : list Item) (m : mem) :
  accepting w → (seen < length (heap m))%nat →
  ∃ m',
    Primary.notify w name seen l m = (inr tt, m')
    ∧ state m' = state m ∧ length (heap m') = length (heap m)
    ∧ (∀ r', r' ≠ seen → deref r' m' = deref r' m)
    ∧ trace m' = trace m ++ flat_map (sent_events w name) l
    ∧ deref seen m' = deref seen m ∪ list_to_set (item_id <$> l).
Proof.
  intros Hacc. revert m. induction l as [|it l IH]; intros m Hseen.
  { exists m. simpl. unfold ret. split_and!; try done.
    - by rewrite app_nil_r.
    - by rewrite (right_id_L ∅ (∪)). }
  simpl. unfold bind at 1. rewrite (telegram_send_accepted w _ m Hacc).
  unfold_monad.
  match goal with
  | |- context [Primary.notify _ _ _ _ ?mm] => set (m1 := mm)
  end.
  destruct (IH m1) as (m' & Hn & Hst & Hlen & Hoth & Htr & Hd).
  { simpl. by rewrite length_insert. }
  exists m'. split; [done|]. split_and!.
  - by rewrite Hst.
  - by rewrite Hlen; simpl; rewrite length_insert.
  - intros r' Hr'. rewrite (Hoth r' Hr'). unfold deref. simpl.
    by rewrite list_lookup_insert_ne.
  - rewrite Htr. simpl. by rewrite <-!app_assoc.
  - rewrite Hd. unfold deref at 1. simpl.
    rewrite list_lookup_insert_eq by done. simpl.
    apply set_eq. intros x. rewrite !elem_of_union. unfold deref. tauto.
Qed.

(** The items of a list that a parser returned carry ids that
    [isdigit] and that [int] reads. *)
Lemma extracted_items_ok (w : World) (ttype url : str) (n : Z) (items : list Item) :
  Primary.extracted w ttype url n = inr items →
  Forall (λ it, isdigit (item_id it) = true ∧ ∃ z, int_key w it = inr z) items.
Proof.
  intros Hex.
  apply extracted_inr in Hex as (final_url & soup & full & _ & Hget & Hsort & ->).
  apply (sublist_Forall _ _ full); [apply slice_to_sublist|].
  pose proof (sorted_by_int_perm _ _ _ _ Hsort) as Hperm.
  pose proof (sorted_by_int_defined _ _ _ _ Hsort) as Hdef.
  rewrite Hperm. rewrite Forall_forall in Hdef. apply Forall_forall. intros it Hin.
  split; [|by apply Hdef].
  apply items_by_id_values_subseteq in Hin.
  pose proof (candidates_ok w ttype url final_url soup) as Hok.
  rewrite Forall_forall in Hok. by apply Hok.
Qed.

(** X7.  A run of a source whose parser returns items and whose
    messages are all taken: the page is requested once and the count
    is printed; then, for each item whose id is not known, in
    ascending order of the ids as numbers, the message, the line that
    it was sent and the pause, or the line that nothing is new when
    every id is known.  The run returns, and the source then knows
    the ids it knew and the ids of these items. *)
Theorem run_target_notifies_oldest_first (w : World) (target : Target) (url : str)
    (m : mem) (items : list Item) :
  let name := default unknown (t_name target) in
  let ttype := default Primary.html_list_number_id (t_type target) in
  let latest_n := default 30%Z (t_latest_n target) in
  wf m →
  accepting w →
  t_url target = Some url →
  (Primary.select_parser w ttype url latest_n m).1 = inr items →
  items ≠ [] →
  ∃ out m',
    sorted_by_int w false (Primary.new_items_of (default ∅ (known name m)) items)
    = inr out
    ∧ ascending w out
    ∧ Primary.run_target w target m = (inr tt, m')
    ∧ trace m'
      = trace m
        ++ [ EvGet url;
             EvPrint (LFetched name (length items)
                        ((λ it, (item_id it, title it)) <$> take 5 items)) ]
        ++ match out with
           | [] => [EvPrint (LNoNew name)]
           | _ => flat_map (sent_events w name) out
           end
    ∧ default ∅ (known name m')
      = default ∅ (known name m) ∪ list_to_set (item_id <$> out).
Proof.
  intros name ttype latest_n Hwf Hacc Hurl Hex Hne.
  rewrite select_parser_eq in Hex. simpl in Hex.
  pose proof (extracted_items_ok _ _ _ _ _ Hex) as Hok.
  pose proof (extracted_supported _ _ _ _ _ Hex) as Hsup.
  set (S0 := default ∅ (known name m)).
  assert (Primary.new_items_of S0 items `sublist_of` items) as Hsub
    by apply sublist_filter.
  destruct (sorted_by_int_total w false (Primary.new_items_of S0 items)) as [out Hout].
  { apply (sublist_Forall _ _ _ Hsub). eapply Forall_impl; [exact Hok|]. by intros it [_ ?]. }
  assert (ascending w out) as Hasc.
  { apply (sorted_by_int_sorted w false _ _ Hout).
    apply (sublist_Forall _ _ _ Hsub). eapply Forall_impl; [exact Hok|]. by intros it [? _]. }
  pose proof (sorted_by_int_perm _ _ _ _ Hout) as Hperm.
  exists out.
  rewrite (run_target_eq w target url m Hurl). fold name ttype latest_n S0.
  rewrite Hex. cbv zeta.
  set (m0 := Mem (state m) (heap m ++ [∅]) (trace m) (posts m)).
  destruct (fetched_state ttype url m0) as [Hfs Hfh]. simpl in Hfs, Hfh.
  assert (trace (Primary.fetched ttype url m0) = trace m ++ [EvGet url]) as Hft.
  { unfold Primary.fetched. by rewrite Hsup. }
  destruct items as [|it0 items]; [done|].
  destruct (Primary.new_items_of S0 (it0 :: items)) as [|n1 new] eqn:Hnew.
  - apply Permutation_nil_r in Hperm as ->.
    eexists. split_and!; [done..| |].
    + simpl. rewrite Hft. by rewrite <-!app_assoc.
    + simpl. rewrite (right_id_L ∅ (∪)). f_equal. by apply known_heap_app.
  - rewrite Hout. unfold bind.
    set (seen := default (length (heap m)) (PyDict.get name (state m))).
    match goal with
    | |- context [Primary.notify w name seen out ?mm] => set (m1 := mm)
    end.
    assert (heap m1 = heap m ++ [∅]) as Hh1 by done.
    destruct (notify_accepted w name seen out m1 Hacc)
      as (m' & Hn & Hst & Hlen & Hoth & Htr & Hd).
    { rewrite Hh1, length_app. simpl. unfold seen.
      destruct (PyDict.get name (state m)) as [r|] eqn:Hg; simpl; [|lia].
      apply (proj2 Hwf) in Hg. lia. }
    rewrite Hn. unfold state_set. eexists. split_and!; [done..| |].
    + simpl. rewrite Htr. simpl. rewrite Hft. rewrite <-!app_assoc. simpl.
      destruct out as [|o out]; [|done].
      by apply Permutation_nil_cons in Hperm.
    + unfold known at 1. simpl. rewrite dict_get_set_eq. simpl.
      change (deref seen _) with (deref seen m'). rewrite Hd.
      pose proof (seen_set_eq name m m1 Hh1) as Hs. fold seen in Hs. by rewrite Hs.
Qed.

(** The two notices of the sample, none of them known. *)
Lemma run_target_notifies_witness :
  ∃ out m',
    Primary.run_target (Samples.world Samples.page_two Samples.delivered)
      Samples.source boot = (inr tt, m')
    ∧ out = [Samples.item_9; Samples.item_10]
    ∧ default ∅ (known (lit "notice") m') = {[ lit "9"; lit "10" ]}.
Proof.
  destruct (run_target_notifies_oldest_first
              (Samples.world Samples.page_two Samples.delivered) Samples.source
              Samples.listing_url boot [Samples.item_10; Samples.item_9])
    as (out & m' & Hout & _ & Hrun & _ & Hknown).
  - apply wf_boot.
  - right. reflexivity.
  - reflexivity.
  - vm_compute. reflexivity.
  - discriminate.
  - exists out, m'. split; [exact Hrun|].
    vm_compute in Hout. injection Hout as <-. split; [reflexivity|].
    etrans; [exact Hknown|]. unfold known. simpl.
    apply set_eq. intros x. set_solver.
Defined.

(** ** What a run of a source does to the memory, whatever its outcome *)

(** Binding a key to the value it has changes nothing. *)
Lemma dict_set_same {V} (k : str) (v : V) (d : list (str * V)) :
  PyDict.get k d = Some v → PyDict.set k v d = d.
Proof.
  induction d as [|[k' v'] d IH]; simpl; [done|].
  destruct (decide (k' = k)) as [->|]; [by intros [= ->]|].
  intros H. by rewrite IH.
Qed.

Lemma dict_get_values {V} (k : str) (v : V) (d : list (str * V)) :
  PyDict.get k d = Some v → v ∈ PyDict.values d.
Proof.
  intros H. apply dict_get_Some_elem_of in H.
  apply list_elem_of_fmap. by exists (k, v).
Qed.

(** Two names that are bound to one object are one name. *)
Lemma unshared_inj {V} (k k' : str) (v : V) (d : list (str * V)) :
  NoDup (PyDict.values d) →
  PyDict.get k d = Some v → PyDict.get k' d = Some v → k = k'.
Proof.
  unfold PyDict.values. induction d as [|[k0 v0] d IH]; simpl; [done|].
  intros [Hv0 Hnd]%NoDup_cons.
  destruct (decide (k0 = k)) as [Hk|Hk], (decide (k0 = k')) as [Hk'|Hk'].
  - congruence.
  - intros [= ->] H. exfalso. apply Hv0. by apply (dict_get_values k').
  - intros H [= ->]. exfalso. apply Hv0. by apply (dict_get_values k).
  - by apply IH.
Qed.

(** The one event of [telegram_send]. *)
Lemma telegram_send_quiet (w : World) (t : text) (m : mem) :
  ∃ r m' e,
    Primary.telegram_send w t m = (r, m')
    ∧ state m' = state m ∧ heap m' = heap m ∧ trace m' = trace m ++ [e]
    ∧ quiet w e.
Proof.
  unfold Primary.telegram_send. destruct (configured w) eqn:Hc; simpl.
  - destruct (telegram_post w (posts m) t) as [x|] eqn:Hp; unfold_monad;
      eexists _, _, _; (split; [done|]); split_and!; try done;
      split_and!; try done; intros; congruence.
  - unfold_monad. eexists _, _, _. split; [done|]. split_and!; done.
Qed.

(** The events of the loop that notifies. *)
Lemma notify_quiet (w : World) (name : str) (seen : nat) (l : list Item) (m : mem) :
  ∃ r m' evs,
    Primary.notify w name seen l m = (r, m')
    ∧ trace m' = trace m ++ evs ∧ Forall (quiet w) evs.
Proof.
  revert m. induction l as [|it l IH]; intros m.
  { exists (inr tt), m, []. simpl. by rewrite app_nil_r. }
  simpl.
  destruct (telegram_send_quiet w (NewItemText name (title it) (url it)) m)
    as (r0 & m0 & e & Hsend & _ & _ & Htr0 & He).
  unfold bind at 1. rewrite Hsend. destruct r0 as [x|[]].
  { exists (inl x), m0, [e]. split_and!; [done..|]. by constructor. }
  unfold_monad.
  match goal with
  | |- context [Primary.notify _ _ _ _ ?mm] => destruct (IH mm) as (r & m' & evs & Hn & Htr & Hq)
  end.
  rewrite Hn. exists r, m', (e :: EvPrint (LSent name (item_id it) (title it)) :: EvSleep :: evs).
  split_and!; [done| |].
  - rewrite Htr. simpl. rewrite Htr0, <-!app_assoc. done.
  - constructor; [exact He|]. constructor; [by split_and!|].
    constructor; [by split_and!|]. exact Hq.
Qed.

Lemma filter_quiet (w : World) (evs : list event) :
  Forall (quiet w) evs → filter (λ e, is_get e = true) evs = [].
Proof.
  intros H. apply filter_none. intros e He. rewrite Forall_forall in H.
  destruct (H e He) as [-> _]. done.
Qed.

Lemma grown_refl (name : str) (m : mem) : grown name m m.
Proof. split_and!; [done..|by left]. Qed.

Lemma deref_app_l (r : nat) (m m1 : mem) (s : gset str) :
  heap m1 = heap m ++ [s] → (r < length (heap m))%nat → deref r m1 = deref r m.
Proof. intros Hh Hr. unfold deref. by rewrite Hh, lookup_app_l. Qed.

(** A set object that was created and nothing else. *)
Lemma grown_alloc (name : str) (m m1 : mem) :
  state m1 = state m → heap m1 = heap m ++ [∅] → grown name m m1.
Proof.
  intros Hst Hh. split_and!.
  - rewrite Hh, length_app. lia.
  - intros r Hr. by rewrite (deref_app_l r m m1 ∅).
  - intros r Hr _. by rewrite (deref_app_l r m m1 ∅).
  - by left.
Qed.

(** The loop that notifies, and the binding of its set to the name
    of the source that may follow it. *)
Lemma grown_notify (name : str) (m m1 m' : mem) (tr : list event) (p : nat) :
  let seen := default (length (heap m)) (PyDict.get name (state m)) in
  state m1 = state m → heap m1 = heap m ++ [∅] →
  state m' = state m1 → length (heap m') = length (heap m1) →
  (∀ r', r' ≠ seen → deref r' m' = deref r' m1) →
  deref seen m1 ⊆ deref seen m' →
  grown name m m'
  ∧ grown name m (Mem (PyDict.set name seen (state m')) (heap m') tr p).
Proof.
  intros seen Hst1 Hh1 Hst Hlen Hoth Hd.
  assert (length (heap m) < length (heap m'))%nat as Hlt.
  { rewrite Hlen, Hh1, length_app. simpl. lia. }
  assert (∀ r, (r < length (heap m))%nat → deref r m ⊆ deref r m') as Hsub.
  { intros r Hr. rewrite <-(deref_app_l r m m1 ∅) by done.
    destruct (decide (r = seen)) as [->|Hne]; [done|]. by rewrite Hoth. }
  assert (∀ r, (r < length (heap m))%nat → PyDict.get name (state m) ≠ Some r →
               deref r m' = deref r m) as Hframe.
  { intros r Hr Hget. rewrite <-(deref_app_l r m m1 ∅) by done. apply Hoth.
    unfold seen. destruct (PyDict.get name (state m)) as [r0|]; simpl; [congruence|lia]. }
  split.
  - split_and!; [lia|done..|]. left. congruence.
  - split_and!; [simpl; lia|done..|]. simpl. rewrite Hst, Hst1. unfold seen.
    destruct (PyDict.get name (state m)) as [r0|] eqn:Hg; simpl.
    + left. by apply dict_set_same.
    + right. split_and!; [done| |done]. apply dict_set_fresh.
      intros Hin. apply dict_keys_get in Hin as [? Hin]. congruence.
Qed.

Ltac quiet_events :=
  repeat first
    [ apply Forall_nil_2
    | assumption
    | apply Forall_cons_2; [first [assumption | by split_and!]|] ].

(** A run of a source of [check_pages.py], whatever its outcome: the
    request of the page, if there is one, comes first; no other
    event is a request or the write of the state file; the memory has
    only grown. *)
Lemma run_target_grows (w : World) (target : Target) (m : mem) :
  wf m →
  ∃ r m' rest,
    Primary.run_target w target m = (r, m')
    ∧ trace m' = trace m ++ option_list (EvGet <$> primary_request target) ++ rest
    ∧ Forall (quiet w) rest
    ∧ grown (default unknown (t_name target)) m m'.
Proof.
  intros Hwf. unfold primary_request.
  destruct (t_url target) as [url|] eqn:Hurl.
  2:{ exists (inl (KeyError Primary.url_key)), m, [].
      unfold Primary.run_target. rewrite Hurl. split; [done|].
      split_and!; [by rewrite app_nil_r|done|apply grown_refl]. }
  rewrite (run_target_eq w target url m Hurl).
  set (name := default unknown (t_name target)).
  set (ttype := default Primary.html_list_number_id (t_type target)).
  set (latest_n := default 30%Z (t_latest_n target)).
  set (m0 := Mem (state m) (heap m ++ [∅]) (trace m) (posts m)).
  set (gets := option_list (EvGet <$> (if Primary.supported ttype then Some url else None))).
  destruct (fetched_state ttype url m0) as [Hfs Hfh]. simpl in Hfs, Hfh.
  assert (trace (Primary.fetched ttype url m0) = trace m ++ gets) as Hft.
  { unfold Primary.fetched, gets. destruct (Primary.supported ttype); [done|].
    simpl. by rewrite app_nil_r. }
  destruct (Primary.extracted w ttype url latest_n) as [e|items].
  { eexists _, _, []. split; [done|]. rewrite app_nil_r.
    split_and!; [done..|]. by apply grown_alloc. }
  cbv zeta.
  set (m1 := log (EvPrint (LFetched name (length items)
                             ((λ it, (item_id it, title it)) <$> take 5 items)))
               (Primary.fetched ttype url m0)).
  assert (state m1 = state m) as Hs1 by done.
  assert (heap m1 = heap m ++ [∅]) as Hh1 by done.
  assert (∃ e1, trace m1 = trace m ++ gets ++ [e1] ∧ quiet w e1) as (e1 & Ht1 & Hq1).
  { eexists. split; [simpl; by rewrite Hft, <-app_assoc|]. by split_and!. }
  clearbody m1. clear Hft Hfs Hfh.
  destruct items as [|it0 items].
  - match goal with
    | |- context [Primary.telegram_send w ?t ?mm] =>
        destruct (telegram_send_quiet w t mm) as (r & m2 & e2 & Hsend & Hst & Hh & Htr & Hq2)
    end.
    exists r, m2, [e1; EvPrint (LText (ParseWarnText name url)); e2].
    split; [done|]. simpl in Hst, Hh, Htr. split_and!.
    + rewrite Htr, Ht1. by rewrite <-!app_assoc.
    + quiet_events.
    + apply grown_alloc; congruence.
  - destruct (Primary.new_items_of _ _) as [|n1 new].
    { exists (inr tt), (log (EvPrint (LNoNew name)) m1), [e1; EvPrint (LNoNew name)].
      split; [done|]. split_and!.
      - simpl. rewrite Ht1. by rewrite <-!app_assoc.
      - quiet_events.
      - by apply grown_alloc. }
    destruct (sorted_by_int w false (n1 :: new)) as [e|l].
    { exists (inl e), m1, [e1]. split; [done|]. split_and!; [done| |by apply grown_alloc].
      quiet_events. }
    unfold bind.
    set (seen := default (length (heap m)) (PyDict.get name (state m))).
    assert (seen < length (heap m1))%nat as Hseen.
    { rewrite Hh1, length_app. simpl. unfold seen.
      destruct (PyDict.get name (state m)) as [r|] eqn:Hg; simpl; [|lia].
      apply (proj2 Hwf) in Hg. lia. }
    destruct (notify_effect w name seen l m1 Hseen)
      as (r & m' & evs & sent & Hn & Hst & Hlen & Hoth & Htr & Hd & _).
    destruct (notify_quiet w name seen l m1) as (r' & m'' & evs' & Hn' & Htr' & Hq).
    rewrite Hn in Hn'. injection Hn' as <- <-.
    rewrite Htr in Htr'. apply app_inv_head in Htr' as <-.
    rewrite Hn.
    destruct (grown_notify name m m1 m' (trace m') (posts m') Hs1 Hh1 Hst Hlen Hoth)
      as [Hg1 Hg2].
    { fold seen. rewrite Hd. apply union_subseteq_l. }
    assert (trace m' = trace m ++ gets ++ e1 :: evs) as Ht'.
    { rewrite Htr, Ht1. by rewrite <-!app_assoc. }
    destruct r as [e|[]].
    + exists (inl e), m', (e1 :: evs). split_and!; [done..|quiet_events|done].
    + eexists (inr tt), _, (e1 :: evs). split; [done|].
      split_and!; [done|quiet_events|exact Hg2].
Qed.

(** A lookup in two dictionaries, one after the other. *)
Lemma dict_get_app {V} (k : str) (d d' : list (str * V)) :
  PyDict.get k (d ++ d')
  = match PyDict.get k d with Some v => Some v | None => PyDict.get k d' end.
Proof.
  induction d as [|[k0 v0] d IH]; simpl; [done|].
  by destruct (decide (k0 = k)).
Qed.

Lemma quiet_calm (w : World) (e : event) : quiet w e → calm w e.
Proof. by intros (_ & ? & ?). Qed.

(** What the sources know after a run of the source [name]. *)
Lemma grown_known (name : str) (m m' : mem) :
  wf m → unshared m → grown name m m' →
  wf m' ∧ unshared m'
  ∧ (∀ name', name' ≠ name → known name' m' = known name' m)
  ∧ (∀ v, known name m = Some v → ∃ v', known name m' = Some v' ∧ v ⊆ v')
  ∧ (PyDict.keys (state m') = PyDict.keys (state m)
     ∨ (name ∉ PyDict.keys (state m))
       ∧ PyDict.keys (state m') = PyDict.keys (state m) ++ [name]).
Proof.
  intros Hwf Hun (Hlen & Hsub & Hframe & Hst).
  assert (∀ name' r, name' ≠ name → PyDict.get name' (state m) = Some r →
                     deref r m' = deref r m) as Hother.
  { intros name' r Hne Hg. apply Hframe; [by apply (proj2 Hwf name')|].
    intros Hg'. apply Hne. by apply (unshared_inj name' name r (state m)). }
  destruct Hst as [Hst|(Hnone & Hst & Hlt)].
  - split_and!.
    + split; [rewrite Hst; apply Hwf|]. intros n r. rewrite Hst. intros Hg.
      apply (proj2 Hwf) in Hg. lia.
    + unfold unshared. by rewrite Hst.
    + intros name' Hne. unfold known. rewrite Hst.
      destruct (PyDict.get name' (state m)) as [r|] eqn:Hg; [|done]. simpl.
      f_equal. by apply (Hother name').
    + intros v. unfold known. rewrite Hst.
      destruct (PyDict.get name (state m)) as [r|] eqn:Hg; [|done]. simpl.
      intros [= <-]. eexists. split; [done|]. apply Hsub. by apply (proj2 Hwf name).
    + left. by rewrite Hst.
  - assert (name ∉ PyDict.keys (state m)) as Hfresh.
    { intros Hin. apply dict_keys_get in Hin as [? Hin]. congruence. }
    split_and!.
    + split.
      * rewrite Hst. unfold PyDict.keys. rewrite fmap_app. apply NoDup_app.
        split_and!; [apply Hwf| |apply NoDup_singleton].
        intros x Hx ->%list_elem_of_singleton. done.
      * intros n r. rewrite Hst, dict_get_app.
        destruct (PyDict.get n (state m)) as [r0|] eqn:Hg.
        -- intros [= <-]. apply (proj2 Hwf) in Hg. lia.
        -- simpl. destruct (decide (name = n)); [|done]. by intros [= <-].
    + unfold unshared. rewrite Hst. unfold PyDict.values. rewrite fmap_app.
      apply NoDup_app. split_and!; [apply Hun| |apply NoDup_singleton].
      intros x Hx ->%list_elem_of_singleton.
      apply list_elem_of_fmap in Hx as ([k r] & Hr & Hin). simpl in Hr. subst r.
      pose proof (state_refs_valid m Hwf) as Hv. rewrite Forall_forall in Hv.
      specialize (Hv _ Hin). simpl in Hv. lia.
    + intros name' Hne. unfold known. rewrite Hst, dict_get_app.
      destruct (PyDict.get name' (state m)) as [r|] eqn:Hg; simpl.
      * f_equal. by apply (Hother name').
      * by rewrite decide_False.
    + intros v. unfold known. by rewrite Hnone.
    + right. split; [done|]. rewrite Hst. unfold PyDict.keys. by rewrite fmap_app.
Qed.

(** X8.  A run of a source, whatever its outcome, forgets nothing and
    keeps to its own source: the known ids of every other source are
    what they were, those of the source itself have at most grown, and
    the state mapping keeps its entries in their order, with the
    source as a new last entry at most. *)
Theorem run_target_keeps_what_is_known (w : World) (target : Target) (m : mem) :
  let name := default unknown (t_name target) in
  wf m → unshared m →
  ∃ r m',
    Primary.run_target w target m = (r, m')
    ∧ wf m' ∧ unshared m'
    ∧ (∀ name', name' ≠ name → known name' m' = known name' m)
    ∧ (∀ v, known name m = Some v → ∃ v', known name m' = Some v' ∧ v ⊆ v')
    ∧ (PyDict.keys (state m') = PyDict.keys (state m)
       ∨ (name ∉ PyDict.keys (state m))
         ∧ PyDict.keys (state m') = PyDict.keys (state m) ++ [name]).
Proof.
  intros name Hwf Hun.
  destruct (run_target_grows w target m Hwf) as (r & m' & rest & Hrun & _ & _ & Hg).
  exists r, m'. split; [done|]. by apply grown_known.
Qed.

(** The run of the sample from a state file that knows the id 8 of
    another source. *)
Lemma run_target_keeps_witness :
  ∃ r m',
    Primary.run_target (Samples.world Samples.page_two Samples.delivered) Samples.source
      Cases.other_knows_8 = (r, m')
    ∧ known (lit "other") m' = Some {[ lit "8" ]}.
Proof.
  destruct (run_target_keeps_what_is_known
              (Samples.world Samples.page_two Samples.delivered) Samples.source
              Cases.other_knows_8)
    as (r & m' & Hrun & _ & _ & Hother & _).
  - split; [apply NoDup_singleton|]. intros name r. simpl.
    destruct (decide _); [|done]. intros [= <-]. lia.
  - apply NoDup_singleton.
  - exists r, m'. split; [exact Hrun|]. by rewrite (Hother (lit "other")).
Defined.

(** ** The whole run, source by source *)

(** The requests among the events of a run of a source. *)
Lemma filter_gets (w : World) (request : option str) (rest : list event) :
  Forall (quiet w) rest →
  filter (λ e, is_get e = true) (option_list (EvGet <$> request) ++ rest)
  = option_list (EvGet <$> request).
Proof.
  intros Hq. rewrite filter_app, (filter_quiet w rest Hq), app_nil_r.
  by destruct request.
Qed.

Lemma omap_cons_list {A B} (f : A → option B) (x : A) (l : list A) :
  omap f (x :: l) = option_list (f x) ++ omap f l.
Proof. simpl. by destruct (f x). Qed.

Lemma calm_get (w : World) (request : option str) :
  Forall (calm w) (option_list (EvGet <$> request)).
Proof. destruct request; simpl; [|done]. by repeat constructor. Qed.

(** What the sources know only grows from one memory to the other,
    and the state mapping keeps its entries at its front. *)
Lemma known_grows_trans (m m1 m' : mem) :
  (∀ name v, known name m = Some v → ∃ v', known name m1 = Some v' ∧ v ⊆ v') →
  (∀ name v, known name m1 = Some v → ∃ v', known name m' = Some v' ∧ v ⊆ v') →
  ∀ name v, known name m = Some v → ∃ v', known name m' = Some v' ∧ v ⊆ v'.
Proof.
  intros H1 H2 name v Hv. destruct (H1 name v Hv) as (v1 & Hv1 & Hs1).
  destruct (H2 name v1 Hv1) as (v' & Hv' & Hs'). exists v'. split; [done|]. set_solver.
Qed.

Lemma grown_known_all (name : str) (m m' : mem) :
  wf m → unshared m → grown name m m' →
  (∀ name' v, known name' m = Some v → ∃ v', known name' m' = Some v' ∧ v ⊆ v')
  ∧ PyDict.keys (state m) `prefix_of` PyDict.keys (state m').
Proof.
  intros Hwf Hun Hg.
  destruct (grown_known name m m' Hwf Hun Hg) as (_ & _ & Hother & Hown & Hkeys).
  split.
  - intros name' v Hv. destruct (decide (name' = name)) as [->|Hne]; [by apply Hown|].
    exists v. by rewrite Hother.
  - destruct Hkeys as [->|[_ ->]]; [done|]. by apply prefix_app_r.
Qed.

(** The loop of [main] over the sources, when the report of a failure
    cannot fail itself. *)
Lemma run_targets_grows (w : World) (targets : list Target) (m : mem) :
  reports_taken w → wf m → unshared m →
  ∃ m' evs,
    Primary.run_targets w targets m = (inr tt, m')
    ∧ wf m' ∧ unshared m'
    ∧ trace m' = trace m ++ evs
    ∧ filter (λ e, is_get e = true) evs = EvGet <$> omap primary_request targets
    ∧ Forall (calm w) evs
    ∧ (∀ name v, known name m = Some v → ∃ v', known name m' = Some v' ∧ v ⊆ v')
    ∧ PyDict.keys (state m) `prefix_of` PyDict.keys (state m').
Proof.
  intros Hrep. revert m. induction targets as [|t ts IH]; intros m Hwf Hun.
  { exists m, []. simpl. unfold ret. split_and!; try done.
    - by rewrite app_nil_r.
    - intros name v Hv. by exists v. }
  cbn [Primary.run_targets]. unfold bind at 1. unfold try_except.
  destruct (run_target_grows w t m Hwf) as (r & m1 & rest & -> & Htr1 & Hq1 & Hg1).
  destruct (grown_known _ m m1 Hwf Hun Hg1) as (Hwf1 & Hun1 & _).
  destruct (grown_known_all _ m m1 Hwf Hun Hg1) as (Hk1 & Hp1).
  assert (∃ m2 more,
            match r with
            | inr x => (inr x, m1)
            | inl e =>
                (print (LText (CrawlerErrText (default unknown (t_name t)) e)) ;;
                 Primary.telegram_send w (CrawlerErrText (default unknown (t_name t)) e)) m1
            end = (inr tt, m2)
            ∧ state m2 = state m1 ∧ heap m2 = heap m1
            ∧ trace m2 = trace m1 ++ more ∧ Forall (quiet w) more)
    as (m2 & more & -> & Hst2 & Hh2 & Htr2 & Hq2).
  { destruct r as [e|[]].
    - unfold bind at 1. unfold print at 1, emit at 1.
      set (report := CrawlerErrText (default unknown (t_name t)) e).
      destruct (telegram_send_quiet w report (log (EvPrint (LText report)) m1))
        as (r & m2 & sent & Hsend & Hst & Hh & Htr & Hsent).
      rewrite Hsend.
      assert (r = inr tt) as ->.
      { revert Hsend. unfold Primary.telegram_send, report.
        destruct Hrep as [->|Hrep]; simpl.
        - unfold print, emit. by intros [= <- _].
        - destruct (configured w); simpl; [|unfold print, emit; by intros [= <- _]].
          rewrite Hrep. unfold emit. by intros [= <- _]. }
      exists m2, [EvPrint (LText report); sent]. split; [done|].
      simpl in Hst, Hh, Htr. split_and!; [done..| |].
      + by rewrite Htr, <-app_assoc.
      + quiet_events.
    - exists m1, []. split_and!; [done..|by rewrite app_nil_r|done]. }
  assert (wf m2) as Hwf2.
  { apply (wf_grow m1); [done|done|]. by rewrite Hh2. }
  assert (unshared m2) as Hun2 by (unfold unshared; by rewrite Hst2).
  assert (∀ name, known name m2 = known name m1) as Hk2.
  { intros name. unfold known, deref. by rewrite Hst2, Hh2. }
  destruct (IH m2 Hwf2 Hun2) as (m' & evs & Hrun & Hwf' & Hun' & Htr' & Hgets & Hcalm & Hk' & Hp').
  exists m', (option_list (EvGet <$> primary_request t) ++ rest ++ more ++ evs).
  split; [done|]. split_and!; [done..| | | | |].
  - rewrite Htr', Htr2, Htr1. by rewrite <-!app_assoc.
  - rewrite omap_cons_list, fmap_app, <-Hgets.
    rewrite !app_assoc, filter_app, <-!app_assoc. f_equal.
    rewrite (filter_gets w _ (rest ++ more)) by (by apply Forall_app).
    by destruct (primary_request t).
  - apply Forall_app. split; [apply calm_get|].
    apply Forall_app. split; [by eapply Forall_impl; [|apply quiet_calm]|].
    apply Forall_app. split; [by eapply Forall_impl; [|apply quiet_calm]|done].
  - apply (known_grows_trans m m1 m'); [done|].
    intros name v. rewrite <-Hk2. apply Hk'.
  - etrans; [exact Hp1|]. by rewrite <-Hst2.
Qed.

Lemma dict_set_values_elem {V} (k : str) (v x : V) (d : list (str * V)) :
  x ∈ PyDict.values (PyDict.set k v d) → x = v ∨ x ∈ PyDict.values d.
Proof.
  unfold PyDict.values. induction d as [|[k0 v0] d IH]; simpl.
  { intros ->%list_elem_of_singleton. by left. }
  destruct (decide (k0 = k)) as [->|Hk]; simpl.
  - intros [->|Hin]%elem_of_cons; [by left|]. right. by apply list_elem_of_further.
  - intros [->|Hin]%elem_of_cons; [right; apply list_elem_of_here|].
    destruct (IH Hin) as [->|?]; [by left|]. right. by apply list_elem_of_further.
Qed.

(** A new binding of a fresh object keeps the objects unshared. *)
Lemma dict_set_values_NoDup {V} (k : str) (v : V) (d : list (str * V)) :
  NoDup (PyDict.values d) → v ∉ PyDict.values d → NoDup (PyDict.values (PyDict.set k v d)).
Proof.
  induction d as [|[k0 v0] d IH]; simpl.
  { intros _ _. apply NoDup_singleton. }
  unfold PyDict.values. simpl.
  intros [Hv0 Hnd]%NoDup_cons [Hne Hv]%not_elem_of_cons.
  destruct (decide (k0 = k)) as [->|Hk]; simpl.
  - by apply NoDup_cons.
  - apply NoDup_cons. split; [|by apply IH].
    intros Hin. apply dict_set_values_elem in Hin as [->|Hin]; done.
Qed.

(** [load_state] makes one set object for each entry of the file. *)
Lemma load_entries_unshared (raw : list (str * list str)) (m : mem) :
  wf m → unshared m →
  ∃ m', load_entries raw m = (inr tt, m') ∧ wf m' ∧ unshared m' ∧ trace m' = trace m.
Proof.
  revert m. induction raw as [|[k v] raw IH]; intros m Hwf Hun; simpl.
  { by exists m. }
  unfold bind, alloc, state_set. simpl.
  match goal with
  | |- context [load_entries raw ?mm] => destruct (IH mm) as (m' & Hl & Hwf' & Hun' & Htr)
  end.
  { split; [apply dict_NoDup_set, Hwf|].
    intros name r. simpl. destruct (decide (k = name)) as [->|Hne].
    - rewrite dict_get_set_eq. intros [= <-]. rewrite length_app. simpl. lia.
    - rewrite dict_get_set_ne by done. intros Hget. apply (proj2 Hwf) in Hget.
      rewrite length_app. lia. }
  { unfold unshared. simpl. apply dict_set_values_NoDup; [done|].
    intros Hin. apply list_elem_of_fmap in Hin as ([k' r] & Hr & Hin). simpl in Hr.
    pose proof (state_refs_valid m Hwf) as Hv. rewrite Forall_forall in Hv.
    specialize (Hv _ Hin). simpl in Hv. lia. }
  by exists m'.
Qed.

Lemma load_state_unshared (w : World) :
  ∃ m0, load_state w boot = (inr tt, m0) ∧ wf m0 ∧ unshared m0 ∧ trace m0 = [].
Proof.
  assert (unshared boot) as Hun by constructor.
  unfold load_state. destruct (state_json w) as [| |raw]; [by exists boot; split_and!; try apply wf_boot..|].
  by apply load_entries_unshared; [apply wf_boot|].
Qed.

(** X9.  When the report of a failure cannot fail itself, [main] of
    [check_pages.py] goes through every source: it requests the page
    of each source that has a URL and a type with a parser, once and
    in the order of the configuration, whatever happens to the other
    sources; it returns, and the write of the state file is its last
    step and the only one.  Without credentials it sends no POST. *)
Theorem main_requests_each_source_once (w : World) (t : Target) (ts : list Target) :
  reports_taken w →
  ∃ m,
    Primary.main w (Some (t :: ts)) boot = (inr tt, log (EvSave (compact m)) m)
    ∧ filter (λ e, is_get e = true) (trace m) = EvGet <$> omap primary_request (t :: ts)
    ∧ Forall (λ e, is_save e = false) (trace m)
    ∧ (configured w = false → Forall (λ e, is_post e = false) (trace m)).
Proof.
  intros Hrep. unfold Primary.main. cbn [from_option id]. unfold bind.
  destruct (load_state_unshared w) as (m0 & -> & Hwf0 & Hun0 & Htr0).
  destruct (run_targets_grows w (t :: ts) m0 Hrep Hwf0 Hun0)
    as (m & evs & -> & _ & _ & Htr & Hgets & Hcalm & _).
  exists m. split; [done|]. rewrite Htr, Htr0. simpl app. split_and!; [done| |].
  - eapply Forall_impl; [exact Hcalm|]. by intros e [? _].
  - intros Hc. eapply Forall_impl; [exact Hcalm|]. intros e [_ He]. by apply He.
Qed.

(** A source without a parser, then the source of the sample, with
    no credentials at hand. *)
Lemma main_requests_witness :
  ∃ m,
    Primary.main (Cases.bare_world Samples.page_two)
      (Some [Samples.source_unsupported; Samples.source]) boot
    = (inr tt, log (EvSave (compact m)) m)
    ∧ filter (λ e, is_get e = true) (trace m) = [EvGet Samples.listing_url].
Proof.
  destruct (main_requests_each_source_once (Cases.bare_world Samples.page_two)
              Samples.source_unsupported [Samples.source])
    as (m & Hmain & Hgets & _).
  - left. reflexivity.
  - exists m. split; [exact Hmain|]. rewrite Hgets. reflexivity.
Defined.

(** ** The variant, source by source *)

(** With credentials, the loop that notifies is the one of
    [check_pages.py]. *)
Lemma variant_notify_configured (w : World) (name : str) (seen : nat) (l : list Item) :
  configured w = true →
  Variant.notify w name seen l = Primary.notify w name seen l.
Proof.
  intros Hc.
  assert (∀ t, Variant.telegram_send w t = Primary.telegram_send w t) as Hsend.
  { intros t. unfold Variant.telegram_send, Primary.telegram_send. by rewrite Hc. }
  induction l as [|it l IH]; [done|]. simpl. by rewrite IH, Hsend.
Qed.

(** Without credentials the first message of the loop raises, before
    anything was sent or recorded. *)
Lemma variant_notify_unconfigured (w : World) (name : str) (seen : nat) (it : Item)
    (l : list Item) (m : mem) :
  configured w = false →
  Variant.notify w name seen (it :: l) m = (inl RuntimeError_env, m).
Proof. intros Hc. simpl. unfold bind, Variant.telegram_send. by rewrite Hc. Qed.

(** A run of a source of the variant, whatever its outcome; without
    credentials it leaves the state mapping and the sets as they were. *)
Lemma variant_run_target_grows (w : World) (target : Target) (m : mem) :
  wf m →
  ∃ r m' rest,
    Variant.run_target w target m = (r, m')
    ∧ trace m' = trace m ++ option_list (EvGet <$> variant_request target) ++ rest
    ∧ Forall (quiet w) rest
    ∧ grown (default unknown (t_name target)) m m'
    ∧ (configured w = false →
       state m' = state m
       ∧ ∀ r, (r < length (heap m))%nat → deref r m' = deref r m).
Proof.
  intros Hwf. unfold variant_request.
  destruct (t_name target) as [name|] eqn:Hname.
  2:{ exists (inl (KeyError Variant.name_key)), m, [].
      unfold Variant.run_target. rewrite Hname. split; [done|].
      split_and!; [by rewrite app_nil_r|done|apply grown_refl|done]. }
  destruct (t_url target) as [url|] eqn:Hurl.
  2:{ exists (inl (KeyError Variant.url_key)), m, [].
      unfold Variant.run_target. rewrite Hname, Hurl. split; [done|].
      split_and!; [by rewrite app_nil_r|done|apply grown_refl|done]. }
  rewrite (variant_run_target_eq w target name url m Hname Hurl). simpl default.
  set (ttype := default Variant.html_key_list (t_type target)).
  set (latest_n := default 30%Z (t_latest_n target)).
  set (key_pattern := default Variant.default_key_pattern (t_key_pattern target)).
  set (m0 := Mem (state m) (heap m ++ [∅]) (trace m) (posts m)).
  assert (∀ r, (r < length (heap m))%nat → deref r m0 = deref r m) as Hd0.
  { intros r Hr. by apply (deref_app_l r m m0 ∅). }
  case_bool_decide as Ht.
  2:{ eexists _, _, []. split; [done|]. simpl. rewrite app_nil_r.
      split_and!; [done..|by apply grown_alloc|done]. }
  destruct (Variant.extracted w url key_pattern latest_n) as [e|items].
  { eexists _, _, []. split; [done|]. simpl.
    split_and!; [done..|by apply grown_alloc|done]. }
  destruct (Variant.new_items_of _ _) as [|n1 new].
  { eexists _, _, [EvPrint (LNoNew name)]. split; [done|]. simpl.
    split_and!; [by rewrite <-app_assoc|quiet_events|by apply grown_alloc|done]. }
  destruct (Variant.sorted_by_key w false (n1 :: new)) as [e|l] eqn:Hsort.
  { eexists _, _, []. split; [done|]. simpl.
    split_and!; [done..|by apply grown_alloc|done]. }
  unfold bind.
  set (m1 := log (EvGet url) m0).
  set (seen := default (length (heap m)) (PyDict.get name (state m))).
  destruct (configured w) eqn:Hc.
  - rewrite (variant_notify_configured w name seen l Hc).
    assert (seen < length (heap m1))%nat as Hseen.
    { simpl. rewrite length_app. simpl. unfold seen.
      destruct (PyDict.get name (state m)) as [r|] eqn:Hg; simpl; [|lia].
      apply (proj2 Hwf) in Hg. lia. }
    destruct (notify_effect w name seen l m1 Hseen)
      as (r & m' & evs & sent & Hn & Hst & Hlen & Hoth & Htr & Hd & _).
    destruct (notify_quiet w name seen l m1) as (r' & m'' & evs' & Hn' & Htr' & Hq).
    rewrite Hn in Hn'. injection Hn' as <- <-.
    rewrite Htr in Htr'. apply app_inv_head in Htr' as <-.
    rewrite Hn.
    destruct (grown_notify name m m1 m' (trace m') (posts m') eq_refl eq_refl Hst Hlen Hoth)
      as [Hg1 Hg2].
    { fold seen. rewrite Hd. apply union_subseteq_l. }
    assert (trace m' = trace m ++ [EvGet url] ++ evs) as Ht'.
    { rewrite Htr. simpl. by rewrite <-app_assoc. }
    destruct r as [e|[]].
    + exists (inl e), m', evs. split_and!; done.
    + eexists (inr tt), _, evs. split; [done|]. split_and!; [done..|exact Hg2|done].
  - destruct l as [|it l].
    { apply sorted_by_key_perm, Permutation_nil_cons in Hsort. done. }
    rewrite (variant_notify_unconfigured w name seen it l m1 Hc).
    exists (inl RuntimeError_env), m1, []. split; [done|]. simpl.
    split_and!; [done..|by apply grown_alloc|done].
Qed.

(** What is written for a memory whose state mapping and sets are
    those of another memory. *)
Lemma compact_same (m m' : mem) :
  wf m → state m' = state m →
  (∀ r, (r < length (heap m))%nat → deref r m' = deref r m) →
  compact m' = compact m.
Proof.
  intros Hwf Hst Hd. unfold compact. rewrite Hst. apply Forall_fmap_ext.
  eapply Forall_impl; [apply (state_refs_valid m Hwf)|].
  intros [k r] Hr. simpl in *. by rewrite Hd.
Qed.

(** The loop of [main] of the variant over the sources. *)
Lemma variant_run_targets_grows (w : World) (targets : list Target) (m : mem) :
  wf m → unshared m →
  ∃ m' evs,
    Variant.run_targets w targets m = (inr tt, m')
    ∧ wf m' ∧ unshared m'
    ∧ trace m' = trace m ++ evs
    ∧ filter (λ e, is_get e = true) evs = EvGet <$> omap variant_request targets
    ∧ Forall (calm w) evs
    ∧ (∀ name v, known name m = Some v → ∃ v', known name m' = Some v' ∧ v ⊆ v')
    ∧ PyDict.keys (state m) `prefix_of` PyDict.keys (state m')
    ∧ (configured w = false → compact m' = compact m).
Proof.
  revert m. induction targets as [|t ts IH]; intros m Hwf Hun.
  { exists m, []. simpl. unfold ret. split_and!; try done.
    - by rewrite app_nil_r.
    - intros name v Hv. by exists v. }
  cbn [Variant.run_targets]. unfold bind at 1. unfold try_except.
  destruct (variant_run_target_grows w t m Hwf)
    as (r & m1 & rest & -> & Htr1 & Hq1 & Hg1 & Hsame1).
  destruct (grown_known _ m m1 Hwf Hun Hg1) as (Hwf1 & Hun1 & _).
  destruct (grown_known_all _ m m1 Hwf Hun Hg1) as (Hk1 & Hp1).
  assert (∃ m2 more,
            match r with
            | inr x => (inr x, m1)
            | inl e => print (LText (CrawlerErrText (default unknown (t_name t)) e)) m1
            end = (inr tt, m2)
            ∧ state m2 = state m1 ∧ heap m2 = heap m1
            ∧ trace m2 = trace m1 ++ more ∧ Forall (quiet w) more)
    as (m2 & more & -> & Hst2 & Hh2 & Htr2 & Hq2).
  { destruct r as [e|[]].
    - eexists _, [_]. split; [done|]. split_and!; [done..|quiet_events].
    - exists m1, []. split_and!; [done..|by rewrite app_nil_r|done]. }
  assert (wf m2) as Hwf2.
  { apply (wf_grow m1); [done|done|]. by rewrite Hh2. }
  assert (unshared m2) as Hun2 by (unfold unshared; by rewrite Hst2).
  assert (∀ i, deref i m2 = deref i m1) as Hd2.
  { intros i. unfold deref. by rewrite Hh2. }
  assert (∀ name, known name m2 = known name m1) as Hk2.
  { intros name. unfold known. rewrite Hst2.
    destruct (PyDict.get name (state m1)); simpl; [by rewrite Hd2|done]. }
  destruct (IH m2 Hwf2 Hun2)
    as (m' & evs & Hrun & Hwf' & Hun' & Htr' & Hgets & Hcalm & Hk' & Hp' & Hsame').
  exists m', (option_list (EvGet <$> variant_request t) ++ rest ++ more ++ evs).
  split; [done|]. split_and!; [done..| | | | | |].
  - rewrite Htr', Htr2, Htr1. by rewrite <-!app_assoc.
  - rewrite omap_cons_list, fmap_app, <-Hgets.
    rewrite !app_assoc, filter_app, <-!app_assoc. f_equal.
    rewrite (filter_gets w _ (rest ++ more)) by (by apply Forall_app).
    by destruct (variant_request t).
  - apply Forall_app. split; [apply calm_get|].
    apply Forall_app. split; [by eapply Forall_impl; [|apply quiet_calm]|].
    apply Forall_app. split; [by eapply Forall_impl; [|apply quiet_calm]|done].
  - apply (known_grows_trans m m1 m'); [done|].
    intros name v. rewrite <-Hk2. apply Hk'.
  - etrans; [exact Hp1|]. by rewrite <-Hst2.
  - intros Hc. rewrite (Hsame' Hc). destruct (Hsame1 Hc) as [Hs1 Hd1].
    apply compact_same; [done|congruence|]. intros i Hi. rewrite Hd2. by apply Hd1.
Qed.

(** X10.  [main] of the variant, whose handler only prints, goes
    through every source whatever happens: it requests the page of
    each source that has a name, a URL and the type of the parser,
    once and in the order of the configuration; it returns, and the
    write of the state file is its last step and the only one. *)
Theorem variant_main_runs_every_source (w : World) (t : Target) (ts : list Target) :
  ∃ m,
    Variant.main w (Some (t :: ts)) boot = (inr tt, log (EvSave (compact m)) m)
    ∧ filter (λ e, is_get e = true) (trace m) = EvGet <$> omap variant_request (t :: ts)
    ∧ Forall (λ e, is_save e = false) (trace m).
Proof.
  unfold Variant.main. cbn [from_option id]. unfold bind.
  destruct (load_state_unshared w) as (m0 & -> & Hwf0 & Hun0 & Htr0).
  destruct (variant_run_targets_grows w (t :: ts) m0 Hwf0 Hun0)
    as (m & evs & -> & _ & _ & Htr & Hgets & Hcalm & _).
  exists m. split; [done|]. rewrite Htr, Htr0. simpl app. split; [done|].
  eapply Forall_impl; [exact Hcalm|]. by intros e [? _].
Qed.

(** What would be written right after [load_state]: the entries of
    the file, each list in the order and under the cap of [save_state]. *)
Lemma load_state_compact (w : World) (m0 : mem) :
  NoDup (file_entries w).*1 →
  load_state w boot = (inr tt, m0) →
  compact m0 = (λ kv, (kv.1, compact_ids (list_to_set kv.2))) <$> file_entries w.
Proof.
  unfold load_state, file_entries.
  destruct (state_json w) as [| |raw]; [by intros _ [= <-]..|].
  intros Hnd Hl.
  destruct (load_entries_compact raw boot wf_boot Hnd) as (m' & Hl' & Hc).
  { intros k _. apply not_elem_of_nil. }
  rewrite Hl in Hl'. by injection Hl' as <-.
Qed.

(** X11.  Without credentials the variant records nothing: its
    [telegram_send] raises before any POST, the first new item of a
    source ends the run of that source, and what [main] writes at
    its end is the state file it read (each list in the order and
    under the cap of [save_state]). *)
Theorem variant_without_credentials_records_nothing (w : World) (t : Target)
    (ts : list Target) :
  configured w = false →
  NoDup (file_entries w).*1 →
  ∃ m,
    Variant.main w (Some (t :: ts)) boot = (inr tt, log (EvSave (compact m)) m)
    ∧ compact m = (λ kv, (kv.1, compact_ids (list_to_set kv.2))) <$> file_entries w
    ∧ Forall (λ e, is_post e = false) (trace m).
Proof.
  intros Hc Hnd. unfold Variant.main. cbn [from_option id]. unfold bind.
  destruct (load_state_unshared w) as (m0 & Hload & Hwf0 & Hun0 & Htr0). rewrite Hload.
  destruct (variant_run_targets_grows w (t :: ts) m0 Hwf0 Hun0)
    as (m & evs & -> & _ & _ & Htr & _ & Hcalm & _ & _ & Hsame).
  exists m. split; [done|]. split.
  - rewrite (Hsame Hc). by apply load_state_compact.
  - rewrite Htr, Htr0. simpl app.
    eapply Forall_impl; [exact Hcalm|]. intros e [_ He]. by apply He.
Qed.

(** The source of the sample, its two notices new, and a state file
    that knows the id 8. *)
Lemma variant_without_credentials_witness :
  ∃ m,
    Variant.main
      (with_state_file (Cases.bare_world Samples.page_keys)
         (FileJson [(lit "notice", [lit "8"])]))
      (Some [Samples.source]) boot
    = (inr tt, log (EvSave (compact m)) m)
    ∧ compact m = [(lit "notice", [lit "8"])].
Proof.
  destruct (variant_without_credentials_records_nothing
              (with_state_file (Cases.bare_world Samples.page_keys)
                 (FileJson [(lit "notice", [lit "8"])]))
              Samples.source [])
    as (m & Hmain & Hc & _).
  - reflexivity.
  - apply NoDup_singleton.
  - exists m. split; [exact Hmain|]. rewrite Hc. vm_compute. reflexivity.
Defined.

(** X12.  A run of [main] forgets no id that the state file held: when
    it reaches [save_state], every source of the file is still in the
    state mapping, at its place, and knows at least the ids of the
    file (of which [save_state] then writes the 3000 greatest).  The
    first half speaks of [check_pages.py], when the report of a
    failure cannot fail itself, the second of the variant. *)
Theorem main_keeps_loaded_ids :
  (∀ (w : World) (t : Target) (ts : list Target),
     reports_taken w → NoDup (file_entries w).*1 →
     ∃ m,
       Primary.main w (Some (t :: ts)) boot = (inr tt, log (EvSave (compact m)) m)
       ∧ (file_entries w).*1 `prefix_of` (compact m).*1
       ∧ ∀ name ids, PyDict.get name (file_entries w) = Some ids →
           ∃ v, known name m = Some v ∧ list_to_set ids ⊆ v
                ∧ PyDict.get name (compact m) = Some (compact_ids v))
  ∧ (∀ (w : World) (t : Target) (ts : list Target),
       NoDup (file_entries w).*1 →
       ∃ m,
         Variant.main w (Some (t :: ts)) boot = (inr tt, log (EvSave (compact m)) m)
         ∧ (file_entries w).*1 `prefix_of` (compact m).*1
         ∧ ∀ name ids, PyDict.get name (file_entries w) = Some ids →
             ∃ v, known name m = Some v ∧ list_to_set ids ⊆ v
                  ∧ PyDict.get name (compact m) = Some (compact_ids v)).
Proof.
  assert (∀ w m0, NoDup (file_entries w).*1 → load_state w boot = (inr tt, m0) →
            PyDict.keys (state m0) = (file_entries w).*1
            ∧ ∀ name ids, PyDict.get name (file_entries w) = Some ids →
                known name m0 = Some (list_to_set ids)) as Hload.
  { intros w m0 Hnd Hl. split.
    - pose proof (load_state_compact w m0 Hnd Hl) as Hc.
      apply (f_equal (fmap fst)) in Hc. unfold compact in Hc.
      rewrite <-!list_fmap_compose in Hc. exact Hc.
    - revert Hnd Hl. unfold load_state, file_entries.
      destruct (state_json w) as [| |raw]; [done..|]. intros Hnd Hl name ids Hg.
      destruct (load_entries_known raw boot wf_boot Hnd) as (m' & Hl' & _ & Hk).
      rewrite Hl in Hl'. injection Hl' as <-. by rewrite Hk, Hg. }
  assert (∀ w (m0 m : mem), NoDup (file_entries w).*1 → load_state w boot = (inr tt, m0) →
            (∀ name v, known name m0 = Some v → ∃ v', known name m = Some v' ∧ v ⊆ v') →
            PyDict.keys (state m0) `prefix_of` PyDict.keys (state m) →
            (file_entries w).*1 `prefix_of` (compact m).*1
            ∧ ∀ name ids, PyDict.get name (file_entries w) = Some ids →
                ∃ v, known name m = Some v ∧ list_to_set ids ⊆ v
                     ∧ PyDict.get name (compact m) = Some (compact_ids v)) as Hend.
  { intros w m0 m Hnd Hl Hk Hp. destruct (Hload w m0 Hnd Hl) as [Hkeys Hknown]. split.
    - rewrite <-Hkeys. unfold compact. by rewrite <-list_fmap_compose.
    - intros name ids Hg. destruct (Hk name _ (Hknown name ids Hg)) as (v & Hv & Hsub).
      exists v. split_and!; [done..|]. by rewrite compact_get, Hv. }
  split.
  - intros w t ts Hrep Hnd. unfold Primary.main. cbn [from_option id]. unfold bind.
    destruct (load_state_unshared w) as (m0 & Hl & Hwf0 & Hun0 & Htr0). rewrite Hl.
    destruct (run_targets_grows w (t :: ts) m0 Hrep Hwf0 Hun0)
      as (m & evs & -> & _ & _ & _ & _ & _ & Hk & Hp).
    exists m. split; [done|]. by apply (Hend w m0 m).
  - intros w t ts Hnd. unfold Variant.main. cbn [from_option id]. unfold bind.
    destruct (load_state_unshared w) as (m0 & Hl & Hwf0 & Hun0 & Htr0). rewrite Hl.
    destruct (variant_run_targets_grows w (t :: ts) m0 Hwf0 Hun0)
      as (m & evs & -> & _ & _ & _ & _ & _ & Hk & Hp & _).
    exists m. split; [done|]. by apply (Hend w m0 m).
Qed.

(** The source of the sample and a state file that knows the id 8. *)
Lemma main_keeps_loaded_ids_witness :
  ∃ m,
    Primary.main (Samples.world_knowing Samples.page_two Samples.delivered
                    (lit "notice") [lit "8"])
      (Some [Samples.source]) boot
    = (inr tt, log (EvSave (compact m)) m)
    ∧ ∃ v, known (lit "notice") m = Some v ∧ {[ lit "8" ]} ⊆ v.
Proof.
  destruct (proj1 main_keeps_loaded_ids
              (Samples.world_knowing Samples.page_two Samples.delivered
                 (lit "notice") [lit "8"])
              Samples.source [])
    as (m & Hmain & _ & Hkeep).
  - right. reflexivity.
  - apply NoDup_singleton.
  - exists m. split; [exact Hmain|].
    destruct (Hkeep (lit "notice") [lit "8"] eq_refl) as (v & Hv & Hsub & _).
    exists v. split; [exact Hv|]. set_solver.
Defined.

(** ** A source whose parser raises *)

(** The report of a failure that is taken. *)
Lemma telegram_send_report (w : World) (name : str) (e : exn) (m : mem) :
  reports_taken w →
  Primary.telegram_send w (CrawlerErrText name e) m
  = (inr tt,
     Mem (state m) (heap m)
       (trace m ++ [if configured w then EvPost (CrawlerErrText name e) true
                    else EvPrint (LSkipped (CrawlerErrText name e))])
       (if configured w then S (posts m) else posts m)).
Proof.
  intros Hrep. unfold Primary.telegram_send.
  destruct (configured w) eqn:Hc; simpl; [|reflexivity].
  destruct Hrep as [?|Hrep]; [congruence|]. by rewrite Hrep.
Qed.

(** X13.  A source whose parser raises (the page cannot be fetched,
    the type has no parser, [int] refuses an id) costs one report and
    nothing else: [main] prints the report and hands it to
    [telegram_send], no message of an item goes out, the known ids
    of every source are what they were, and the loop goes on with the
    next source. *)
Theorem failed_extraction_is_reported (w : World) (target : Target)
    (rest : list Target) (url : str) (e : exn) (m : mem) :
  let name := default unknown (t_name target) in
  let ttype := default Primary.html_list_number_id (t_type target) in
  let latest_n := default 30%Z (t_latest_n target) in
  let report := CrawlerErrText name e in
  reports_taken w →
  t_url target = Some url →
  (Primary.select_parser w ttype url latest_n m).1 = inl e →
  ∃ m',
    Primary.run_targets w (target :: rest) m = Primary.run_targets w rest m'
    ∧ trace m'
      = trace m
        ++ option_list (EvGet <$> primary_request target)
        ++ [ EvPrint (LText report);
             if configured w then EvPost report true else EvPrint (LSkipped report) ]
    ∧ state m' = state m
    ∧ (∀ name', known name' m' = known name' m).
Proof.
  intros name ttype latest_n report Hrep Hurl Hex.
  rewrite select_parser_eq in Hex. simpl in Hex.
  cbn [Primary.run_targets]. unfold bind at 1. unfold try_except.
  rewrite (run_target_eq w target url m Hurl). fold name ttype latest_n.
  rewrite Hex. fold report.
  unfold bind at 1. unfold print at 1, emit at 1.
  rewrite (telegram_send_report w name e _ Hrep). fold report.
  eexists. split; [reflexivity|].
  destruct (fetched_state ttype url (Mem (state m) (heap m ++ [∅]) (trace m) (posts m)))
    as [Hfs Hfh]. simpl in Hfs, Hfh.
  split_and!.
  - simpl. unfold primary_request. rewrite Hurl. fold ttype.
    unfold Primary.fetched. destruct (Primary.supported ttype); simpl.
    + by rewrite <-!app_assoc.
    + by rewrite <-!app_assoc.
  - done.
  - intros name'. by apply known_heap_app.
Qed.

(** The listing with a row numbered by a superscript two. *)
Lemma failed_extraction_witness :
  ∃ m',
    Primary.run_targets (Samples.world Samples.page_superscript Samples.delivered)
      [Samples.source] boot
    = Primary.run_targets (Samples.world Samples.page_superscript Samples.delivered) [] m'
    ∧ trace m'
      = [ EvGet Samples.listing_url;
          EvPrint (LText (CrawlerErrText (lit "notice") (ValueError_int [0xb2])));
          EvPost (CrawlerErrText (lit "notice") (ValueError_int [0xb2])) true ].
Proof.
  destruct (failed_extraction_is_reported
              (Samples.world Samples.page_superscript Samples.delivered)
              Samples.source [] Samples.listing_url (ValueError_int [0xb2]) boot)
    as (m' & Hrun & Htr & _).
  - right. reflexivity.
  - reflexivity.
  - vm_compute. reflexivity.
  - exists m'. split; [exact Hrun|]. rewrite Htr. reflexivity.
Defined.
